(** * PyRTL wire vectors: a shallow embedding of [pyrtl/wire.py]

    The module under study builds a netlist: every operator applied to a
    wire vector allocates a fresh wire vector in the working block and
    appends a [LogicNet] to it.  Wire vectors are Python objects with
    mutable attributes, so they are modelled as references into a store;
    construction code runs in a state-and-exception monad in which the
    store survives a raised exception, as it does in Python. *)

From Stdlib Require Import ZArith Lia Ascii String.
From stdpp Require Import base list list_numbers strings.

Local Open Scope Z_scope.

(** ** Exceptions *)

(** One constructor per [raise core.PyrtlError(...)] site of wire.py, in
    the order of the file; the helper module's shrink check reuses
    [CannotReduceBits]. *)
Inductive PyrtlError : Type :=
  | BitwidthMustBePositive      (* WireVector.__init__: bitwidth must be >= 1 *)
  | ConvertToBoolean            (* WireVector.__bool__ *)
  | CannotReduceBits            (* _extend_with_bit: cannot reduce the number of bits *)
  | InputAssigned               (* Input.__ilshift__ *)
  | ConstBitwidthWithString     (* Const: bitwidth given together with a string *)
  | ConstNotVerilogFormat       (* Const: string not in verilog style format *)
  | ConstImproperType           (* Const: value neither int nor string *)
  | ConstBitwidthNotInt         (* Const: bitwidth must be from type int *)
  | ConstNegativeValue          (* Const: only for unsigned numbers *)
  | ConstNegativeBitwidth       (* Const: negative bitwidth *)
  | ConstCannotFit              (* Const: constant cannot fit in the specified bits *)
  | ConstAssigned               (* Const.__ilshift__ *)
  | RegisterAssignedDirectly    (* Register.__ilshift__ *)
  | NextNotSetter               (* Register.next setter: not set with the staging operator *)
  | NextSetTwice                (* Register.next setter: set once and only once *)
  | AsWiresImproperType.        (* helperfuncs.as_wires on a value it cannot convert *)

Inductive exn : Type :=
  | PyrtlErr (e : PyrtlError)
  | AssertionError
  | IndexError
  | ValueError
  | TypeError.

Inductive Result (A : Type) : Type :=
  | Ok (a : A)
  | Raise (e : exn).
Arguments Ok {A} a.
Arguments Raise {A} e.

(** ** Data model *)

(** The ten classes of wire.py. *)
Inductive Class : Type :=
  | WireVectorC | InputC | OutputC | ConstC | RegisterC
  | SignedWireVectorC | SignedInputC | SignedOutputC | SignedConstC
  | SignedRegisterC.

(** The static attribute [code] of each class. *)
Definition code (c : Class) : string :=
  match c with
  | WireVectorC => "W" | InputC => "I" | OutputC => "O" | ConstC => "C"
  | RegisterC => "R" | SignedWireVectorC => "SW" | SignedInputC => "SI"
  | SignedOutputC => "SO" | SignedConstC => "SC" | SignedRegisterC => "SR"
  end.

(** The classes that override [extended] with [sign_extended]. *)
Definition is_signed (c : Class) : bool :=
  match c with
  | SignedWireVectorC | SignedInputC | SignedOutputC | SignedConstC
  | SignedRegisterC => true
  | _ => false
  end.

(** The base class a Signed class derives from (itself otherwise). *)
Definition unsigned_base (c : Class) : Class :=
  match c with
  | SignedWireVectorC => WireVectorC | SignedInputC => InputC
  | SignedOutputC => OutputC | SignedConstC => ConstC
  | SignedRegisterC => RegisterC | _ => c
  end.

Definition is_register (c : Class) : bool :=
  match unsigned_base c with RegisterC => true | _ => false end.

(** A wire vector is identified by its position in the store. *)
Abbreviation ref := nat (only parsing).

(** The attributes of a wire vector object.  [val] is set by [Const],
    [reg_in] and [_is_conditional] by [Register]; [bitwidth] is [None]
    until it is resolved by an assignment. *)
Record WireVectorObj : Type := mkWire {
  cls : Class;
  bitwidth : option Z;
  val : option Z;
  reg_in : option ref;
  _is_conditional : bool
}.

(** [core.LogicNet]: operation, immediate parameter, inputs, outputs. *)
Record LogicNet : Type := mkNet {
  op : string;
  op_param : option (list Z);
  args : list ref;
  dests : list ref
}.

(** The construction state: the working block (its wire vectors and its
    nets, in emission order) and the state of the conditional resolver
    (whether construction is inside a conditional scope, and the calls
    made to its registration entry point, in order). *)
Record State : Type := mkState {
  wirevectors : list WireVectorObj;
  logic : list LogicNet;
  under_condition : bool;
  register_set_calls : list (ref * ref)
}.

Definition empty_state : State := mkState [] [] false [].

(** Values a caller may pass where the Python code accepts any object. *)
Inductive pyval : Type :=
  | PyNone
  | PyInt (n : Z)
  | PyStr (s : string)
  | PyWire (w : ref)
  | PyNext (reg : ref)           (* Register._Next(reg) *)
  | PyNextSetter (rhs : ref).    (* Register._NextSetter(rhs) *)

(** An index expression: an integer or [slice(start, stop, step)]. *)
Inductive pyindex : Type :=
  | IndexInt (i : Z)
  | IndexSlice (start stop step : option Z).

(** ** The construction monad *)

Definition M (A : Type) : Type := State -> Result A * State.

Definition ret {A} (a : A) : M A := fun st => (Ok a, st).
Definition raise {A} (e : exn) : M A := fun st => (Raise e, st).
Definition bind {A B} (m : M A) (k : A -> M B) : M B :=
  fun st =>
    match m st with
    | (Ok a, st') => k a st'
    | (Raise e, st') => (Raise e, st')
    end.

Notation "'let*' x ':=' m 'in' k" := (bind m (fun x => k))
  (at level 10, x name, m at level 100, k at level 200).
Notation "m ';;;' k" := (bind m (fun _ => k))
  (at level 100, k at level 200, right associativity).

(** Reading an attribute of an object.  A reference that is not in the
    store cannot arise from Python code; the model answers [TypeError]. *)
Definition get_obj (r : ref) : M WireVectorObj :=
  fun st =>
    match wirevectors st !! r with
    | Some o => (Ok o, st)
    | None => (Raise TypeError, st)
    end.

Definition set_obj (r : ref) (o : WireVectorObj) : M unit :=
  fun st =>
    (Ok tt, mkState (<[r := o]> (wirevectors st)) (logic st)
                    (under_condition st) (register_set_calls st)).

Definition set_bitwidth (r : ref) (w : option Z) : M unit :=
  let* o := get_obj r in
  set_obj r (mkWire (cls o) w (val o) (reg_in o) (_is_conditional o)).

Definition set_val (r : ref) (v : option Z) : M unit :=
  let* o := get_obj r in
  set_obj r (mkWire (cls o) (bitwidth o) v (reg_in o) (_is_conditional o)).

Definition set_reg_in (r : ref) (x : option ref) : M unit :=
  let* o := get_obj r in
  set_obj r (mkWire (cls o) (bitwidth o) (val o) x (_is_conditional o)).

Definition set_is_conditional (r : ref) (b : bool) : M unit :=
  let* o := get_obj r in
  set_obj r (mkWire (cls o) (bitwidth o) (val o) (reg_in o) b).

(** The block after one more wire vector, and after one more net; nets
    are kept in emission order. *)
Definition alloc (o : WireVectorObj) (st : State) : State :=
  mkState (wirevectors st ++ [o]) (logic st)
          (under_condition st) (register_set_calls st).

Definition emit (n : LogicNet) (st : State) : State :=
  mkState (wirevectors st) (logic st ++ [n])
          (under_condition st) (register_set_calls st).

(** Modelled from the spec: core.Block is missing.  Section 6: the
    container registers a handle; section 3: nothing is ever deleted.
    The new object gets the next reference. *)
Definition add_wirevector (o : WireVectorObj) : M ref :=
  fun st => (Ok (length (wirevectors st)), alloc o st).

(** Modelled from the spec: core.Block is missing.  Section 6: the
    container registers a node; section 5: nodes are appended in the
    order of the constructing calls. *)
Definition add_net (n : LogicNet) : M unit :=
  fun st => (Ok tt, emit n st).

(** ** The Python built-ins the module relies on *)

(** The module is Python 2 code (it uses [basestring] and
    [string.split]), so [int(s, 0)] reads a leading 0 as octal.  Python
    integers are modelled as [Z]: the split between machine integers
    and long integers is not. *)
Module Py.

(** [range(n)] as a list. *)
Definition range (n : Z) : list Z := seqZ 0 n.

(** [l[i]] for an integer [i]: negative indices count from the end,
    anything outside the list raises [IndexError]. *)
Definition list_getitem_int {A} (l : list A) (i : Z) : Result A :=
  let n := Z.of_nat (length l) in
  let j := if i <? 0 then i + n else i in
  if (j <? 0) || (n <=? j) then Raise IndexError
  else match l !! Z.to_nat j with
       | Some x => Ok x
       | None => Raise IndexError
       end.

(** [slice(start, stop, step).indices(n)]: the bounds are clamped, a
    zero step raises [ValueError]. *)
Definition slice_indices (n : Z) (start stop step : option Z)
  : Result (Z * Z * Z) :=
  let st := default 1 step in
  if st =? 0 then Raise ValueError
  else
    let lower := if st <? 0 then -1 else 0 in
    let upper := if st <? 0 then n - 1 else n in
    let clamp x := if x <? 0 then Z.max (x + n) lower else Z.min x upper in
    let start' := match start with
                  | None => if st <? 0 then upper else lower
                  | Some x => clamp x
                  end in
    let stop' := match stop with
                 | None => if st <? 0 then lower else upper
                 | Some x => clamp x
                 end in
    Ok (start', stop', st).

(** The number of positions a clamped slice visits. *)
Definition slice_length (start stop step : Z) : Z :=
  if step <? 0 then
    if stop <? start then (start - stop - 1) / (- step) + 1 else 0
  else
    if start <? stop then (stop - start - 1) / step + 1 else 0.

(** The positions a clamped slice visits, in order. *)
Definition slice_positions (start stop step : Z) : list Z :=
  (fun k => start + k * step) <$> seqZ 0 (slice_length start stop step).

(** [l[start:stop:step]]. *)
Definition list_getitem_slice {A} (l : list A) (start stop step : option Z)
  : Result (list A) :=
  match slice_indices (Z.of_nat (length l)) start stop step with
  | Raise e => Raise e
  | Ok (a, b, s) =>
      Ok (omap (fun i => l !! Z.to_nat i) (slice_positions a b s))
  end.

(** [bin(n)]: sign, the prefix 0b, the binary digits. *)
Fixpoint bin_digits (p : positive) : string :=
  match p with
  | xH => "1"
  | xO q => bin_digits q +:+ "0"
  | xI q => bin_digits q +:+ "1"
  end.

Definition bin (n : Z) : string :=
  match n with
  | Z0 => "0b0"
  | Zpos p => "0b" +:+ bin_digits p
  | Zneg p => "-0b" +:+ bin_digits p
  end.

Definition len_str (s : string) : Z := Z.of_nat (String.length s).

(** [string.split(s, sep)] for a one-character separator. *)
Fixpoint split (s : string) (sep : ascii) : list string :=
  match s with
  | EmptyString => [EmptyString]
  | String c s' =>
      if Ascii.eqb c sep then EmptyString :: split s' sep
      else match split s' sep with
           | h :: t => String c h :: t
           | [] => [String c EmptyString]
           end
  end.

Definition is_space (c : ascii) : bool :=
  let n := Ascii.N_of_ascii c in
  ((9 <=? n) && (n <=? 13))%N || (n =? 32)%N.

Fixpoint lstrip (s : string) : string :=
  match s with
  | String c s' => if is_space c then lstrip s' else s
  | EmptyString => EmptyString
  end.

Definition strip (s : string) : string :=
  String.rev (lstrip (String.rev (lstrip s))).

(** The value of a digit character, letters standing for 10 to 35. *)
Definition digit_value (c : ascii) : option Z :=
  let n := Z.of_N (Ascii.N_of_ascii c) in
  if (48 <=? n) && (n <=? 57) then Some (n - 48)
  else if (97 <=? n) && (n <=? 122) then Some (n - 87)
  else if (65 <=? n) && (n <=? 90) then Some (n - 55)
  else None.

Fixpoint parse_digits (base acc : Z) (s : string) : option Z :=
  match s with
  | EmptyString => Some acc
  | String c s' =>
      match digit_value c with
      | Some d => if d <? base then parse_digits base (base * acc + d) s'
                  else None
      | None => None
      end
  end.

(** At least one digit is required. *)
Definition parse_number (base : Z) (s : string) : option Z :=
  match s with
  | EmptyString => None
  | _ => parse_digits base 0 s
  end.

Definition parse_signed (body : string -> option Z) (s : string) : option Z :=
  match strip s with
  | String "-" s' => Z.opp <$> body s'
  | String "+" s' => body s'
  | s' => body s'
  end.

(** [int(s)]: surrounding blanks, an optional sign, decimal digits;
    [None] stands for [ValueError]. *)
Definition int (s : string) : option Z := parse_signed (parse_number 10) s.

(** [int(s, 0)]: the base is read from the prefix, 0x, 0o or 0b; a
    literal that starts with 0 and has no prefix letter is octal. *)
Definition int_base0 (s : string) : option Z :=
  parse_signed (fun t =>
    match t with
    | String "0" (String c r) =>
        if bool_decide (c = "x"%char \/ c = "X"%char) then parse_number 16 r
        else if bool_decide (c = "o"%char \/ c = "O"%char) then parse_number 8 r
        else if bool_decide (c = "b"%char \/ c = "B"%char) then parse_number 2 r
        else parse_number 8 t
    | String "0" EmptyString => Some 0
    | _ => parse_number 10 t
    end) s.

End Py.

Definition lift {A} (r : Result A) : M A :=
  match r with
  | Ok a => ret a
  | Raise e => raise e
  end.

Definition option_to_M {A} (e : exn) (o : option A) : M A :=
  match o with
  | Some a => ret a
  | None => raise e
  end.

(** ** Constructors *)

(** [WireVector.__init__], also reached through [super] by every other
    class; [c] is the class being instantiated.  The name comes from the
    block's name allocator, which is not part of this file and cannot
    fail; the object is then identified by its reference. *)
Definition WireVector__init__ (c : Class) (bw : option Z) : M ref :=
  match bw with
  | Some w =>
      if w <=? 0 then raise (PyrtlErr BitwidthMustBePositive)
      else add_wirevector (mkWire c bw None None false)
  | None => add_wirevector (mkWire c bw None None false)
  end.

(** [Input.__init__] and [Output.__init__] only call the base class. *)
Definition Input__init__ (c : Class) (bw : option Z) : M ref :=
  WireVector__init__ c bw.

Definition Output__init__ (c : Class) (bw : option Z) : M ref :=
  WireVector__init__ c bw.

(** The first half of [Const.__init__]: from the arguments to the pair
    of the number and the bitwidth that the checks then validate. *)
Definition Const_parse (v bw : pyval) : M (Z * pyval) :=
  match v with
  | PyInt num =>
      match bw with
      | PyNone => ret (num, PyInt (Py.len_str (Py.bin num) - 2))
      | _ => ret (num, bw)
      end
  | PyStr s =>
      match bw with
      | PyNone =>
          match Py.split s "'" with
          | [w; digits] =>
              match Py.int w, Py.int_base0 ("0" +:+ digits) with
              | Some bitwidth, Some num => ret (num, PyInt bitwidth)
              | _, _ => raise (PyrtlErr ConstNotVerilogFormat)
              end
          | _ => raise (PyrtlErr ConstNotVerilogFormat)
          end
      | _ => raise (PyrtlErr ConstBitwidthWithString)
      end
  | _ => raise (PyrtlErr ConstImproperType)
  end.

(** [Const.__init__(val, bitwidth)]; [c] is [ConstC] or [SignedConstC]. *)
Definition Const__init__ (c : Class) (v bw : pyval) : M ref :=
  let* p := Const_parse v bw in
  let num := fst p in
  match snd p with
  | PyInt bitwidth =>
      if num <? 0 then raise (PyrtlErr ConstNegativeValue)
      else if bitwidth <? 0 then raise (PyrtlErr ConstNegativeBitwidth)
      else if negb (Z.shiftr num bitwidth =? 0)
           then raise (PyrtlErr ConstCannotFit)
      else
        let* self := WireVector__init__ c (Some bitwidth) in
        set_val self (Some num) ;;;
        ret self
  | _ => raise (PyrtlErr ConstBitwidthNotInt)
  end.

(** [Register.__init__]: the base constructor, then [reg_in = None] and
    [_is_conditional = False]. *)
Definition Register__init__ (c : Class) (bw : option Z) : M ref :=
  let* self := WireVector__init__ c bw in
  set_reg_in self None ;;;
  set_is_conditional self false ;;;
  ret self.

(** [__len__]: the bitwidth; Python raises [TypeError] when it is
    [None]. *)
Definition __len__ (self : ref) : M Z :=
  let* o := get_obj self in
  option_to_M TypeError (bitwidth o).

(** ** Collaborators that are not in wire.py *)

(** Modelled from the spec: helperfuncs.concat is missing.  Section 4.1:
    the result is a single handle whose width is the sum of the input
    widths, the first argument in the most-significant position.  The
    layout is recorded by a net with operation c whose inputs are the
    arguments in the order given. *)
Definition concat (ws : list ref) : M ref :=
  let* total :=
    foldr (fun w acc => let* n := __len__ w in let* m := acc in ret (n + m))
          (ret 0) ws in
  let* outwire := WireVector__init__ WireVectorC (Some total) in
  add_net (mkNet "c" None ws [outwire]) ;;;
  ret outwire.

(** Modelled from the spec: conditional.ConditionalUpdate is missing.
    Section 6: the resolver answers whether construction is inside a
    conditional scope, and has a registration entry point taking the
    register handle and the staged handle. *)
Definition currently_under_condition : M bool :=
  fun st => (Ok (under_condition st), st).

(** Modelled from the spec: the registration entry point of the
    resolver, also missing.  Section 6 gives it the register handle and
    the staged handle; the call is recorded. *)
Definition _register_set (reg rhs : ref) : M unit :=
  fun st =>
    (Ok tt, mkState (wirevectors st) (logic st) (under_condition st)
                    (register_set_calls st ++ [(reg, rhs)])).

(** Modelled from the spec: entering or leaving a conditional scope,
    which the missing resolver does. *)
Definition with_condition (b : bool) (st : State) : State :=
  mkState (wirevectors st) (logic st) b (register_set_calls st).

(** ** WireVector methods *)

(** [__bool__] (and [__nonzero__]), inherited unchanged by every class. *)
Definition __bool__ (self : ref) : M bool :=
  raise (PyrtlErr ConvertToBoolean).

(** [__getitem__]: index the list of bit positions, allocate the result,
    emit the select net. *)
Definition __getitem__ (self : ref) (item : pyindex) : M ref :=
  let* o := get_obj self in
  let* w := option_to_M AssertionError (bitwidth o) in
  let allindex := Py.range w in
  let* selectednums :=
    match item with
    | IndexInt i =>
        let* x := lift (Py.list_getitem_int allindex i) in ret [x]
    | IndexSlice start stop step =>
        lift (Py.list_getitem_slice allindex start stop step)
    end in
  let* outwire :=
    WireVector__init__ WireVectorC (Some (Z.of_nat (length selectednums))) in
  add_net (mkNet "s" (Some selectednums) [self] [outwire]) ;;;
  ret outwire.

(** [_extend_with_bit(bitwidth, extbit)]. *)
Definition _extend_with_bit (self : ref) (bw : Z) (extbit : ref) : M ref :=
  let* o := get_obj self in
  let* w := option_to_M TypeError (bitwidth o) in
  let numext := bw - w in
  if numext =? 0 then ret self
  else if numext <? 0 then raise (PyrtlErr CannotReduceBits)
  else
    let* extvector := WireVector__init__ WireVectorC (Some numext) in
    add_net (mkNet "s" (Some (replicate (Z.to_nat numext) 0))
                   [extbit] [extvector]) ;;;
    concat [extvector; self].

(** [sign_extended]: the argument [self[-1]] is evaluated before the
    call, as Python evaluates arguments. *)
Definition sign_extended (self : ref) (bw : Z) : M ref :=
  let* extbit := __getitem__ self (IndexInt (-1)) in
  _extend_with_bit self bw extbit.

(** [zero_extended]: likewise [Const(0, bitwidth=1)] is built first. *)
Definition zero_extended (self : ref) (bw : Z) : M ref :=
  let* extbit := Const__init__ ConstC (PyInt 0) (PyInt 1) in
  _extend_with_bit self bw extbit.

(** [extended]: the default rule of the object's class; the five Signed
    classes override it with [sign_extended]. *)
Definition extended (self : ref) (bw : Z) : M ref :=
  let* o := get_obj self in
  if is_signed (cls o) then sign_extended self bw
  else zero_extended self bw.

(** Modelled from the spec: helperfuncs.as_wires is missing.  Section
    4.1: a handle is returned unchanged when no target width is given or
    the widths agree, a narrower target raises the shrink error, a wider
    one returns the handle widened by its extension rule; a plain
    integer becomes an unsigned Const, of the target width when one is
    given. *)
Definition as_wires (v : pyval) (target : option Z) : M ref :=
  match v with
  | PyWire w =>
      match target with
      | None => ret w
      | Some t =>
          let* n := __len__ w in
          if t <? n then raise (PyrtlErr CannotReduceBits)
          else if n <? t then extended w t
          else ret w
      end
  | PyInt n =>
      Const__init__ ConstC (PyInt n)
        (match target with Some t => PyInt t | None => PyNone end)
  | _ => raise (PyrtlErr AsWiresImproperType)
  end.

(** The width of the result of an operation on operands of width
    [len], as the three tests of [logicop] compute it. *)
Definition resultlen_of (op : string) (len : Z) : Z :=
  if bool_decide (op ∈ ["+"; "-"]) then len + 1
  else if bool_decide (op ∈ ["*"]) then len * 2
  else if bool_decide (op ∈ ["<"; ">"; "="]) then 1
  else len.

(** [logicop(other, op)]. *)
Definition logicop (self : ref) (other : pyval) (op : string) : M ref :=
  let a := self in
  let* b := as_wires other None in
  let* la := __len__ a in
  let* lb := __len__ b in
  let* ab :=
    if la <? lb then
      let* a' := extended a lb in ret (a', b)
    else if lb <? la then
      let* b' := extended b la in ret (a, b')
    else ret (a, b) in
  let* len := __len__ (fst ab) in
  let resultlen := resultlen_of op len in
  let* s := WireVector__init__ WireVectorC (Some resultlen) in
  add_net (mkNet op None [fst ab; snd ab] [s]) ;;;
  ret s.

Definition __and__ (self : ref) (other : pyval) : M ref := logicop self other "&".
Definition __or__ (self : ref) (other : pyval) : M ref := logicop self other "|".
Definition __xor__ (self : ref) (other : pyval) : M ref := logicop self other "^".
Definition __add__ (self : ref) (other : pyval) : M ref := logicop self other "+".
Definition __sub__ (self : ref) (other : pyval) : M ref := logicop self other "-".
Definition __mul__ (self : ref) (other : pyval) : M ref := logicop self other "*".
Definition __lt__ (self : ref) (other : pyval) : M ref := logicop self other "<".
Definition __gt__ (self : ref) (other : pyval) : M ref := logicop self other ">".
Definition __eq__ (self : ref) (other : pyval) : M ref := logicop self other "=".

(** [__invert__]. *)
Definition __invert__ (self : ref) : M ref :=
  let* n := __len__ self in
  let* outwire := WireVector__init__ WireVectorC (Some n) in
  add_net (mkNet "~" None [self] [outwire]) ;;;
  ret outwire.

(** [__ilshift__], by the class that defines it: Input, Const and
    Register (and their Signed subclasses) refuse; the others copy. *)
Definition __ilshift__ (self : ref) (other : pyval) : M ref :=
  let* o := get_obj self in
  match unsigned_base (cls o) with
  | InputC => raise (PyrtlErr InputAssigned)
  | ConstC => raise (PyrtlErr ConstAssigned)
  | RegisterC => raise (PyrtlErr RegisterAssignedDirectly)
  | _ =>
      let* other' := as_wires other (bitwidth o) in
      (match bitwidth o with
       | None =>
           let* o' := get_obj other' in set_bitwidth self (bitwidth o')
       | Some _ => ret tt
       end) ;;;
      add_net (mkNet "w" None [other'] [self]) ;;;
      ret self
  end.

(** ** Register: the next-value protocol *)

(** The property [next] read as a value: the proxy [_Next(self)]. *)
Definition next (self : ref) : M pyval := ret (PyNext self).

(** [_next_ilshift], reached from [_Next.__ilshift__]. *)
Definition _next_ilshift (self : ref) (other : pyval) : M pyval :=
  let* o := get_obj self in
  let* other' := as_wires other (bitwidth o) in
  (match bitwidth o with
   | None => let* o' := get_obj other' in set_bitwidth self (bitwidth o')
   | Some _ => ret tt
   end) ;;;
  ret (PyNextSetter other').

(** [_Next.__ilshift__]; any other object on the left of the operator
    is not a proxy. *)
Definition Next__ilshift__ (proxy : pyval) (other : pyval) : M pyval :=
  match proxy with
  | PyNext reg => _next_ilshift reg other
  | _ => raise TypeError
  end.

(** The setter of the property [next]. *)
Definition next_setter (self : ref) (nextsetter : pyval) : M unit :=
  match nextsetter with
  | PyNextSetter rhs =>
      let* o := get_obj self in
      match reg_in o with
      | Some _ => raise (PyrtlErr NextSetTwice)
      | None =>
          let* cond := currently_under_condition in
          if negb cond then
            set_reg_in self (Some rhs) ;;;
            add_net (mkNet "r" None [rhs] [self])
          else _register_set self rhs
      end
  | _ => raise (PyrtlErr NextNotSetter)
  end.

(** The statement [r.next <<= other]: read the property, apply the
    operator to the proxy, store the result through the setter. *)
Definition stage_next (r : ref) (other : pyval) : M unit :=
  let* proxy := next r in
  let* staged := Next__ilshift__ proxy other in
  next_setter r staged.

(** ** The value carried by a wire *)

(** Modelled from the spec: the simulator that gives nets a value is
    missing.  Section 3 and 4.4: a select net carries the ordered tuple
    of bit positions of its input that make up its output, least
    significant first; section 4.1: a concatenation places its first
    argument in the most-significant position; a Const carries its own
    value. *)
Definition select_bits (v : Z) (idxs : list Z) : Z :=
  foldr (fun i acc => Z.b2z (Z.testbit v i) + 2 * acc) 0 idxs.

(** Modelled from the spec: the value of a concatenation (section 4.1),
    the simulator being missing.  The parts are pairs of a width and a
    value, most significant first. *)
Definition concat_bits (parts : list (Z * Z)) : Z :=
  foldl (fun acc p => Z.shiftl acc (fst p) + snd p) 0 parts.

(** Modelled from the spec: section 3 gives every wire that is not an
    input or a constant one net that produces it; the simulator that
    looks it up is missing.  The net that writes a wire is the first
    one that lists it as output. *)
Definition producer (st : State) (r : ref) : option LogicNet :=
  List.find (fun n => bool_decide (r ∈ dests n)) (logic st).

(** Modelled from the spec: the value of a wire, the simulator being
    missing.  A constant has its own value; a wire written by a select,
    a concatenation or a copy net has the value that net gives it from
    the values of its inputs.  [fuel] bounds the length of the chain of
    nets followed. *)
Fixpoint wire_value (fuel : nat) (st : State) (r : ref) : option Z :=
  match fuel with
  | O => None
  | S fuel' =>
      o ← wirevectors st !! r;
      match val o with
      | Some v => Some v
      | None =>
          n ← producer st r;
          if bool_decide (op n = "s") then
            match args n, op_param n with
            | [x], Some idxs =>
                v ← wire_value fuel' st x; Some (select_bits v idxs)
            | _, _ => None
            end
          else if bool_decide (op n = "c") then
            parts ← mapM (fun x =>
                            v ← wire_value fuel' st x;
                            o' ← wirevectors st !! x;
                            w ← bitwidth o';
                            Some (w, v)) (args n);
            Some (concat_bits parts)
          else if bool_decide (op n = "w") then
            match args n with
            | [x] => wire_value fuel' st x
            | _ => None
            end
          else None
      end
  end.

Arguments wire_value : simpl never.
Arguments select_bits : simpl never.
Arguments concat_bits : simpl never.

(** The width of a wire in a state, when it is there and resolved. *)
Definition width_of (st : State) (r : ref) : option Z :=
  o ← wirevectors st !! r; bitwidth o.

(** The nets emitted between two states. *)
Definition emitted (st st' : State) : list LogicNet :=
  drop (length (logic st)) (logic st').

(** ** What an index expression selects from a flat list *)

(** The positions [item] selects from the Python list [0, 1, ..., w-1]:
    the one element (as a list) for an integer, the sub-list for a
    slice. *)
Definition positions_selected (w : Z) (item : pyindex) : Result (list Z) :=
  match item with
  | IndexInt i =>
      match Py.list_getitem_int (Py.range w) i with
      | Ok x => Ok [x]
      | Raise e => Raise e
      end
  | IndexSlice start stop step =>
      Py.list_getitem_slice (Py.range w) start stop step
  end.

(** ** States used as concrete inputs *)

(** One wire vector of class [c] and width [w] in an empty block. *)
Definition one_wire (c : Class) (w : Z) : State :=
  alloc (mkWire c (Some w) None None false) empty_state.

(** A 4-bit register (reference 0) and a 4-bit wire (reference 1). *)
Definition reg_and_wire : State :=
  alloc (mkWire WireVectorC (Some 4) None None false)
    (alloc (mkWire RegisterC (Some 4) None None false) empty_state).

(** A 4-bit wire (reference 0) and a 2-bit signed wire (reference 1). *)
Definition wide_and_narrow : State :=
  alloc (mkWire SignedWireVectorC (Some 2) None None false)
        (one_wire WireVectorC 4).

(** The 4-bit signed constant 10 (1010) in an empty block. *)
Definition signed_const_10 : State :=
  alloc (mkWire SignedConstC (Some 4) (Some 10) None false) empty_state.

(** The state after [r.next <<= x] on that register and that wire,
    inside a conditional scope. *)
Definition staged_under_condition : State :=
  snd (stage_next 0%nat (PyWire 1%nat) (with_condition true reg_and_wire)).

(** A constant of class [c], value [v] and width [w], extended to [t]
    bits by the default rule of its class. *)
Definition const_then_extended (c : Class) (v w t : Z) : M ref :=
  let* k := Const__init__ c (PyInt v) (PyInt w) in
  extended k t.

(** The value of the wire a construction returns, built in an empty
    block.  No chain of nets is longer than the number of wires. *)
Definition value_built (m : M ref) : option Z :=
  match m empty_state with
  | (Ok r, st) => wire_value (S (length (wirevectors st))) st r
  | (Raise _, _) => None
  end.

(** ** Well-formed states and their growth *)

(** Every net only mentions wires of the block. *)
Definition wf_state (st : State) : Prop :=
  Forall (fun n => Forall (fun x => (x < length (wirevectors st))%nat)
                          (args n ++ dests n))
         (logic st).

(** [st'] has the wires and nets of [st], then further wires, then
    further nets, which write none of the wires of [st]. *)
Definition grows (st st' : State) : Prop :=
  exists ws new,
    wirevectors st' = wirevectors st ++ ws
    /\ logic st' = logic st ++ new
    /\ Forall (fun n => Forall (fun d => (length (wirevectors st) <= d)%nat)
                               (dests n)) new.

(** ** What construction outside the register setter leaves alone *)

(** [keeps st st']: the nets of [st] are still there, in front, and the
    nets after them are no clocked updates; the resolver has not been
    touched; every object is still there with its class and its staged
    value. *)
Definition keeps (st st' : State) : Prop :=
  (exists new, logic st' = logic st ++ new
               /\ Forall (fun n => op n <> "r") new)
  /\ under_condition st' = under_condition st
  /\ register_set_calls st' = register_set_calls st
  /\ (forall (x : ref) o,
        wirevectors st !! x = Some o ->
        exists o', wirevectors st' !! x = Some o'
                   /\ cls o' = cls o /\ reg_in o' = reg_in o).

(** A computation is quiet when every run of it, successful or not,
    keeps the state in that sense. *)
Definition quiet {A} (m : M A) : Prop :=
  forall st, keeps st (snd (m st)).

(** ** The validation order the specification gives for Const *)

(** The three checks the specification names. *)
Inductive ConstCheck : Type :=
  | WidthPositiveInt
  | ValueNonNegative
  | ValueFits.

(** The check each error of [Const.__init__] and of the base
    constructor reports. *)
Definition check_of_error (e : PyrtlError) : option ConstCheck :=
  match e with
  | ConstBitwidthNotInt | ConstNegativeBitwidth | BitwidthMustBePositive =>
      Some WidthPositiveInt
  | ConstNegativeValue => Some ValueNonNegative
  | ConstCannotFit => Some ValueFits
  | _ => None
  end.

(** The first violated check in the order of the specification: the
    width is a positive integer, the value is non-negative, the value
    fits in the width. *)
Definition spec_first_violation (num : Z) (bw : pyval) : option ConstCheck :=
  match bw with
  | PyInt w =>
      if w <=? 0 then Some WidthPositiveInt
      else if num <? 0 then Some ValueNonNegative
      else if 2 ^ w <=? num then Some ValueFits
      else None
  | _ => Some WidthPositiveInt
  end.

(** The check behind the outcome of a construction, if it failed with
    one of the validation errors. *)
Definition violated_check {A} (r : Result A) : option ConstCheck :=
  match r with
  | Raise (PyrtlErr e) => check_of_error e
  | _ => None
  end.

(** ** The comparisons built from several nets, and the reflected
    operators *)

(** [__le__]: two comparisons and their disjunction. *)
Definition __le__ (self : ref) (other : pyval) : M ref :=
  let* lt := logicop self other "<" in
  let* eq := logicop self other "=" in
  __or__ lt (PyWire eq).

(** [__ge__]. *)
Definition __ge__ (self : ref) (other : pyval) : M ref :=
  let* lt := logicop self other ">" in
  let* eq := logicop self other "=" in
  __or__ lt (PyWire eq).

(** [__ne__]: the inverted equality. *)
Definition __ne__ (self : ref) (other : pyval) : M ref :=
  let* eq := logicop self other "=" in
  __invert__ eq.

(** The reflected operators, called with the wire as [self] when the
    left operand is not a wire. *)
Definition __rand__ (self : ref) (other : pyval) : M ref := logicop self other "&".
Definition __ror__ (self : ref) (other : pyval) : M ref := logicop self other "|".
Definition __rxor__ (self : ref) (other : pyval) : M ref := logicop self other "^".
Definition __radd__ (self : ref) (other : pyval) : M ref := logicop self other "+".
Definition __rsub__ (self : ref) (other : pyval) : M ref := logicop self other "-".
Definition __rmul__ (self : ref) (other : pyval) : M ref := logicop self other "*".

(** ** Invariants of the block *)

(** A reference to a wire of the block. *)
Definition valid (x : ref) (st : State) : Prop :=
  (x < length (wirevectors st))%nat.

(** Every resolved width is at least 1. *)
Definition widths_positive (st : State) : Prop :=
  forall (x : ref) o w,
    wirevectors st !! x = Some o -> bitwidth o = Some w -> 0 < w.

(** Every value carried by a constant fits in its width. *)
Definition consts_fit (st : State) : Prop :=
  forall (x : ref) o v,
    wirevectors st !! x = Some o -> val o = Some v ->
    exists w, bitwidth o = Some w /\ 0 <= v < 2 ^ w.

(** A register with a recorded next value has its clocked update in
    the block. *)
Definition staged_has_update (st : State) : Prop :=
  forall (r : ref) o (x : ref),
    wirevectors st !! r = Some o -> reg_in o = Some x ->
    valid x st /\ mkNet "r" None [x] [r] ∈ logic st.

(** The clocked updates of [r]: the nets of operation r that write it. *)
Definition clocked_updates (r : ref) (st : State) : list LogicNet :=
  filter (fun n => op n = "r" /\ r ∈ dests n) (logic st).

(** A register has one clocked update, from its recorded next value,
    or none when no next value is recorded. *)
Definition registers_updated_once (st : State) : Prop :=
  forall (r : ref) o,
    wirevectors st !! r = Some o -> is_register (cls o) = true ->
    clocked_updates r st =
      match reg_in o with
      | Some x => [mkNet "r" None [x] [r]]
      | None => []
      end.

(** What every block built by the module satisfies. *)
Definition Inv (st : State) : Prop :=
  widths_positive st /\ consts_fit st /\ wf_state st /\ staged_has_update st
  /\ registers_updated_once st.

(** [appends st st']: [st'] is [st] with further wires and further
    nets, nothing else changed. *)
Definition appends (st st' : State) : Prop :=
  exists ws new,
    wirevectors st' = wirevectors st ++ ws
    /\ logic st' = logic st ++ new
    /\ under_condition st' = under_condition st
    /\ register_set_calls st' = register_set_calls st.

(** [extends st st']: the nets of [st] are a prefix of those of [st'],
    and every wire of [st] is still there with its class, its constant
    value, its width if it was resolved and its recorded next value if
    it had one. *)
Definition extends (st st' : State) : Prop :=
  (exists new, logic st' = logic st ++ new)
  /\ forall (x : ref) o,
       wirevectors st !! x = Some o ->
       exists o',
         wirevectors st' !! x = Some o'
         /\ cls o' = cls o /\ val o' = val o
         /\ (forall w, bitwidth o = Some w -> bitwidth o' = Some w)
         /\ (forall y, reg_in o = Some y -> reg_in o' = Some y).

(** [safe P m R]: from a state that satisfies the invariants and [P],
    [m] only appends, keeps the invariants whether it returns or raises,
    and returns a result that satisfies [R]. *)
Definition safe {A} (P : State -> Prop) (m : M A) (R : A -> State -> Prop)
  : Prop :=
  forall st, Inv st -> P st ->
    Inv (snd (m st)) /\ appends st (snd (m st))
    /\ forall a, fst (m st) = Ok a -> R a (snd (m st)).

(** A state predicate that appending to the block cannot falsify. *)
Definition stable (P : State -> Prop) : Prop :=
  forall st st', appends st st' -> P st -> P st'.

(** A wire as the operators allocate them: class WireVector, resolved
    width, no value, nothing staged. *)
Definition plain (a : ref) (st : State) : Prop :=
  exists w, wirevectors st !! a = Some (mkWire WireVectorC (Some w) None None false).

(** [sound m]: from a state that satisfies the invariants, [m] keeps
    them and extends the state, whether it returns or raises. *)
Definition sound {A} (m : M A) : Prop :=
  forall st, Inv st -> Inv (snd (m st)) /\ extends st (snd (m st)).

(** ** Sequences of calls *)

(** The calls a description makes on this module: the constructors, the
    operators, indexing, the extensions, the two assignments, and the
    resolver entering or leaving a conditional scope. *)
Inductive Call : Type :=
  | NewWireVector (c : Class) (bw : option Z)
  | NewConst (c : Class) (v bw : pyval)
  | NewRegister (c : Class) (bw : option Z)
  | Logicop (self : ref) (other : pyval) (op : string)
  | Le (self : ref) (other : pyval)
  | Ge (self : ref) (other : pyval)
  | Ne (self : ref) (other : pyval)
  | Invert (self : ref)
  | Getitem (self : ref) (item : pyindex)
  | SignExtended (self : ref) (bw : Z)
  | ZeroExtended (self : ref) (bw : Z)
  | Extended (self : ref) (bw : Z)
  | Ilshift (self : ref) (other : pyval)
  | StageNext (r : ref) (other : pyval)
  | Bool (self : ref)
  | SetCondition (b : bool).

(** The state after a call, whatever it returned or raised. *)
Definition perform (c : Call) (st : State) : State :=
  match c with
  | NewWireVector c bw => snd (WireVector__init__ c bw st)
  | NewConst c v bw => snd (Const__init__ c v bw st)
  | NewRegister c bw => snd (Register__init__ c bw st)
  | Logicop self other op => snd (logicop self other op st)
  | Le self other => snd (__le__ self other st)
  | Ge self other => snd (__ge__ self other st)
  | Ne self other => snd (__ne__ self other st)
  | Invert self => snd (__invert__ self st)
  | Getitem self item => snd (__getitem__ self item st)
  | SignExtended self bw => snd (sign_extended self bw st)
  | ZeroExtended self bw => snd (zero_extended self bw st)
  | Extended self bw => snd (extended self bw st)
  | Ilshift self other => snd (__ilshift__ self other st)
  | StageNext r other => snd (stage_next r other st)
  | Bool self => snd (__bool__ self st)
  | SetCondition b => with_condition b st
  end.

(** The state a sequence of calls builds from the empty block. *)
Definition run (cs : list Call) : State :=
  foldl (fun st c => perform c st) empty_state cs.

(** ** Writing fresh wires only *)

(** [writes_from base m R]: run in a block that has at least [base]
    wires, [m] leaves the wires and the nets that were there as they
    were, adds wires and nets after them, writes with the nets it adds
    only wires of reference [base] and above, and returns a result that
    satisfies [R]; the first three hold when it raises as well. *)
Definition writes_from {A} (base : nat) (m : M A) (R : A -> Prop) : Prop :=
  forall st,
    (base <= length (wirevectors st))%nat ->
    (exists ws new,
       wirevectors (snd (m st)) = wirevectors st ++ ws
       /\ logic (snd (m st)) = logic st ++ new
       /\ Forall (fun n => Forall (fun d => (base <= d)%nat) (dests n)) new)
    /\ forall a, fst (m st) = Ok a -> R a.

(** ** Counting the quotes of a string *)

(** The number of occurrences of a character in a string. *)
Fixpoint count_char (c : ascii) (s : string) : nat :=
  match s with
  | EmptyString => 0%nat
  | String c' s' => ((if Ascii.eqb c' c then 1 else 0) + count_char c s')%nat
  end.

(** ** Running the primitives *)

Section Running.

Context {A B : Type}.

Lemma bind_ok (m : M A) (k : A -> M B) st a st1 :
  m st = (Ok a, st1) -> bind m k st = k a st1.
Proof. intros H. unfold bind. now rewrite H. Qed.

Lemma bind_raise (m : M A) (k : A -> M B) st e st1 :
  m st = (Raise e, st1) -> bind m k st = (Raise e, st1).
Proof. intros H. unfold bind. now rewrite H. Qed.

End Running.

Lemma get_obj_ok st r o :
  wirevectors st !! r = Some o -> get_obj r st = (Ok o, st).
Proof. intros H. unfold get_obj. now rewrite H. Qed.

Lemma lookup_alloc st o r o' :
  wirevectors st !! r = Some o' -> wirevectors (alloc o st) !! r = Some o'.
Proof. intros H. simpl. now apply lookup_app_l_Some. Qed.

Lemma lookup_alloc_new st o :
  wirevectors (alloc o st) !! length (wirevectors st) = Some o.
Proof. simpl. apply list_lookup_middle. reflexivity. Qed.

Lemma lookup_fresh st : wirevectors st !! length (wirevectors st) = None.
Proof. apply lookup_ge_None. lia. Qed.

Lemma add_net_run n st : add_net n st = (Ok tt, emit n st).
Proof. reflexivity. Qed.

Lemma init_ok c w st :
  0 < w ->
  WireVector__init__ c (Some w) st
  = (Ok (length (wirevectors st)), alloc (mkWire c (Some w) None None false) st).
Proof.
  intros Hw. unfold WireVector__init__.
  destruct (Z.leb_spec w 0); [lia | reflexivity].
Qed.

Lemma init_nonpositive c w st :
  w <= 0 ->
  WireVector__init__ c (Some w) st = (Raise (PyrtlErr BitwidthMustBePositive), st).
Proof.
  intros Hw. unfold WireVector__init__.
  destruct (Z.leb_spec w 0); [reflexivity | lia].
Qed.

Lemma len_ok st r o w :
  wirevectors st !! r = Some o -> bitwidth o = Some w ->
  __len__ r st = (Ok w, st).
Proof.
  intros H Hw. unfold __len__.
  rewrite (bind_ok _ _ _ _ _ (get_obj_ok _ _ _ H)), Hw. reflexivity.
Qed.

Lemma set_val_fresh st o v :
  set_val (length (wirevectors st)) v (alloc o st)
  = (Ok tt, alloc (mkWire (cls o) (bitwidth o) v (reg_in o) (_is_conditional o)) st).
Proof.
  unfold set_val.
  rewrite (bind_ok _ _ _ _ _ (get_obj_ok _ _ _ (lookup_alloc_new st o))).
  unfold set_obj, alloc. simpl. f_equal. f_equal.
  rewrite insert_app_r_alt by lia.
  now rewrite Nat.sub_diag.
Qed.

(** ** Const construction *)

Lemma shiftr_zero_iff num w :
  0 <= num -> 0 <= w -> (Z.shiftr num w = 0 <-> num < 2 ^ w).
Proof.
  intros Hn Hw. rewrite Z.shiftr_div_pow2 by assumption.
  assert (0 < 2 ^ w) by (apply Z.pow_pos_nonneg; lia).
  rewrite Z.div_small_iff by lia. lia.
Qed.

Lemma Const_parse_pure v bw st r st' :
  Const_parse v bw st = (r, st') -> st' = st.
Proof.
  unfold Const_parse.
  destruct v; try (intros [= _ <-]; reflexivity).
  - destruct bw; intros [= _ <-]; reflexivity.
  - destruct bw; try (intros [= _ <-]; reflexivity).
    destruct (Py.split s "'") as [|a [|b [|? ?]]];
      try (intros [= _ <-]; reflexivity).
    destruct (Py.int a), (Py.int_base0 ("0" +:+ b));
      intros [= _ <-]; reflexivity.
Qed.

(** The checks of [Const.__init__] once the arguments are parsed, in
    the order the code makes them. *)
Lemma Const_checks c v bw st num w :
  Const_parse v bw st = (Ok (num, PyInt w), st) ->
  Const__init__ c v bw st =
    if num <? 0 then (Raise (PyrtlErr ConstNegativeValue), st)
    else if w <? 0 then (Raise (PyrtlErr ConstNegativeBitwidth), st)
    else if negb (Z.shiftr num w =? 0) then (Raise (PyrtlErr ConstCannotFit), st)
    else if w <=? 0 then (Raise (PyrtlErr BitwidthMustBePositive), st)
    else (Ok (length (wirevectors st)),
          alloc (mkWire c (Some w) (Some num) None false) st).
Proof.
  intros Hp. unfold Const__init__.
  rewrite (bind_ok _ _ _ _ _ Hp). cbn [fst snd].
  destruct (num <? 0); [reflexivity |].
  destruct (w <? 0); [reflexivity |].
  destruct (negb (Z.shiftr num w =? 0)); [reflexivity |].
  destruct (Z.leb_spec w 0) as [Hw | Hw].
  - rewrite (bind_raise _ _ _ _ _ (init_nonpositive c w st Hw)). reflexivity.
  - rewrite (bind_ok _ _ _ _ _ (init_ok c w st Hw)).
    rewrite (bind_ok _ _ _ _ _ (set_val_fresh st _ (Some num))).
    reflexivity.
Qed.

Lemma Const_ok c v bw st num w :
  Const_parse v bw st = (Ok (num, PyInt w), st) ->
  0 <= num -> 0 < w -> num < 2 ^ w ->
  Const__init__ c v bw st =
    (Ok (length (wirevectors st)),
     alloc (mkWire c (Some w) (Some num) None false) st).
Proof.
  intros Hp Hn Hw Hfit. rewrite (Const_checks _ _ _ _ _ _ Hp).
  destruct (Z.ltb_spec num 0); [lia |].
  destruct (Z.ltb_spec w 0); [lia |].
  assert (Z.shiftr num w = 0) as -> by (apply shiftr_zero_iff; lia).
  simpl. destruct (Z.leb_spec w 0); [lia | reflexivity].
Qed.

Lemma length_append (s t : string) :
  String.length (s +:+ t) = (String.length s + String.length t)%nat.
Proof. induction s as [|c s IH]; simpl; [reflexivity | now rewrite IH]. Qed.

Lemma length_bin_digits p :
  Z.of_nat (String.length (Py.bin_digits p)) = Z.log2 (Zpos p) + 1.
Proof.
  induction p as [p IH | p IH |]; simpl Py.bin_digits;
    rewrite ?length_append; simpl String.length; [| | reflexivity].
  - rewrite Nat2Z.inj_add, IH. simpl Z.of_nat.
    destruct p; simpl; lia.
  - rewrite Nat2Z.inj_add, IH. simpl Z.of_nat.
    destruct p; simpl; lia.
Qed.

(** [len(bin(num)) - 2] is the bit length of a positive number and 1
    for zero. *)
Lemma len_bin num :
  0 <= num -> Py.len_str (Py.bin num) - 2 = Z.log2 num + 1.
Proof.
  intros Hn. destruct num as [|p|p]; [reflexivity | | lia].
  unfold Py.len_str, Py.bin. rewrite length_append, Nat2Z.inj_add.
  rewrite length_bin_digits. simpl. lia.
Qed.

(** C6.  A Const built from a non-negative integer without a width gets
    the minimal bit length of the value as its width, and width 1 for
    the value 0; the literal 3'b101 gives width 3 and value 5; the
    literal 2'b101 raises the cannot-fit error; and a Const that was
    constructed stores exactly the parsed value. *)
Theorem Const_construction (c : Class) (st : State) (num : Z) :
  0 <= num ->
  (exists w,
     Const__init__ c (PyInt num) PyNone st
     = (Ok (length (wirevectors st)),
        alloc (mkWire c (Some w) (Some num) None false) st)
     /\ num < 2 ^ w
     /\ (num = 0 -> w = 1)
     /\ (0 < num -> 2 ^ (w - 1) <= num))
  /\ Const__init__ c (PyStr "3'b101") PyNone st
     = (Ok (length (wirevectors st)),
        alloc (mkWire c (Some 3) (Some 5) None false) st)
  /\ Const__init__ c (PyStr "2'b101") PyNone st
     = (Raise (PyrtlErr ConstCannotFit), st)
  /\ (forall v bw r st',
        Const__init__ c v bw st = (Ok r, st') ->
        exists n w,
          Const_parse v bw st = (Ok (n, PyInt w), st)
          /\ (forall k, v = PyInt k -> n = k)
          /\ wirevectors st' !! r = Some (mkWire c (Some w) (Some n) None false)
          /\ 0 <= n < 2 ^ w).
Proof.
  intros Hnum. split; [| split; [| split]].
  - exists (Z.log2 num + 1).
    assert (Hlog : 0 <= Z.log2 num) by apply Z.log2_nonneg.
    assert (Hfit : num < 2 ^ (Z.log2 num + 1)).
    { destruct (Z.eq_dec num 0) as [-> | Hnz]; [reflexivity |].
      apply Z.log2_spec. lia. }
    split; [| split; [| split]].
    + apply Const_ok; try lia.
      unfold Const_parse. now rewrite len_bin.
    + exact Hfit.
    + intros ->. reflexivity.
    + intros Hpos. replace (Z.log2 num + 1 - 1) with (Z.log2 num) by lia.
      apply Z.log2_spec. exact Hpos.
  - apply Const_ok; [vm_compute; reflexivity | lia | lia | reflexivity].
  - rewrite (Const_checks c _ _ st 5 2); [reflexivity | vm_compute; reflexivity].
  - intros v bw r st' Hrun.
    destruct (Const_parse v bw st) as [[[n b] | e] st1] eqn:Hp.
    + pose proof (Const_parse_pure _ _ _ _ _ Hp) as ->.
      destruct b as [| w | | | |];
        try (unfold Const__init__ in Hrun;
             rewrite (bind_ok _ _ _ _ _ Hp) in Hrun; discriminate).
      exists n, w. rewrite (Const_checks c _ _ _ _ _ Hp) in Hrun.
      destruct (Z.ltb_spec n 0); [discriminate |].
      destruct (Z.ltb_spec w 0); [discriminate |].
      destruct (Z.eqb_spec (Z.shiftr n w) 0) as [Hs | Hs]; [| discriminate].
      simpl in Hrun. destruct (Z.leb_spec w 0); [discriminate |].
      injection Hrun as <- <-.
      apply shiftr_zero_iff in Hs; [| lia | lia].
      split; [reflexivity | split; [| split; [| lia]]].
      * intros k ->. unfold Const_parse in Hp.
        destruct bw; injection Hp as Hk _; congruence.
      * apply lookup_alloc_new.
    + unfold Const__init__ in Hrun.
      rewrite (bind_raise _ _ _ _ _ Hp) in Hrun. discriminate.
Qed.

Lemma Const_construction_witness :
  0 <= 5 /\
  exists w,
    Const__init__ ConstC (PyInt 5) PyNone empty_state
    = (Ok 0%nat, alloc (mkWire ConstC (Some w) (Some 5) None false) empty_state)
    /\ 5 < 2 ^ w /\ (5 = 0 -> w = 1) /\ (0 < 5 -> 2 ^ (w - 1) <= 5).
Proof.
  split; [lia |].
  exact (proj1 (Const_construction ConstC empty_state 5 ltac:(lia))).
Defined.

(** C7, as the code has it.  Once the arguments are parsed to a number
    and a bitwidth, the checks run in this order: the bitwidth is an
    integer; the value is non-negative; the bitwidth is non-negative;
    the value fits in the bitwidth; and last, in the base constructor,
    the bitwidth is at least 1.  The error raised is that of the first
    check that fails in this order, and nothing is allocated. *)
Theorem Const_check_order (c : Class) (v bw : pyval) (st : State)
    (num : Z) (b : pyval) :
  Const_parse v bw st = (Ok (num, b), st) ->
  ((forall w, b <> PyInt w) ->
     Const__init__ c v bw st = (Raise (PyrtlErr ConstBitwidthNotInt), st))
  /\ (forall w, b = PyInt w ->
        (num < 0 ->
           Const__init__ c v bw st = (Raise (PyrtlErr ConstNegativeValue), st))
        /\ (0 <= num -> w < 0 ->
              Const__init__ c v bw st
              = (Raise (PyrtlErr ConstNegativeBitwidth), st))
        /\ (0 <= num -> 0 <= w -> 2 ^ w <= num ->
              Const__init__ c v bw st = (Raise (PyrtlErr ConstCannotFit), st))
        /\ (0 <= num < 2 ^ w -> w = 0 ->
              Const__init__ c v bw st
              = (Raise (PyrtlErr BitwidthMustBePositive), st))
        /\ (0 <= num < 2 ^ w -> 0 < w ->
              Const__init__ c v bw st
              = (Ok (length (wirevectors st)),
                 alloc (mkWire c (Some w) (Some num) None false) st))).
Proof.
  intros Hp. split.
  - intros Hb. unfold Const__init__. rewrite (bind_ok _ _ _ _ _ Hp).
    cbn [fst snd]. destruct b; try reflexivity. now destruct (Hb n).
  - intros w ->. rewrite (Const_checks c _ _ _ _ _ Hp).
    split; [| split; [| split; [| split]]].
    + intros Hn. destruct (Z.ltb_spec num 0); [reflexivity | lia].
    + intros Hn Hw. destruct (Z.ltb_spec num 0); [lia |].
      destruct (Z.ltb_spec w 0); [reflexivity | lia].
    + intros Hn Hw Hbig. destruct (Z.ltb_spec num 0); [lia |].
      destruct (Z.ltb_spec w 0); [lia |].
      destruct (Z.eqb_spec (Z.shiftr num w) 0) as [Hs | Hs]; [| reflexivity].
      apply shiftr_zero_iff in Hs; lia.
    + intros [Hn Hfit] ->. destruct (Z.ltb_spec num 0); [lia |].
      assert (Z.shiftr num 0 = 0) as -> by (apply shiftr_zero_iff; lia).
      reflexivity.
    + intros [Hn Hfit] Hw. destruct (Z.ltb_spec num 0); [lia |].
      destruct (Z.ltb_spec w 0); [lia |].
      assert (Z.shiftr num w = 0) as -> by (apply shiftr_zero_iff; lia).
      simpl. destruct (Z.leb_spec w 0); [lia | reflexivity].
Qed.

Lemma Const_check_order_witness :
  Const_parse (PyInt 5) (PyInt 0) empty_state = (Ok (5, PyInt 0), empty_state)
  /\ Const__init__ ConstC (PyInt 5) (PyInt 0) empty_state
     = (Raise (PyrtlErr ConstCannotFit), empty_state).
Proof.
  split; [reflexivity |].
  refine (proj1 (proj2 (proj2 (proj2
    (Const_check_order ConstC (PyInt 5) (PyInt 0) empty_state 5 (PyInt 0)
       eq_refl) 0 eq_refl))) _ _ _); [lia | lia | vm_compute; discriminate].
Defined.

(** C7 as stated fails.  [Const(-1, bitwidth=-1)] violates the width
    check and the sign check: the order of the specification reports
    the width, the code reports the negative value.  [Const(5,
    bitwidth=0)] violates the width check and the fit check: the code
    reports that the value cannot fit. *)
Lemma Const_check_order_counterexample :
  fst (Const__init__ ConstC (PyInt (-1)) (PyInt (-1)) empty_state)
    = Raise (PyrtlErr ConstNegativeValue)
  /\ spec_first_violation (-1) (PyInt (-1)) = Some WidthPositiveInt
  /\ violated_check
       (fst (Const__init__ ConstC (PyInt (-1)) (PyInt (-1)) empty_state))
     <> spec_first_violation (-1) (PyInt (-1))
  /\ fst (Const__init__ ConstC (PyInt 5) (PyInt 0) empty_state)
    = Raise (PyrtlErr ConstCannotFit)
  /\ violated_check
       (fst (Const__init__ ConstC (PyInt 5) (PyInt 0) empty_state))
     <> spec_first_violation 5 (PyInt 0).
Proof.
  vm_compute. repeat split; discriminate.
Qed.

(** C10.  Taking the truth value of a wire vector of any class always
    raises the construction error and never yields a boolean; the
    state is left as it was. *)
Theorem bool_always_raises (self : ref) (st : State) :
  __bool__ self st = (Raise (PyrtlErr ConvertToBoolean), st)
  /\ forall (b : bool) (st' : State), __bool__ self st <> (Ok b, st').
Proof.
  split; [reflexivity | intros b st' H; discriminate H].
Qed.

(** ** Indexing the list of bit positions *)

Lemma range_length w : 0 <= w -> Z.of_nat (length (Py.range w)) = w.
Proof. intros. unfold Py.range. rewrite length_seqZ. lia. Qed.

Lemma range_lookup w i : 0 <= i < w -> Py.range w !! Z.to_nat i = Some i.
Proof.
  intros Hi. unfold Py.range. rewrite lookup_seqZ_lt by lia. f_equal. lia.
Qed.

Lemma getitem_int_range w i :
  0 <= w ->
  Py.list_getitem_int (Py.range w) i =
    if (i <? - w) || (w <=? i) then Raise IndexError else Ok (i mod w).
Proof.
  intros Hw. unfold Py.list_getitem_int. rewrite range_length by lia.
  destruct (Z.ltb_spec i 0) as [Hneg | Hpos].
  - destruct (Z.ltb_spec i (- w)), (Z.leb_spec w i),
      (Z.ltb_spec (i + w) 0), (Z.leb_spec w (i + w)); simpl;
      try lia; try reflexivity.
    rewrite range_lookup by lia. f_equal.
    apply Z.mod_unique_pos with (q := -1); lia.
  - destruct (Z.ltb_spec i (- w)), (Z.leb_spec w i), (Z.ltb_spec i 0);
      simpl; try lia; try reflexivity.
    rewrite range_lookup by lia. f_equal. symmetry. apply Z.mod_small. lia.
Qed.

Lemma omap_range_lookup w l :
  Forall (fun i => 0 <= i < w) l ->
  omap (fun i => Py.range w !! Z.to_nat i) l = l.
Proof.
  induction 1 as [| i l Hi _ IH]; [reflexivity |].
  cbn. rewrite range_lookup by assumption. f_equal. exact IH.
Qed.

Lemma slice_positions_bounds n start stop step a b s :
  0 <= n ->
  Py.slice_indices n start stop step = Ok (a, b, s) ->
  Forall (fun i => 0 <= i < n) (Py.slice_positions a b s).
Proof.
  intros Hn. unfold Py.slice_indices.
  destruct (Z.eqb_spec (default 1 step) 0) as [| Hs]; [discriminate |].
  set (st := default 1 step) in *.
  intros [= <- <- <-].
  unfold Py.slice_positions, Py.slice_length.
  apply Forall_fmap, Forall_seqZ. intros k Hk. simpl.
  destruct (Z.ltb_spec st 0) as [Hneg | Hpos].
  - match type of Hk with context [if ?c then _ else _] => destruct c eqn:Hlt end;
      [| lia].
    apply Z.ltb_lt in Hlt.
    match type of Hlt with ?lo < ?hi => set (B := lo) in *; set (A := hi) in * end.
    assert (HA : -1 <= A <= n - 1).
    { subst A. destruct start as [x|]; [| lia].
      destruct (Z.ltb_spec x 0); lia. }
    assert (HB : -1 <= B).
    { subst B. destruct stop as [x|]; [| lia].
      destruct (Z.ltb_spec x 0); lia. }
    assert (Hq : (- st) * ((A - B - 1) / (- st)) <= A - B - 1)
      by (apply Z.mul_div_le; lia).
    nia.
  - match type of Hk with context [if ?c then _ else _] => destruct c eqn:Hlt end;
      [| lia].
    apply Z.ltb_lt in Hlt.
    match type of Hlt with ?lo < ?hi => set (A := lo) in *; set (B := hi) in * end.
    assert (HA : 0 <= A).
    { subst A. destruct start as [x|]; [| lia].
      destruct (Z.ltb_spec x 0); lia. }
    assert (HB : B <= n).
    { subst B. destruct stop as [x|]; [| lia].
      destruct (Z.ltb_spec x 0); lia. }
    assert (Hq : st * ((B - A - 1) / st) <= B - A - 1)
      by (apply Z.mul_div_le; lia).
    nia.
Qed.

Lemma getitem_slice_range w start stop step a b s :
  0 <= w ->
  Py.slice_indices w start stop step = Ok (a, b, s) ->
  Py.list_getitem_slice (Py.range w) start stop step
  = Ok (Py.slice_positions a b s).
Proof.
  intros Hw Hi. unfold Py.list_getitem_slice.
  rewrite range_length, Hi by assumption.
  rewrite omap_range_lookup; [reflexivity |].
  eapply slice_positions_bounds; eassumption.
Qed.

(** Running [__getitem__] when the list indexing succeeds. *)
Lemma getitem_run st h o w item sel :
  wirevectors st !! h = Some o -> bitwidth o = Some w ->
  positions_selected w item = Ok sel ->
  __getitem__ h item st =
    if Z.of_nat (length sel) <=? 0
    then (Raise (PyrtlErr BitwidthMustBePositive), st)
    else (Ok (length (wirevectors st)),
          emit (mkNet "s" (Some sel) [h] [length (wirevectors st)])
            (alloc (mkWire WireVectorC (Some (Z.of_nat (length sel)))
                           None None false) st)).
Proof.
  intros Hh Hw Hsel. unfold __getitem__.
  rewrite (bind_ok _ _ _ _ _ (get_obj_ok _ _ _ Hh)), Hw.
  rewrite (bind_ok _ _ st w st eq_refl).
  assert (Hs : (match item with
                | IndexInt i =>
                    let* x := lift (Py.list_getitem_int (Py.range w) i) in
                    ret [x]
                | IndexSlice start stop step =>
                    lift (Py.list_getitem_slice (Py.range w) start stop step)
                end) st = (Ok sel, st)).
  { destruct item as [i | a b s]; simpl in Hsel.
    - destruct (Py.list_getitem_int (Py.range w) i); [| discriminate].
      injection Hsel as <-. reflexivity.
    - rewrite Hsel. reflexivity. }
  rewrite (bind_ok _ _ _ _ _ Hs).
  destruct (Z.leb_spec (Z.of_nat (length sel)) 0) as [Hle | Hgt].
  - rewrite (bind_raise _ _ _ _ _ (init_nonpositive _ _ st Hle)). reflexivity.
  - rewrite (bind_ok _ _ _ _ _ (init_ok _ _ st Hgt)). reflexivity.
Qed.

(** Running [__getitem__] when the list indexing raises. *)
Lemma getitem_raise st h o w item e :
  wirevectors st !! h = Some o -> bitwidth o = Some w ->
  positions_selected w item = Raise e ->
  __getitem__ h item st = (Raise e, st).
Proof.
  intros Hh Hw Hsel. unfold __getitem__.
  rewrite (bind_ok _ _ _ _ _ (get_obj_ok _ _ _ Hh)), Hw.
  rewrite (bind_ok _ _ st w st eq_refl).
  apply bind_raise.
  destruct item as [i | a b s]; simpl in Hsel.
  - destruct (Py.list_getitem_int (Py.range w) i); [discriminate |].
    injection Hsel as <-. reflexivity.
  - rewrite Hsel. reflexivity.
Qed.

(** The most significant bit, [self[-1]]. *)
Lemma getitem_msb st h o w :
  wirevectors st !! h = Some o -> bitwidth o = Some w -> 0 < w ->
  __getitem__ h (IndexInt (-1)) st =
    (Ok (length (wirevectors st)),
     emit (mkNet "s" (Some [w - 1]) [h] [length (wirevectors st)])
       (alloc (mkWire WireVectorC (Some 1) None None false) st)).
Proof.
  intros Hh Hw Hpos.
  rewrite (getitem_run st h o w _ [w - 1] Hh Hw); [reflexivity |].
  unfold positions_selected. rewrite getitem_int_range by lia.
  destruct (Z.ltb_spec (-1) (- w)), (Z.leb_spec w (-1)); simpl; try lia.
  do 2 f_equal. symmetry. apply Z.mod_unique_pos with (q := -1); lia.
Qed.

(** C5, as the code has it.  On a handle of width [w], an index
    expression that selects at least one position of the flat list
    [0, ..., w-1] selects exactly those positions (an integer between
    [-w] and [w-1] selects the single position [i mod w], so negative
    integers count from the most significant end; a slice selects the
    positions of its clamped arithmetic progression, all of them in
    range), one select net carrying that tuple is emitted with the
    handle as its only input, and the fresh result has as many bits as
    positions were selected.  An index expression that selects no
    position raises the bitwidth error and emits nothing.  On 8 bits,
    [h[-4:]] selects 4, 5, 6, 7 and [h[0:2]] selects 0, 1. *)
Theorem getitem_selects (st : State) (h : ref) (o : WireVectorObj) (w : Z)
    (item : pyindex) (sel : list Z) :
  wirevectors st !! h = Some o -> bitwidth o = Some w -> 0 < w ->
  positions_selected w item = Ok sel ->
  Forall (fun i => 0 <= i < w) sel
  /\ match item with
     | IndexInt i => - w <= i < w /\ sel = [i mod w]
     | IndexSlice start stop step =>
         exists a b s,
           Py.slice_indices w start stop step = Ok (a, b, s)
           /\ sel = Py.slice_positions a b s
     end
  /\ (sel <> [] ->
      __getitem__ h item st =
        (Ok (length (wirevectors st)),
         emit (mkNet "s" (Some sel) [h] [length (wirevectors st)])
           (alloc (mkWire WireVectorC (Some (Z.of_nat (length sel)))
                          None None false) st)))
  /\ (sel = [] ->
      __getitem__ h item st = (Raise (PyrtlErr BitwidthMustBePositive), st))
  /\ positions_selected 8 (IndexSlice (Some (-4)) None None) = Ok [4; 5; 6; 7]
  /\ positions_selected 8 (IndexSlice (Some 0) (Some 2) None) = Ok [0; 1].
Proof.
  intros Hh Hw Hpos Hsel.
  assert (Hshape :
    match item with
    | IndexInt i => - w <= i < w /\ sel = [i mod w]
    | IndexSlice start stop step =>
        exists a b s,
          Py.slice_indices w start stop step = Ok (a, b, s)
          /\ sel = Py.slice_positions a b s
    end).
  { destruct item as [i | start stop step]; simpl in Hsel.
    - rewrite getitem_int_range in Hsel by lia.
      destruct (Z.ltb_spec i (- w)), (Z.leb_spec w i); simpl in Hsel;
        try discriminate.
      injection Hsel as <-. split; [lia | reflexivity].
    - destruct (Py.slice_indices w start stop step) as [[[a b] s] | e] eqn:Hi.
      + exists a, b, s. split; [reflexivity |].
        rewrite (getitem_slice_range w _ _ _ a b s) in Hsel by (lia || exact Hi).
        now injection Hsel as <-.
      + unfold Py.list_getitem_slice in Hsel.
        rewrite range_length, Hi in Hsel by lia. discriminate. }
  split; [| split; [exact Hshape | split; [| split; [| split]]]].
  - destruct item as [i | start stop step].
    + destruct Hshape as [Hi ->]. constructor; [| constructor].
      apply Z.mod_pos_bound. lia.
    + destruct Hshape as (a & b & s & Hi & ->).
      eapply slice_positions_bounds; [| exact Hi]. lia.
  - intros Hne. rewrite (getitem_run st h o w item sel Hh Hw Hsel).
    destruct sel; [congruence |].
    destruct (Z.leb_spec (Z.of_nat (length (z :: sel))) 0) as [Hle | _];
      [simpl in Hle; lia | reflexivity].
  - intros ->. rewrite (getitem_run st h o w item [] Hh Hw Hsel). reflexivity.
  - vm_compute. reflexivity.
  - vm_compute. reflexivity.
Qed.

Lemma getitem_selects_witness :
  wirevectors (one_wire WireVectorC 8) !! 0%nat
    = Some (mkWire WireVectorC (Some 8) None None false)
  /\ positions_selected 8 (IndexSlice (Some (-4)) None None) = Ok [4; 5; 6; 7]
  /\ __getitem__ 0%nat (IndexSlice (Some (-4)) None None) (one_wire WireVectorC 8)
     = (Ok 1%nat,
        emit (mkNet "s" (Some [4; 5; 6; 7]) [0%nat] [1%nat])
          (alloc (mkWire WireVectorC (Some 4) None None false)
                 (one_wire WireVectorC 8))).
Proof.
  split; [reflexivity | split; [vm_compute; reflexivity |]].
  refine (proj1 (proj2 (proj2
    (getitem_selects (one_wire WireVectorC 8) 0%nat _ 8
       (IndexSlice (Some (-4)) None None) [4; 5; 6; 7]
       eq_refl eq_refl _ _))) _);
    [lia | vm_compute; reflexivity | discriminate].
Defined.

(** C5 as stated fails on an empty slice.  On an 8-bit handle the slice
    [h[2:2]] selects the empty list from the flat list of positions,
    yet no select net is emitted and no handle is returned: building the
    result of width 0 raises the bitwidth error. *)
Lemma getitem_empty_slice_counterexample :
  positions_selected 8 (IndexSlice (Some 2) (Some 2) None) = Ok []
  /\ __getitem__ 0%nat (IndexSlice (Some 2) (Some 2) None)
       (one_wire WireVectorC 8)
     = (Raise (PyrtlErr BitwidthMustBePositive), one_wire WireVectorC 8)
  /\ logic (snd (__getitem__ 0%nat (IndexSlice (Some 2) (Some 2) None)
                   (one_wire WireVectorC 8))) = [].
Proof.
  vm_compute. repeat split.
Qed.

(** ** Extension *)

Lemma concat2_run st x y ox oy wx wy :
  wirevectors st !! x = Some ox -> bitwidth ox = Some wx ->
  wirevectors st !! y = Some oy -> bitwidth oy = Some wy ->
  0 < wx + wy ->
  concat [x; y] st =
    (Ok (length (wirevectors st)),
     emit (mkNet "c" None [x; y] [length (wirevectors st)])
       (alloc (mkWire WireVectorC (Some (wx + wy)) None None false) st)).
Proof.
  intros Hx Hwx Hy Hwy Hpos. unfold concat. simpl foldr.
  rewrite (bind_ok _ _ st (wx + wy) st).
  - rewrite (bind_ok _ _ _ _ _ (init_ok _ _ st Hpos)). reflexivity.
  - rewrite (bind_ok _ _ _ _ _ (len_ok _ _ _ _ Hx Hwx)).
    rewrite (bind_ok _ _ st (wy + 0) st);
      [unfold ret; do 2 f_equal; lia |].
    rewrite (bind_ok _ _ _ _ _ (len_ok _ _ _ _ Hy Hwy)). reflexivity.
Qed.

Lemma extend_with_bit_same st h o w extbit :
  wirevectors st !! h = Some o -> bitwidth o = Some w ->
  _extend_with_bit h w extbit st = (Ok h, st).
Proof.
  intros Hh Hw. unfold _extend_with_bit.
  rewrite (bind_ok _ _ _ _ _ (get_obj_ok _ _ _ Hh)), Hw.
  rewrite (bind_ok _ _ st w st eq_refl).
  now rewrite Z.sub_diag.
Qed.

Lemma extend_with_bit_shrink st h o w t extbit :
  wirevectors st !! h = Some o -> bitwidth o = Some w -> t < w ->
  _extend_with_bit h t extbit st = (Raise (PyrtlErr CannotReduceBits), st).
Proof.
  intros Hh Hw Hlt. unfold _extend_with_bit.
  rewrite (bind_ok _ _ _ _ _ (get_obj_ok _ _ _ Hh)), Hw.
  rewrite (bind_ok _ _ st w st eq_refl).
  destruct (Z.eqb_spec (t - w) 0); [lia |].
  destruct (Z.ltb_spec (t - w) 0); [reflexivity | lia].
Qed.

(** The state after [_extend_with_bit] has widened [h] from [w] to [t]
    bits with [extbit], and the reference of the result. *)
Lemma extend_with_bit_grow st h o w t extbit :
  wirevectors st !! h = Some o -> bitwidth o = Some w -> 0 < w -> w < t ->
  _extend_with_bit h t extbit st =
    (Ok (S (length (wirevectors st))),
     emit (mkNet "c" None [length (wirevectors st); h]
                 [S (length (wirevectors st))])
       (alloc (mkWire WireVectorC (Some t) None None false)
          (emit (mkNet "s" (Some (replicate (Z.to_nat (t - w)) 0))
                       [extbit] [length (wirevectors st)])
             (alloc (mkWire WireVectorC (Some (t - w)) None None false) st)))).
Proof.
  intros Hh Hw Hpos Hlt. unfold _extend_with_bit.
  rewrite (bind_ok _ _ _ _ _ (get_obj_ok _ _ _ Hh)), Hw.
  rewrite (bind_ok _ _ st w st eq_refl).
  destruct (Z.eqb_spec (t - w) 0); [lia |].
  destruct (Z.ltb_spec (t - w) 0); [lia |].
  assert (Hn : 0 < t - w) by lia.
  rewrite (bind_ok _ _ _ _ _ (init_ok _ _ st Hn)).
  rewrite (bind_ok _ _ _ _ _ (add_net_run _ _)).
  erewrite concat2_run.
  - simpl. rewrite length_app. simpl. rewrite Nat.add_1_r.
    replace (t - w + w) with t by lia. reflexivity.
  - apply lookup_alloc_new.
  - reflexivity.
  - simpl. apply lookup_app_l_Some. exact Hh.
  - exact Hw.
  - lia.
Qed.

(** [Const(0, bitwidth=1)], the extension bit of the unsigned classes. *)
Lemma Const_zero_bit st :
  Const__init__ ConstC (PyInt 0) (PyInt 1) st =
    (Ok (length (wirevectors st)),
     alloc (mkWire ConstC (Some 1) (Some 0) None false) st).
Proof. apply Const_ok; [reflexivity | lia | lia | reflexivity]. Qed.

(** The default extension of an unsigned class is [zero_extended], and
    of a Signed class [sign_extended]. *)
Lemma extended_dispatch st h o t :
  wirevectors st !! h = Some o ->
  extended h t st =
    if is_signed (cls o) then sign_extended h t st else zero_extended h t st.
Proof.
  intros Hh. unfold extended.
  rewrite (bind_ok _ _ _ _ _ (get_obj_ok _ _ _ Hh)).
  now destruct (is_signed (cls o)).
Qed.

Lemma zero_extended_run st h t :
  zero_extended h t st =
    _extend_with_bit h t (length (wirevectors st))
      (alloc (mkWire ConstC (Some 1) (Some 0) None false) st).
Proof.
  unfold zero_extended. now rewrite (bind_ok _ _ _ _ _ (Const_zero_bit st)).
Qed.

Lemma sign_extended_run st h o w t :
  wirevectors st !! h = Some o -> bitwidth o = Some w -> 0 < w ->
  sign_extended h t st =
    _extend_with_bit h t (length (wirevectors st))
      (emit (mkNet "s" (Some [w - 1]) [h] [length (wirevectors st)])
         (alloc (mkWire WireVectorC (Some 1) None None false) st)).
Proof.
  intros Hh Hw Hpos. unfold sign_extended.
  now rewrite (bind_ok _ _ _ _ _ (getitem_msb st h o w Hh Hw Hpos)).
Qed.

(** C8, as the code has it.  Extending a handle to its own width returns
    the very same handle and leaves its object as it was.
    [_extend_with_bit] itself changes nothing, and the default rule of
    an unsigned class emits no net (it allocates the constant 0 bit it
    would have used); the default rule of a Signed class has by then
    evaluated [h[-1]], which emitted the select net of the most
    significant bit. *)
Theorem extended_same_width (st : State) (h : ref) (o : WireVectorObj)
    (w : Z) (extbit : ref) :
  wirevectors st !! h = Some o -> bitwidth o = Some w -> 0 < w ->
  _extend_with_bit h w extbit st = (Ok h, st)
  /\ exists st',
       extended h w st = (Ok h, st')
       /\ wirevectors st' !! h = Some o
       /\ (is_signed (cls o) = false -> logic st' = logic st)
       /\ (is_signed (cls o) = true ->
           logic st' = logic st
                       ++ [mkNet "s" (Some [w - 1]) [h] [length (wirevectors st)]]).
Proof.
  intros Hh Hw Hpos. split; [eapply extend_with_bit_same; eassumption |].
  rewrite (extended_dispatch st h o w Hh).
  destruct (is_signed (cls o)).
  - rewrite (sign_extended_run st h o w w Hh Hw Hpos).
    eexists. split.
    + eapply extend_with_bit_same; [| exact Hw].
      simpl. apply lookup_app_l_Some. exact Hh.
    + split; [simpl; apply lookup_app_l_Some; exact Hh |].
      split; [discriminate | reflexivity].
  - rewrite zero_extended_run.
    eexists. split.
    + eapply extend_with_bit_same; [| exact Hw].
      apply lookup_alloc. exact Hh.
    + split; [apply lookup_alloc; exact Hh |].
      split; [reflexivity | discriminate].
Qed.

Lemma extended_same_width_witness :
  wirevectors (one_wire InputC 4) !! 0%nat
    = Some (mkWire InputC (Some 4) None None false)
  /\ exists st',
       extended 0%nat 4 (one_wire InputC 4) = (Ok 0%nat, st')
       /\ wirevectors st' !! 0%nat = Some (mkWire InputC (Some 4) None None false)
       /\ (is_signed InputC = false -> logic st' = logic (one_wire InputC 4))
       /\ (is_signed InputC = true ->
           logic st' = logic (one_wire InputC 4)
                       ++ [mkNet "s" (Some [4 - 1]) [0%nat] [1%nat]]).
Proof.
  split; [reflexivity |].
  refine (proj2 (extended_same_width (one_wire InputC 4) 0%nat _ 4 0%nat
                   eq_refl eq_refl _)).
  lia.
Defined.

(** C8 as stated fails for the Signed classes.  A 4-bit
    SignedWireVector extended to 4 bits is returned as it is, but the
    block has one more net: the select of bit 3 that [sign_extended]
    built as the extension bit before the widths were compared. *)
Lemma extended_same_width_counterexample :
  extended 0%nat 4 (one_wire SignedWireVectorC 4)
  = (Ok 0%nat,
     emit (mkNet "s" (Some [3]) [0%nat] [1%nat])
       (alloc (mkWire WireVectorC (Some 1) None None false)
              (one_wire SignedWireVectorC 4)))
  /\ logic (snd (extended 0%nat 4 (one_wire SignedWireVectorC 4)))
     <> logic (one_wire SignedWireVectorC 4).
Proof.
  split; [vm_compute; reflexivity | vm_compute; discriminate].
Qed.

(** C9, as the code has it.  Extending a handle to fewer bits than it
    has always raises the shrink error.  [_extend_with_bit] itself and
    the default rule of an unsigned class emit no net; the default rule
    of a Signed class has by then emitted the select net of the most
    significant bit. *)
Theorem extended_shrink (st : State) (h : ref) (o : WireVectorObj)
    (w t : Z) (extbit : ref) :
  wirevectors st !! h = Some o -> bitwidth o = Some w -> 0 < w -> t < w ->
  _extend_with_bit h t extbit st = (Raise (PyrtlErr CannotReduceBits), st)
  /\ exists st',
       extended h t st = (Raise (PyrtlErr CannotReduceBits), st')
       /\ (is_signed (cls o) = false -> logic st' = logic st)
       /\ (is_signed (cls o) = true ->
           logic st' = logic st
                       ++ [mkNet "s" (Some [w - 1]) [h] [length (wirevectors st)]]).
Proof.
  intros Hh Hw Hpos Hlt.
  split; [eapply extend_with_bit_shrink; eassumption |].
  rewrite (extended_dispatch st h o t Hh).
  destruct (is_signed (cls o)).
  - rewrite (sign_extended_run st h o w t Hh Hw Hpos).
    eexists. split.
    + eapply extend_with_bit_shrink; [| exact Hw | exact Hlt].
      simpl. apply lookup_app_l_Some. exact Hh.
    + split; [discriminate | reflexivity].
  - rewrite zero_extended_run.
    eexists. split.
    + eapply extend_with_bit_shrink; [| exact Hw | exact Hlt].
      apply lookup_alloc. exact Hh.
    + split; [reflexivity | discriminate].
Qed.

Lemma extended_shrink_witness :
  wirevectors (one_wire WireVectorC 4) !! 0%nat
    = Some (mkWire WireVectorC (Some 4) None None false)
  /\ 3 < 4
  /\ exists st',
       extended 0%nat 3 (one_wire WireVectorC 4)
       = (Raise (PyrtlErr CannotReduceBits), st')
       /\ (is_signed WireVectorC = false ->
           logic st' = logic (one_wire WireVectorC 4))
       /\ (is_signed WireVectorC = true ->
           logic st' = logic (one_wire WireVectorC 4)
                       ++ [mkNet "s" (Some [4 - 1]) [0%nat] [1%nat]]).
Proof.
  split; [reflexivity | split; [lia |]].
  refine (proj2 (extended_shrink (one_wire WireVectorC 4) 0%nat _ 4 3 0%nat
                   eq_refl eq_refl _ _)); lia.
Defined.

(** C9 as stated fails for the Signed classes.  A 4-bit
    SignedWireVector extended to 3 bits raises the shrink error, but
    the select net of bit 3 has been emitted before the error. *)
Lemma extended_shrink_counterexample :
  extended 0%nat 3 (one_wire SignedWireVectorC 4)
  = (Raise (PyrtlErr CannotReduceBits),
     emit (mkNet "s" (Some [3]) [0%nat] [1%nat])
       (alloc (mkWire WireVectorC (Some 1) None None false)
              (one_wire SignedWireVectorC 4)))
  /\ logic (snd (extended 0%nat 3 (one_wire SignedWireVectorC 4)))
     <> logic (one_wire SignedWireVectorC 4).
Proof.
  split; [vm_compute; reflexivity | vm_compute; discriminate].
Qed.

(** The default extension of [h] from [w] to more bits [t]: first the
    extension bit (reference [n], the next free one), then the select
    net that replicates it (output [n+1]), then the concatenation
    (output [n+2]). *)
Lemma extended_grow_run st h o w t :
  wirevectors st !! h = Some o -> bitwidth o = Some w -> 0 < w -> w < t ->
  let n := length (wirevectors st) in
  let st1 :=
    if is_signed (cls o)
    then emit (mkNet "s" (Some [w - 1]) [h] [n])
           (alloc (mkWire WireVectorC (Some 1) None None false) st)
    else alloc (mkWire ConstC (Some 1) (Some 0) None false) st in
  extended h t st =
    (Ok (S (S n)),
     emit (mkNet "c" None [S n; h] [S (S n)])
       (alloc (mkWire WireVectorC (Some t) None None false)
          (emit (mkNet "s" (Some (replicate (Z.to_nat (t - w)) 0)) [n] [S n])
             (alloc (mkWire WireVectorC (Some (t - w)) None None false) st1)))).
Proof.
  intros Hh Hw Hpos Hlt n st1.
  rewrite (extended_dispatch st h o t Hh). subst st1.
  destruct (is_signed (cls o)).
  - rewrite (sign_extended_run st h o w t Hh Hw Hpos).
    erewrite extend_with_bit_grow; [| | exact Hw | exact Hpos | exact Hlt].
    + simpl. rewrite length_app. simpl. rewrite Nat.add_1_r. reflexivity.
    + simpl. apply lookup_app_l_Some. exact Hh.
  - rewrite zero_extended_run.
    erewrite extend_with_bit_grow; [| | exact Hw | exact Hpos | exact Hlt].
    + simpl. rewrite length_app. simpl. rewrite Nat.add_1_r. reflexivity.
    + apply lookup_alloc. exact Hh.
Qed.

Lemma lookup_lt_length st (h : ref) o :
  wirevectors st !! h = Some o -> (h < length (wirevectors st))%nat.
Proof. intros H. eapply lookup_lt_Some. exact H. Qed.

(** ** The value of an extended wire *)

Lemma find_app_split {A} (f : A -> bool) (l1 l2 : list A) :
  List.find f (l1 ++ l2) =
    match List.find f l1 with
    | Some x => Some x
    | None => List.find f l2
    end.
Proof.
  induction l1 as [| x l1 IH]; [reflexivity |].
  simpl. destruct (f x); [reflexivity | exact IH].
Qed.

Lemma find_all_false {A} (f : A -> bool) (l : list A) :
  Forall (fun x => f x = false) l -> List.find f l = None.
Proof.
  induction 1 as [| x l Hx _ IH]; [reflexivity |].
  simpl. now rewrite Hx.
Qed.

Lemma producer_old st st' (x : nat) :
  grows st st' -> (x < length (wirevectors st))%nat ->
  producer st' x = producer st x.
Proof.
  intros (ws & new & _ & Hlog & Hnew) Hx. unfold producer.
  rewrite Hlog, find_app_split.
  destruct (List.find _ (logic st)); [reflexivity |].
  apply find_all_false. eapply Forall_impl; [exact Hnew |].
  intros n Hn. apply bool_decide_eq_false_2. intros Hin.
  rewrite Forall_forall in Hn. specialize (Hn x Hin). lia.
Qed.

Lemma producer_new st st' new (x : nat) :
  wf_state st -> logic st' = logic st ++ new ->
  (length (wirevectors st) <= x)%nat ->
  producer st' x = List.find (fun n => bool_decide (x ∈ dests n)) new.
Proof.
  intros Hwf Hlog Hx. unfold producer. rewrite Hlog, find_app_split.
  rewrite find_all_false; [reflexivity |].
  eapply Forall_impl; [exact Hwf |].
  intros n Hn. apply bool_decide_eq_false_2. intros Hin.
  rewrite Forall_forall in Hn.
  assert (x ∈ args n ++ dests n) as Hin' by (apply elem_of_app; now right).
  specialize (Hn x Hin'). lia.
Qed.

Lemma producer_in st (x : nat) n :
  producer st x = Some n -> n ∈ logic st.
Proof.
  unfold producer. intros H. apply find_some in H as [H _].
  now apply list_elem_of_In.
Qed.

Lemma wire_value_S f st r :
  wire_value (S f) st r =
    (o ← wirevectors st !! r;
     match val o with
     | Some v => Some v
     | None =>
         n ← producer st r;
         if bool_decide (op n = "s") then
           match args n, op_param n with
           | [x], Some idxs =>
               v ← wire_value f st x; Some (select_bits v idxs)
           | _, _ => None
           end
         else if bool_decide (op n = "c") then
           parts ← mapM (fun x =>
                           v ← wire_value f st x;
                           o' ← wirevectors st !! x;
                           w ← bitwidth o';
                           Some (w, v)) (args n);
           Some (concat_bits parts)
         else if bool_decide (op n = "w") then
           match args n with
           | [x] => wire_value f st x
           | _ => None
           end
         else None
     end).
Proof. reflexivity. Qed.

Lemma wire_value_grows st st' :
  wf_state st -> grows st st' ->
  forall f (x : nat), (x < length (wirevectors st))%nat ->
    wire_value f st' x = wire_value f st x.
Proof.
  intros Hwf Hg. pose proof Hg as (ws & new & Hws & Hlog & Hnew).
  induction f as [| f IH]; [reflexivity |].
  intros x Hx. rewrite !wire_value_S.
  rewrite Hws, lookup_app_l by exact Hx.
  destruct (wirevectors st !! x) as [o |]; [simpl | reflexivity].
  destruct (val o); [reflexivity |].
  rewrite (producer_old st st' x Hg Hx).
  destruct (producer st x) as [n |] eqn:Hp; [simpl | reflexivity].
  assert (Hargs : Forall (fun y => (y < length (wirevectors st))%nat) (args n)).
  { apply producer_in in Hp. unfold wf_state in Hwf.
    rewrite Forall_forall in Hwf. specialize (Hwf n Hp).
    now apply Forall_app in Hwf as [Ha _]. }
  repeat case_bool_decide.
  - destruct (args n) as [| y [| ? ?]]; try reflexivity.
    destruct (op_param n); [| reflexivity].
    rewrite IH; [reflexivity |]. now inversion Hargs.
  - f_equal. apply Forall_mapM_ext.
    eapply Forall_impl; [exact Hargs |]. intros y Hy. simpl.
    rewrite IH by exact Hy. now rewrite lookup_app_l by exact Hy.
  - destruct (args n) as [| y [| ? ?]]; try reflexivity.
    apply IH. now inversion Hargs.
  - reflexivity.
Qed.

Lemma wire_value_more_fuel st f :
  forall (x : nat) v, wire_value f st x = Some v -> wire_value (S f) st x = Some v.
Proof.
  induction f as [| f IH]; [discriminate |].
  intros x v. rewrite (wire_value_S (S f)), (wire_value_S f).
  destruct (wirevectors st !! x) as [o |]; [simpl | discriminate].
  destruct (val o); [trivial |].
  destruct (producer st x) as [n |]; [simpl | discriminate].
  repeat case_bool_decide.
  - destruct (args n) as [| y [| ? ?]]; try discriminate.
    destruct (op_param n); [| discriminate].
    destruct (wire_value f st y) as [vy |] eqn:Hy; [| discriminate].
    now rewrite (IH y vy Hy).
  - destruct (mapM _ (args n)) as [parts |] eqn:Hm; [| discriminate].
    simpl. intros Hv.
    assert (mapM (fun y => v0 ← wire_value (S f) st y;
                           o' ← wirevectors st !! y;
                           w ← bitwidth o'; Some (w, v0)) (args n)
            = Some parts) as ->; [| exact Hv].
    apply mapM_Some. apply mapM_Some in Hm.
    eapply Forall2_impl; [exact Hm |]. intros y p. simpl.
    destruct (wire_value f st y) as [vy |] eqn:Hy; [| discriminate].
    now rewrite (IH y vy Hy).
  - destruct (args n) as [| y [| ? ?]]; try discriminate. apply IH.
  - discriminate.
Qed.

Lemma select_bits_single v i : select_bits v [i] = Z.b2z (Z.testbit v i).
Proof. unfold select_bits. cbn. lia. Qed.

Lemma select_bits_replicate b (k : nat) :
  select_bits b (replicate k 0) =
    if Z.testbit b 0 then 2 ^ Z.of_nat k - 1 else 0.
Proof.
  induction k as [| k IH]; [now destruct (Z.testbit b 0) |].
  change (select_bits b (replicate (S k) 0))
    with (Z.b2z (Z.testbit b 0) + 2 * select_bits b (replicate k 0)).
  rewrite IH, Nat2Z.inj_succ, Z.pow_succ_r by lia.
  destruct (Z.testbit b 0); simpl Z.b2z; lia.
Qed.

Lemma concat_bits_pair a e w v :
  0 <= w -> concat_bits [(a, e); (w, v)] = e * 2 ^ w + v.
Proof.
  intros Hw. unfold concat_bits. cbn.
  now rewrite Z.shiftl_0_l, Z.add_0_l, Z.shiftl_mul_pow2 by exact Hw.
Qed.

Lemma lookup_app_at {A} (l k : list A) (i j : nat) :
  i = (length l + j)%nat -> (l ++ k) !! i = k !! j.
Proof.
  intros ->. rewrite lookup_app_r by lia. f_equal. lia.
Qed.

Ltac decide_dests :=
  repeat first
    [ rewrite bool_decide_eq_true_2 by (apply list_elem_of_singleton; lia)
    | rewrite bool_decide_eq_false_2 by (rewrite list_elem_of_singleton; lia) ].

(** The value of a wire extended by the default rule of its class: the
    value itself for an unsigned class, and for a Signed class the
    value with its bit [w - 1] copied to the positions [w] to [t - 1]. *)
Lemma extended_value st h o w t f v :
  wf_state st ->
  wirevectors st !! h = Some o -> bitwidth o = Some w -> 0 < w -> w < t ->
  wire_value f st h = Some v ->
  exists r st',
    extended h t st = (Ok r, st')
    /\ wire_value (S (S (S f))) st' r
       = Some (if is_signed (cls o) && Z.testbit v (w - 1)
               then v + (2 ^ t - 2 ^ w) else v).
Proof.
  intros Hwf Hh Hw Hpos Hlt Hv.
  pose proof (extended_grow_run st h o w t Hh Hw Hpos Hlt) as Hrun.
  cbv zeta in Hrun.
  pose proof (lookup_lt_length st h o Hh) as Hlen.
  set (n := length (wirevectors st)) in *.
  eexists _, _. split; [exact Hrun |].
  match goal with |- wire_value _ ?s _ = _ => set (st' := s) end.
  set (bit := if is_signed (cls o) then Z.b2z (Z.testbit v (w - 1)) else 0).
  set (ebw := if is_signed (cls o)
              then mkWire WireVectorC (Some 1) None None false
              else mkWire ConstC (Some 1) (Some 0) None false).
  set (ext_net := mkNet "s" (Some (replicate (Z.to_nat (t - w)) 0)) [n] [S n]).
  set (cat_net := mkNet "c" None [S n; h] [S (S n)]).
  set (new := (if is_signed (cls o)
               then [mkNet "s" (Some [w - 1]) [h] [n]] else [])
              ++ [ext_net; cat_net]).
  assert (Hws : wirevectors st' =
                wirevectors st
                ++ [ebw; mkWire WireVectorC (Some (t - w)) None None false;
                    mkWire WireVectorC (Some t) None None false]).
  { subst st' ebw. destruct (is_signed (cls o)); simpl;
      rewrite <- !app_assoc; reflexivity. }
  assert (Hlog : logic st' = logic st ++ new).
  { subst st' new. destruct (is_signed (cls o)); simpl;
      rewrite <- !app_assoc; reflexivity. }
  assert (Hg : grows st st').
  { exists [ebw; mkWire WireVectorC (Some (t - w)) None None false;
            mkWire WireVectorC (Some t) None None false], new.
    split; [exact Hws | split; [exact Hlog |]].
    subst new ext_net cat_net. fold n.
    destruct (is_signed (cls o)); repeat constructor; simpl; lia. }
  clearbody st'.
  assert (Hold : forall g, wire_value g st' h = wire_value g st h)
    by (intros g; now apply wire_value_grows).
  assert (Hl0 : wirevectors st' !! n = Some ebw)
    by (rewrite Hws, (lookup_app_at _ _ _ 0) by (subst n; lia); reflexivity).
  assert (Hl1 : wirevectors st' !! S n
                = Some (mkWire WireVectorC (Some (t - w)) None None false)).
  { rewrite Hws, (lookup_app_at _ _ _ 1) by (subst n; lia). reflexivity. }
  assert (Hl2 : wirevectors st' !! S (S n)
                = Some (mkWire WireVectorC (Some t) None None false)).
  { rewrite Hws, (lookup_app_at _ _ _ 2) by (subst n; lia). reflexivity. }
  assert (Hbit : wire_value (S f) st' n = Some bit).
  { rewrite wire_value_S, Hl0. subst ebw bit. simpl.
    destruct (is_signed (cls o)) eqn:Hs; simpl; [| reflexivity].
    rewrite (producer_new st st' new n Hwf Hlog) by (subst n; lia).
    subst new. simpl. decide_dests. simpl.
    rewrite Hold, Hv. simpl. now rewrite select_bits_single. }
  assert (Hblock : wire_value (S (S f)) st' (S n)
                   = Some (select_bits bit (replicate (Z.to_nat (t - w)) 0))).
  { rewrite wire_value_S, Hl1. simpl.
    rewrite (producer_new st st' new (S n) Hwf Hlog) by (subst n; lia).
    subst new ext_net cat_net.
    destruct (is_signed (cls o)); simpl; decide_dests; simpl;
      now rewrite Hbit. }
  rewrite wire_value_S, Hl2. simpl.
  rewrite (producer_new st st' new (S (S n)) Hwf Hlog) by (subst n; lia).
  assert (Hfind : List.find (fun net => bool_decide (S (S n) ∈ dests net)) new
                  = Some cat_net).
  { subst new ext_net cat_net.
    destruct (is_signed (cls o)); simpl; decide_dests; reflexivity. }
  rewrite Hfind. subst cat_net. simpl.
  rewrite Hblock. simpl. rewrite Hl1. simpl.
  rewrite Hold, (wire_value_more_fuel st (S f) h v)
    by (now apply wire_value_more_fuel).
  simpl. rewrite Hws, (lookup_app_l_Some _ _ _ _ Hh). simpl. rewrite Hw. simpl.
  rewrite concat_bits_pair by lia. f_equal.
  rewrite select_bits_replicate, Z2Nat.id by lia.
  subst bit. destruct (is_signed (cls o)); [| reflexivity].
  destruct (Z.testbit v (w - 1)); cbn; [| lia].
  replace (2 ^ t) with (2 ^ (t - w) * 2 ^ w); [lia |].
  rewrite <- Z.pow_add_r by lia. f_equal. lia.
Qed.



(** ** Binary operations *)

(** What [logicop] needs from an extension: the result has the target
    width and the wires that were there are untouched. *)
Lemma extended_grow_frame st h o w t :
  wirevectors st !! h = Some o -> bitwidth o = Some w -> 0 < w -> w < t ->
  exists r st',
    extended h t st = (Ok r, st')
    /\ wirevectors st' !! r = Some (mkWire WireVectorC (Some t) None None false)
    /\ forall x ox, wirevectors st !! x = Some ox -> wirevectors st' !! x = Some ox.
Proof.
  intros Hh Hw Hpos Hlt.
  pose proof (extended_grow_run st h o w t Hh Hw Hpos Hlt) as Hrun.
  cbv zeta in Hrun.
  eexists _, _. split; [exact Hrun |]. split.
  - destruct (is_signed (cls o)); simpl;
      rewrite <- !app_assoc; simpl;
      rewrite lookup_app_r by lia;
      replace (S (S (length (wirevectors st))) - length (wirevectors st))%nat
        with 2%nat by lia;
      reflexivity.
  - intros x ox Hx.
    destruct (is_signed (cls o)); simpl;
      rewrite <- !app_assoc; apply lookup_app_l_Some; exact Hx.
Qed.

Lemma resultlen_of_cases op len :
  (op ∈ ["&"; "|"; "^"] -> resultlen_of op len = len)
  /\ (op ∈ ["+"; "-"] -> resultlen_of op len = len + 1)
  /\ (op = "*" -> resultlen_of op len = 2 * len)
  /\ (op ∈ ["<"; ">"; "="] -> resultlen_of op len = 1).
Proof.
  split; [| split; [| split]].
  - intros H. repeat (apply elem_of_cons in H as [-> | H]);
      try reflexivity. now apply elem_of_nil in H.
  - intros H. repeat (apply elem_of_cons in H as [-> | H]);
      try reflexivity. now apply elem_of_nil in H.
  - intros ->. unfold resultlen_of. simpl. lia.
  - intros H. repeat (apply elem_of_cons in H as [-> | H]);
      try reflexivity. now apply elem_of_nil in H.
Qed.

Lemma resultlen_of_pos op len : 0 < len -> 0 < resultlen_of op len.
Proof.
  intros H. unfold resultlen_of.
  repeat match goal with |- context [bool_decide ?P] => destruct (bool_decide P) end;
    lia.
Qed.

(** C1.  [logicop] on handles of widths [wa] and [wb] first extends the
    shorter one, by the default rule of its own class, to the width
    [w = max wa wb] (the other operand, or both when the widths agree,
    are used as they are); it then allocates a fresh result and emits
    one net with the two equalized operands as inputs and the result as
    output.  The result has width [w] for the bitwise operations,
    [w + 1] for addition and subtraction, [2 * w] for multiplication,
    and 1 for the three comparisons. *)
Theorem logicop_widths (st : State) (a b : ref) (oa ob : WireVectorObj)
    (wa wb : Z) (op : string) :
  wirevectors st !! a = Some oa -> wirevectors st !! b = Some ob ->
  bitwidth oa = Some wa -> bitwidth ob = Some wb -> 0 < wa -> 0 < wb ->
  let w := Z.max wa wb in
  exists a' b' st1,
    (if wa <? wb then extended a wb st = (Ok a', st1) /\ b' = b
     else if wb <? wa then extended b wa st = (Ok b', st1) /\ a' = a
     else st1 = st /\ a' = a /\ b' = b)
    /\ width_of st1 a' = Some w
    /\ width_of st1 b' = Some w
    /\ wirevectors st1 !! length (wirevectors st1) = None
    /\ logicop a (PyWire b) op st =
         (Ok (length (wirevectors st1)),
          emit (mkNet op None [a'; b'] [length (wirevectors st1)])
            (alloc (mkWire WireVectorC (Some (resultlen_of op w))
                           None None false) st1))
    /\ (op ∈ ["&"; "|"; "^"] -> resultlen_of op w = w)
    /\ (op ∈ ["+"; "-"] -> resultlen_of op w = w + 1)
    /\ (op = "*" -> resultlen_of op w = 2 * w)
    /\ (op ∈ ["<"; ">"; "="] -> resultlen_of op w = 1).
Proof.
  intros Ha Hb Hwa Hwb Hpa Hpb w.
  assert (Hfinish : forall a' b' st1 oa',
    wirevectors st1 !! a' = Some oa' -> bitwidth oa' = Some w ->
    (let* len := __len__ (fst (a', b')) in
     let* s := WireVector__init__ WireVectorC (Some (resultlen_of op len)) in
     add_net (mkNet op None [fst (a', b'); snd (a', b')] [s]) ;;; ret s) st1
    = (Ok (length (wirevectors st1)),
       emit (mkNet op None [a'; b'] [length (wirevectors st1)])
         (alloc (mkWire WireVectorC (Some (resultlen_of op w)) None None false)
                st1))).
  { intros a' b' st1 oa' Hl Hw'. cbn [fst snd].
    rewrite (bind_ok _ _ _ _ _ (len_ok _ _ _ _ Hl Hw')).
    assert (Hr : 0 < resultlen_of op w) by (apply resultlen_of_pos; lia).
    rewrite (bind_ok _ _ _ _ _ (init_ok _ _ st1 Hr)).
    rewrite (bind_ok _ _ _ _ _ (add_net_run _ _)). reflexivity. }
  unfold logicop.
  rewrite (bind_ok _ _ st b st eq_refl).
  rewrite (bind_ok _ _ _ _ _ (len_ok _ _ _ _ Ha Hwa)).
  rewrite (bind_ok _ _ _ _ _ (len_ok _ _ _ _ Hb Hwb)).
  destruct (Z.ltb_spec wa wb) as [Hlt | Hge].
  - destruct (extended_grow_frame st a oa wa wb Ha Hwa Hpa Hlt)
      as (r & st1 & Hrun & Hr & Hframe).
    exists r, b, st1.
    assert (Hw : w = wb) by (subst w; lia). rewrite Hw in *.
    split; [split; [exact Hrun | reflexivity] |].
    split; [unfold width_of; rewrite Hr; reflexivity |].
    split; [unfold width_of; rewrite (Hframe b ob Hb); exact Hwb |].
    split; [apply lookup_fresh |].
    split; [| apply resultlen_of_cases].
    rewrite (bind_ok _ _ st (r, b) st1)
      by (rewrite (bind_ok _ _ _ _ _ Hrun); reflexivity).
    eapply Hfinish; [exact Hr | reflexivity].
  - destruct (Z.ltb_spec wb wa) as [Hlt | Hge'].
    + destruct (extended_grow_frame st b ob wb wa Hb Hwb Hpb Hlt)
        as (r & st1 & Hrun & Hr & Hframe).
      exists a, r, st1.
      assert (Hw : w = wa) by (subst w; lia). rewrite Hw in *.
      split; [split; [exact Hrun | reflexivity] |].
      split; [unfold width_of; rewrite (Hframe a oa Ha); exact Hwa |].
      split; [unfold width_of; rewrite Hr; reflexivity |].
      split; [apply lookup_fresh |].
      split; [| apply resultlen_of_cases].
      rewrite (bind_ok _ _ st (a, r) st1)
        by (rewrite (bind_ok _ _ _ _ _ Hrun); reflexivity).
      eapply Hfinish; [exact (Hframe a oa Ha) | exact Hwa].
    + exists a, b, st.
      assert (Hw : w = wa) by (subst w; lia). rewrite Hw in *.
      split; [repeat split |].
      split; [unfold width_of; rewrite Ha; exact Hwa |].
      split; [unfold width_of; rewrite Hb; simpl; rewrite Hwb; f_equal; lia |].
      split; [apply lookup_fresh |].
      split; [| apply resultlen_of_cases].
      rewrite (bind_ok _ _ st (a, b) st eq_refl).
      eapply Hfinish; [exact Ha | exact Hwa].
Qed.

Lemma logicop_widths_witness :
  wirevectors wide_and_narrow !! 0%nat
    = Some (mkWire WireVectorC (Some 4) None None false)
  /\ wirevectors wide_and_narrow !! 1%nat
     = Some (mkWire SignedWireVectorC (Some 2) None None false)
  /\ exists a' b' st1,
       (extended 1%nat 4 wide_and_narrow = (Ok b', st1) /\ a' = 0%nat)
       /\ width_of st1 a' = Some 4
       /\ width_of st1 b' = Some 4
       /\ logicop 0%nat (PyWire 1%nat) "*" wide_and_narrow =
            (Ok (length (wirevectors st1)),
             emit (mkNet "*" None [a'; b'] [length (wirevectors st1)])
               (alloc (mkWire WireVectorC (Some (resultlen_of "*" 4))
                              None None false) st1))
       /\ resultlen_of "*" 4 = 2 * 4.
Proof.
  split; [reflexivity | split; [reflexivity |]].
  destruct (logicop_widths wide_and_narrow 0%nat 1%nat _ _ 4 2 "*"
              eq_refl eq_refl eq_refl eq_refl ltac:(lia) ltac:(lia))
    as (a' & b' & st1 & Heq & Hwa & Hwb & _ & Hrun & _ & _ & Hmul & _).
  exists a', b', st1.
  split; [exact Heq | split; [exact Hwa | split; [exact Hwb |]]].
  split; [exact Hrun | exact (Hmul eq_refl)].
Defined.

(** ** Register staging *)

Lemma set_reg_in_run st r o x :
  wirevectors st !! r = Some o ->
  set_reg_in r x st =
    (Ok tt,
     mkState (<[r := mkWire (cls o) (bitwidth o) (val o) x (_is_conditional o)]>
                (wirevectors st))
             (logic st) (under_condition st) (register_set_calls st)).
Proof.
  intros Hr. unfold set_reg_in.
  rewrite (bind_ok _ _ _ _ _ (get_obj_ok _ _ _ Hr)). reflexivity.
Qed.

(** The setter on a register that has no staged value yet. *)
Lemma next_setter_fresh st r o rhs :
  wirevectors st !! r = Some o -> reg_in o = None ->
  next_setter r (PyNextSetter rhs) st =
    if under_condition st
    then (Ok tt,
          mkState (wirevectors st) (logic st) (under_condition st)
                  (register_set_calls st ++ [(r, rhs)]))
    else (Ok tt,
          mkState (<[r := mkWire (cls o) (bitwidth o) (val o) (Some rhs)
                                 (_is_conditional o)]> (wirevectors st))
                  (logic st ++ [mkNet "r" None [rhs] [r]])
                  (under_condition st) (register_set_calls st)).
Proof.
  intros Hr Hin. unfold next_setter.
  rewrite (bind_ok _ _ _ _ _ (get_obj_ok _ _ _ Hr)), Hin.
  rewrite (bind_ok _ _ st (under_condition st) st
             (eq_refl : currently_under_condition st = _)).
  destruct (under_condition st) eqn:Hc; cbn [negb].
  - unfold _register_set. now rewrite Hc.
  - rewrite (bind_ok _ _ _ _ _ (set_reg_in_run st r o (Some rhs) Hr)).
    unfold add_net, emit. cbn. now rewrite Hc.
Qed.

(** The setter on a register that already has a staged value. *)
Lemma next_setter_staged st r o x rhs :
  wirevectors st !! r = Some o -> reg_in o = Some x ->
  next_setter r (PyNextSetter rhs) st = (Raise (PyrtlErr NextSetTwice), st).
Proof.
  intros Hr Hin. unfold next_setter.
  rewrite (bind_ok _ _ _ _ _ (get_obj_ok _ _ _ Hr)), Hin. reflexivity.
Qed.

(** [r.next <<= other] is the coercion followed by the setter. *)
Lemma stage_next_run st r other :
  stage_next r other st =
    (let* staged := _next_ilshift r other in next_setter r staged) st.
Proof. reflexivity. Qed.

(** The coercion yields a setter object or raises. *)
Lemma next_ilshift_result st r other v st1 :
  _next_ilshift r other st = (Ok v, st1) -> exists rhs, v = PyNextSetter rhs.
Proof.
  unfold _next_ilshift, bind.
  destruct (get_obj r st) as [[o | e] st0]; [| discriminate].
  destruct (as_wires other (bitwidth o) st0) as [[rhs | e] st2]; [| discriminate].
  destruct (match bitwidth o with
            | Some _ => ret ()
            | None => fun st3 =>
                match get_obj rhs st3 with
                | (Ok a, st') => set_bitwidth r (bitwidth a) st'
                | (Raise e, st') => (Raise e, st')
                end
            end st2) as [[[] | e] st3]; [| discriminate].
  intros [= <- _]. now exists rhs.
Qed.

(** *** Quiet computations *)

Lemma keeps_refl st : keeps st st.
Proof.
  split; [exists []; split; [now rewrite app_nil_r | constructor] |].
  split; [reflexivity | split; [reflexivity |]].
  intros x o Hx. now exists o.
Qed.

Lemma keeps_trans st1 st2 st3 : keeps st1 st2 -> keeps st2 st3 -> keeps st1 st3.
Proof.
  intros ((n1 & Hl1 & Hf1) & Hc1 & Hr1 & Ho1) ((n2 & Hl2 & Hf2) & Hc2 & Hr2 & Ho2).
  split; [| split; [congruence | split; [congruence |]]].
  - exists (n1 ++ n2). split.
    + now rewrite Hl2, Hl1, app_assoc.
    + now apply Forall_app.
  - intros x o Hx.
    destruct (Ho1 x o Hx) as (o1 & Hx1 & Hcls1 & Hin1).
    destruct (Ho2 x o1 Hx1) as (o2 & Hx2 & Hcls2 & Hin2).
    exists o2. split; [exact Hx2 | split; congruence].
Qed.

Lemma quiet_ret {A} (a : A) : quiet (ret a).
Proof. intros st. apply keeps_refl. Qed.

Lemma quiet_raise {A} e : quiet (@raise A e).
Proof. intros st. apply keeps_refl. Qed.

Lemma quiet_bind {A B} (m : M A) (k : A -> M B) :
  quiet m -> (forall a, quiet (k a)) -> quiet (bind m k).
Proof.
  intros Hm Hk st. unfold bind.
  specialize (Hm st). destruct (m st) as [[a | e] st1]; simpl in Hm.
  - eapply keeps_trans; [exact Hm | apply Hk].
  - exact Hm.
Qed.

Lemma quiet_lift {A} (r : Result A) : quiet (lift r).
Proof. destruct r; [apply quiet_ret | apply quiet_raise]. Qed.

Lemma quiet_option_to_M {A} e (o : option A) : quiet (option_to_M e o).
Proof. destruct o; [apply quiet_ret | apply quiet_raise]. Qed.

Lemma quiet_get_obj r : quiet (get_obj r).
Proof.
  intros st. unfold get_obj.
  destruct (wirevectors st !! r); apply keeps_refl.
Qed.

Lemma quiet_add_wirevector o : quiet (add_wirevector o).
Proof.
  intros st. split; [exists []; split; [simpl; now rewrite app_nil_r | constructor] |].
  split; [reflexivity | split; [reflexivity |]].
  intros x ox Hx. exists ox. split; [now apply lookup_alloc | split; reflexivity].
Qed.

Lemma quiet_add_net n : op n <> "r" -> quiet (add_net n).
Proof.
  intros Hn st. split; [exists [n]; split; [reflexivity | now repeat constructor] |].
  split; [reflexivity | split; [reflexivity |]].
  intros x ox Hx. now exists ox.
Qed.

(** Overwriting an object by one of the same class and staged value. *)
Lemma keeps_set_obj st r o old :
  wirevectors st !! r = Some old -> cls o = cls old -> reg_in o = reg_in old ->
  keeps st (snd (set_obj r o st)).
Proof.
  intros Hr Hcls Hin.
  split; [exists []; split; [simpl; now rewrite app_nil_r | constructor] |].
  split; [reflexivity | split; [reflexivity |]].
  intros x ox Hx. simpl. destruct (decide (r = x)) as [<- | Hne].
  - exists o. rewrite list_lookup_insert_eq by (eapply lookup_lt_Some; exact Hr).
    split; [reflexivity | split; congruence].
  - exists ox. rewrite list_lookup_insert_ne by exact Hne. now split.
Qed.

Lemma quiet_set_val r v : quiet (set_val r v).
Proof.
  intros st. unfold set_val, bind, get_obj.
  destruct (wirevectors st !! r) as [old |] eqn:Hr; [| apply keeps_refl].
  now apply (keeps_set_obj st r _ old).
Qed.

Lemma quiet_set_bitwidth r w : quiet (set_bitwidth r w).
Proof.
  intros st. unfold set_bitwidth, bind, get_obj.
  destruct (wirevectors st !! r) as [old |] eqn:Hr; [| apply keeps_refl].
  now apply (keeps_set_obj st r _ old).
Qed.

Lemma quiet_init c bw : quiet (WireVector__init__ c bw).
Proof.
  unfold WireVector__init__. destruct bw as [w |];
    [destruct (w <=? 0); [apply quiet_raise |] |]; apply quiet_add_wirevector.
Qed.

Lemma quiet_Const_parse v bw : quiet (Const_parse v bw).
Proof.
  intros st. destruct (Const_parse v bw st) as [r st'] eqn:Hp.
  rewrite (Const_parse_pure _ _ _ _ _ Hp). apply keeps_refl.
Qed.

Lemma quiet_Const c v bw : quiet (Const__init__ c v bw).
Proof.
  unfold Const__init__. apply quiet_bind; [apply quiet_Const_parse |].
  intros [num b]. cbn [fst snd]. destruct b; try apply quiet_raise.
  destruct (num <? 0); [apply quiet_raise |].
  destruct (n <? 0); [apply quiet_raise |].
  destruct (negb (Z.shiftr num n =? 0)); [apply quiet_raise |].
  apply quiet_bind; [apply quiet_init |]. intros self.
  apply quiet_bind; [apply quiet_set_val | intros _; apply quiet_ret].
Qed.

Lemma quiet_len r : quiet (__len__ r).
Proof.
  unfold __len__. apply quiet_bind; [apply quiet_get_obj |].
  intros o. apply quiet_option_to_M.
Qed.

Lemma quiet_concat ws : quiet (concat ws).
Proof.
  unfold concat. apply quiet_bind.
  - induction ws as [| w ws IH]; [apply quiet_ret |].
    simpl. apply quiet_bind; [apply quiet_len |]. intros n.
    apply quiet_bind; [exact IH | intros m; apply quiet_ret].
  - intros total. apply quiet_bind; [apply quiet_init |]. intros outwire.
    apply quiet_bind; [apply quiet_add_net; discriminate |].
    intros _. apply quiet_ret.
Qed.

Lemma quiet_getitem self item : quiet (__getitem__ self item).
Proof.
  unfold __getitem__. apply quiet_bind; [apply quiet_get_obj |]. intros o.
  apply quiet_bind; [apply quiet_option_to_M |]. intros w.
  apply quiet_bind.
  - destruct item; [| apply quiet_lift].
    apply quiet_bind; [apply quiet_lift | intros x; apply quiet_ret].
  - intros sel. apply quiet_bind; [apply quiet_init |]. intros outwire.
    apply quiet_bind; [apply quiet_add_net; discriminate |].
    intros _. apply quiet_ret.
Qed.

Lemma quiet_extend_with_bit self bw extbit :
  quiet (_extend_with_bit self bw extbit).
Proof.
  unfold _extend_with_bit. apply quiet_bind; [apply quiet_get_obj |]. intros o.
  apply quiet_bind; [apply quiet_option_to_M |]. intros w.
  destruct (bw - w =? 0); [apply quiet_ret |].
  destruct (bw - w <? 0); [apply quiet_raise |].
  apply quiet_bind; [apply quiet_init |]. intros extvector.
  apply quiet_bind; [apply quiet_add_net; discriminate |].
  intros _. apply quiet_concat.
Qed.

Lemma quiet_extended self bw : quiet (extended self bw).
Proof.
  unfold extended. apply quiet_bind; [apply quiet_get_obj |]. intros o.
  destruct (is_signed (cls o)).
  - unfold sign_extended. apply quiet_bind; [apply quiet_getitem |].
    intros extbit. apply quiet_extend_with_bit.
  - unfold zero_extended. apply quiet_bind; [apply quiet_Const |].
    intros extbit. apply quiet_extend_with_bit.
Qed.

Lemma quiet_as_wires v target : quiet (as_wires v target).
Proof.
  unfold as_wires. destruct v; try apply quiet_raise.
  - apply quiet_Const.
  - destruct target as [t |]; [| apply quiet_ret].
    apply quiet_bind; [apply quiet_len |]. intros n.
    destruct (t <? n); [apply quiet_raise |].
    destruct (n <? t); [apply quiet_extended | apply quiet_ret].
Qed.

(** The coercion of [r.next <<= other] emits no clocked update, does
    not call the resolver and stages nothing. *)
Lemma quiet_next_ilshift self other : quiet (_next_ilshift self other).
Proof.
  unfold _next_ilshift. apply quiet_bind; [apply quiet_get_obj |]. intros o.
  apply quiet_bind; [apply quiet_as_wires |]. intros other'.
  apply quiet_bind; [| intros _; apply quiet_ret].
  destruct (bitwidth o); [apply quiet_ret |].
  apply quiet_bind; [apply quiet_get_obj |]. intros o'.
  apply quiet_set_bitwidth.
Qed.

Lemma filter_none {A} (P : A -> Prop) `{forall x, Decision (P x)} (l : list A) :
  Forall (fun x => ~ P x) l -> filter P l = [].
Proof.
  induction 1 as [| x l Hx _ IH]; [reflexivity |].
  rewrite filter_cons_False by exact Hx. exact IH.
Qed.

(** After a successful coercion the register is as it was, as far as
    the setter can tell. *)
Lemma coerced_register_kept st r o other v st1 :
  wirevectors st !! r = Some o ->
  _next_ilshift r other st = (Ok v, st1) ->
  keeps st st1
  /\ exists o1, wirevectors st1 !! r = Some o1
                /\ cls o1 = cls o /\ reg_in o1 = reg_in o.
Proof.
  intros Hr Hco.
  pose proof (quiet_next_ilshift r other st) as Hk. rewrite Hco in Hk.
  simpl in Hk. split; [exact Hk |].
  destruct Hk as (_ & _ & _ & Hobj). exact (Hobj r o Hr).
Qed.

(** C2.  Staging [r.next <<= other] on a register with no staged value,
    the coercion having produced the staged handle [rhs]: outside a
    conditional scope the setter emits exactly one net, the clocked
    update with [rhs] as its only input and the register as its only
    output (it is the only clocked update emitted by the whole
    statement), records [rhs] in the register, and does not call the
    resolver; inside a conditional scope the setter emits nothing, the
    statement emits no clocked update, and the resolver's registration
    entry point is called exactly once, with the register and [rhs]. *)
Theorem stage_next_commits (st : State) (r : ref) (o : WireVectorObj)
    (other : pyval) (rhs : ref) (st1 : State) :
  wirevectors st !! r = Some o -> is_register (cls o) = true ->
  reg_in o = None ->
  _next_ilshift r other st = (Ok (PyNextSetter rhs), st1) ->
  exists st',
    stage_next r other st = (Ok tt, st')
    /\ (under_condition st = false ->
        logic st' = logic st1 ++ [mkNet "r" None [rhs] [r]]
        /\ filter (fun n => op n = "r") (emitted st st')
           = [mkNet "r" None [rhs] [r]]
        /\ register_set_calls st' = register_set_calls st
        /\ exists o', wirevectors st' !! r = Some o' /\ reg_in o' = Some rhs)
    /\ (under_condition st = true ->
        logic st' = logic st1
        /\ filter (fun n => op n = "r") (emitted st st') = []
        /\ register_set_calls st' = register_set_calls st ++ [(r, rhs)]).
Proof.
  intros Hr Hreg Hin Hco.
  destruct (coerced_register_kept st r o other _ st1 Hr Hco)
    as (((new & Hlog & Hnew) & Hcond & Hcalls & _) & o1 & Hr1 & _ & Hin1).
  rewrite Hin in Hin1.
  rewrite stage_next_run, (bind_ok _ _ _ _ _ Hco).
  rewrite (next_setter_fresh st1 r o1 rhs Hr1 Hin1), Hcond.
  destruct (under_condition st) eqn:Hc.
  - eexists. split; [reflexivity |]. split; [discriminate |].
    intros _. simpl. split; [reflexivity |].
    split; [| now rewrite Hcalls].
    unfold emitted. simpl. rewrite Hlog, drop_app_length.
    now apply filter_none.
  - eexists. split; [reflexivity |]. split; [| discriminate].
    intros _. simpl. split; [reflexivity |].
    split; [| split; [exact Hcalls |]].
    + unfold emitted. simpl.
      rewrite Hlog, <- app_assoc, drop_app_length, filter_app.
      rewrite (filter_none _ new Hnew). reflexivity.
    + eexists. split;
        [apply list_lookup_insert_eq; eapply lookup_lt_Some; exact Hr1
        | reflexivity].
Qed.

Lemma stage_next_commits_witness :
  wirevectors reg_and_wire !! 0%nat
    = Some (mkWire RegisterC (Some 4) None None false)
  /\ _next_ilshift 0%nat (PyWire 1%nat) reg_and_wire
     = (Ok (PyNextSetter 1%nat), reg_and_wire)
  /\ exists st',
       stage_next 0%nat (PyWire 1%nat) reg_and_wire = (Ok tt, st')
       /\ (under_condition reg_and_wire = false ->
           logic st' = logic reg_and_wire ++ [mkNet "r" None [1%nat] [0%nat]]
           /\ filter (fun n => op n = "r") (emitted reg_and_wire st')
              = [mkNet "r" None [1%nat] [0%nat]]
           /\ register_set_calls st' = register_set_calls reg_and_wire
           /\ exists o', wirevectors st' !! 0%nat = Some o'
                         /\ reg_in o' = Some 1%nat).
Proof.
  split; [reflexivity | split; [reflexivity |]].
  destruct (stage_next_commits reg_and_wire 0%nat _ (PyWire 1%nat) 1%nat
              reg_and_wire eq_refl eq_refl eq_refl eq_refl)
    as (st' & Hrun & Hout & _).
  exists st'. split; [exact Hrun | exact Hout].
Defined.




(** * Invariants of the blocks the module builds, and further methods *)

(** ** The invariants are kept *)

Lemma lookup_alloc_inv st o (x : nat) o' :
  wirevectors (alloc o st) !! x = Some o' ->
  wirevectors st !! x = Some o' \/ (x = length (wirevectors st) /\ o' = o).
Proof.
  simpl. intros H. apply lookup_app_Some in H as [H | [Hle H]]; [now left |].
  right. destruct (x - length (wirevectors st))%nat as [| k] eqn:Hk;
    simpl in H; [| discriminate].
  injection H as <-. split; [lia | reflexivity].
Qed.

(** A wire that no net writes has no clocked update. *)
Lemma clocked_updates_none st (r : nat) :
  Forall (fun n => r ∉ dests n) (logic st) -> clocked_updates r st = [].
Proof.
  intros H. apply filter_none. eapply Forall_impl; [exact H |].
  intros n Hn [_ Hr]. exact (Hn Hr).
Qed.

Lemma clocked_updates_emit st n (r : nat) :
  (op n = "r" -> r ∉ dests n) ->
  clocked_updates r (emit n st) = clocked_updates r st.
Proof.
  intros Hn. unfold clocked_updates. simpl. rewrite filter_app.
  rewrite filter_cons_False by (intros [Ho Hr]; exact (Hn Ho Hr)).
  apply app_nil_r.
Qed.

Lemma Inv_alloc st o :
  Inv st ->
  (forall w, bitwidth o = Some w -> 0 < w) ->
  (forall v, val o = Some v -> exists w, bitwidth o = Some w /\ 0 <= v < 2 ^ w) ->
  reg_in o = None ->
  Inv (alloc o st).
Proof.
  intros (Hw & Hc & Hf & Hs & Hu) Ho1 Ho2 Ho3.
  split; [| split; [| split; [| split]]].
  - intros x o' w Hx Hb. apply lookup_alloc_inv in Hx as [Hx | [_ ->]];
      [exact (Hw x o' w Hx Hb) | exact (Ho1 w Hb)].
  - intros x o' v Hx Hv. apply lookup_alloc_inv in Hx as [Hx | [_ ->]];
      [exact (Hc x o' v Hx Hv) | exact (Ho2 v Hv)].
  - unfold wf_state in *. simpl. eapply Forall_impl; [exact Hf |].
    intros n Hn. eapply Forall_impl; [exact Hn |].
    intros y Hy. simpl in Hy. rewrite length_app. simpl. lia.
  - intros r o' x Hr Hin.
    apply lookup_alloc_inv in Hr as [Hr | [_ ->]]; [| congruence].
    destruct (Hs r o' x Hr Hin) as [Hv Hn]. split; [| exact Hn].
    unfold valid in *. simpl. rewrite length_app. lia.
  - intros r o' Hr Hreg.
    apply lookup_alloc_inv in Hr as [Hr | [-> ->]].
    + exact (Hu r o' Hr Hreg).
    + rewrite Ho3. apply clocked_updates_none. simpl.
      eapply Forall_impl; [exact Hf |]. intros n Hn Hd.
      rewrite Forall_forall in Hn.
      specialize (Hn (length (wirevectors st))).
      assert (length (wirevectors st) < length (wirevectors st))%nat; [| lia].
      apply Hn, elem_of_app. now right.
Qed.

(** A net can be added when it mentions wires of the block only and,
    if it is a clocked update, writes no register. *)
Lemma Inv_emit st n :
  Inv st -> Forall (fun x => valid x st) (args n ++ dests n) ->
  (op n = "r" ->
   forall (d : nat) o, d ∈ dests n -> wirevectors st !! d = Some o ->
                       is_register (cls o) = false) ->
  Inv (emit n st).
Proof.
  intros (Hw & Hc & Hf & Hs & Hu) Hn Hr.
  split; [exact Hw | split; [exact Hc | split; [| split]]].
  - unfold wf_state. simpl. apply Forall_app. split; [exact Hf |].
    constructor; [exact Hn | constructor].
  - intros r o x Hro Hin. destruct (Hs r o x Hro Hin) as [Hv Hnet].
    split; [exact Hv |]. simpl. apply elem_of_app. now left.
  - intros r o Hro Hreg. simpl in Hro.
    rewrite clocked_updates_emit; [exact (Hu r o Hro Hreg) |].
    intros Hop Hd. specialize (Hr Hop r o Hd Hro). congruence.
Qed.

Lemma appends_refl st : appends st st.
Proof. exists [], []. now rewrite !app_nil_r. Qed.

Lemma appends_trans st1 st2 st3 :
  appends st1 st2 -> appends st2 st3 -> appends st1 st3.
Proof.
  intros (w1 & n1 & Hw1 & Hl1 & Hc1 & Hr1) (w2 & n2 & Hw2 & Hl2 & Hc2 & Hr2).
  exists (w1 ++ w2), (n1 ++ n2).
  rewrite Hw2, Hw1, Hl2, Hl1, !app_assoc. repeat split; congruence.
Qed.

Lemma appends_alloc st o : appends st (alloc o st).
Proof. exists [o], []. simpl. now rewrite app_nil_r. Qed.

Lemma appends_emit st n : appends st (emit n st).
Proof. exists [], [n]. simpl. now rewrite app_nil_r. Qed.

Lemma appends_lookup st st' (x : nat) o :
  appends st st' -> wirevectors st !! x = Some o -> wirevectors st' !! x = Some o.
Proof. intros (ws & new & -> & _) H. now apply lookup_app_l_Some. Qed.

Lemma appends_valid st st' x : appends st st' -> valid x st -> valid x st'.
Proof.
  intros (ws & new & Hw & _). unfold valid. rewrite Hw, length_app. lia.
Qed.

Lemma appends_extends st st' : appends st st' -> extends st st'.
Proof.
  intros Ha. pose proof Ha as (ws & new & Hw & Hl & _). split; [now exists new |].
  intros x o Hx. exists o. split; [eapply appends_lookup; eassumption |].
  repeat split; trivial.
Qed.

Lemma extends_refl st : extends st st.
Proof. apply appends_extends, appends_refl. Qed.

Lemma extends_trans st1 st2 st3 :
  extends st1 st2 -> extends st2 st3 -> extends st1 st3.
Proof.
  intros [[n1 Hl1] Ho1] [[n2 Hl2] Ho2]. split.
  - exists (n1 ++ n2). now rewrite Hl2, Hl1, app_assoc.
  - intros x o Hx.
    destruct (Ho1 x o Hx) as (o1 & Hx1 & Hc1 & Hv1 & Hb1 & Hr1).
    destruct (Ho2 x o1 Hx1) as (o2 & Hx2 & Hc2 & Hv2 & Hb2 & Hr2).
    exists o2. split; [exact Hx2 |].
    split; [congruence | split; [congruence | split]].
    + intros w Hb. apply Hb2, Hb1, Hb.
    + intros y Hy. apply Hr2, Hr1, Hy.
Qed.

Lemma lookup_valid st (x : nat) o : wirevectors st !! x = Some o -> valid x st.
Proof. intros H. eapply lookup_lt_Some. exact H. Qed.

(** *** Rules for [safe] *)

Lemma safe_ret {A} (P : State -> Prop) (a : A) (R : A -> State -> Prop) :
  (forall st, P st -> R a st) -> safe P (ret a) R.
Proof.
  intros H st HI HP. split; [exact HI | split; [apply appends_refl |]].
  simpl. intros a' [= <-]. now apply H.
Qed.

Lemma safe_raise {A} (P : State -> Prop) e (R : A -> State -> Prop) :
  safe P (raise e) R.
Proof.
  intros st HI HP. split; [exact HI | split; [apply appends_refl |]].
  simpl. discriminate.
Qed.

Lemma safe_bind {A B} (P : State -> Prop) (m : M A) (R : A -> State -> Prop)
    (k : A -> M B) (S : B -> State -> Prop) :
  stable P -> safe P m R ->
  (forall a, safe (fun st => P st /\ R a st) (k a) S) ->
  safe P (bind m k) S.
Proof.
  intros HPs Hm Hk st HI HP. destruct (Hm st HI HP) as (HI1 & Ha1 & HR).
  unfold bind. destruct (m st) as [[a | e] st1]; simpl in *.
  - destruct (Hk a st1 HI1 (conj (HPs _ _ Ha1 HP) (HR a eq_refl)))
      as (HI2 & Ha2 & HS).
    split; [exact HI2 | split; [eapply appends_trans; eassumption | exact HS]].
  - split; [exact HI1 | split; [exact Ha1 | discriminate]].
Qed.

Lemma safe_conseq {A} (P P' : State -> Prop) (m : M A)
    (R R' : A -> State -> Prop) :
  (forall st, P' st -> P st) -> (forall a st, R a st -> R' a st) ->
  safe P m R -> safe P' m R'.
Proof.
  intros HP HR Hm st HI HP'. destruct (Hm st HI (HP st HP')) as (H1 & H2 & H3).
  split; [exact H1 | split; [exact H2 |]]. intros a Ha. apply HR, H3, Ha.
Qed.

Lemma stable_true : stable (fun _ => True).
Proof. intros st st' _ _. exact I. Qed.

Lemma stable_and P Q : stable P -> stable Q -> stable (fun st => P st /\ Q st).
Proof. intros HP HQ st st' Ha [H1 H2]. split; [eapply HP | eapply HQ]; eassumption. Qed.

Lemma stable_valid x : stable (valid x).
Proof. intros st st' Ha. now apply appends_valid. Qed.

Lemma stable_lookup (x : nat) o : stable (fun st => wirevectors st !! x = Some o).
Proof. intros st st' Ha. now apply appends_lookup. Qed.

Lemma stable_plain a : stable (plain a).
Proof. intros st st' Ha [w Hw]. exists w. eapply appends_lookup; eassumption. Qed.

Lemma stable_const P : stable (fun _ => P).
Proof. intros st st' _ H. exact H. Qed.

Lemma stable_or P Q : stable P -> stable Q -> stable (fun st => P st \/ Q st).
Proof. intros HP HQ st st' Ha [H | H]; [left; eapply HP | right; eapply HQ]; eassumption. Qed.

Lemma stable_ex {T} (P : T -> State -> Prop) :
  (forall t, stable (P t)) -> stable (fun st => exists t, P t st).
Proof. intros H st st' Ha [t Ht]. exists t. eapply H; eassumption. Qed.

Create HintDb stable.
#[local] Hint Resolve stable_true stable_valid stable_lookup stable_plain
  stable_const : stable.
#[local] Hint Extern 2 (stable (fun st => _ /\ _)) => apply stable_and : stable.
#[local] Hint Extern 2 (stable (fun st => _ \/ _)) => apply stable_or : stable.
#[local] Hint Extern 2 (stable (fun st => exists t, _)) =>
  apply stable_ex; intros : stable.

(** *** The primitives and the constructors *)

Lemma safe_get_obj r :
  safe (fun _ => True) (get_obj r) (fun o st => wirevectors st !! r = Some o).
Proof.
  intros st HI _. unfold get_obj.
  destruct (wirevectors st !! r) as [o |] eqn:Hr; simpl;
    (split; [exact HI | split; [apply appends_refl |]]).
  - now intros a [= <-].
  - discriminate.
Qed.

Lemma plain_not_register (d : nat) o st :
  plain d st -> wirevectors st !! d = Some o -> is_register (cls o) = false.
Proof. intros [w Hw] Hd. rewrite Hw in Hd. now injection Hd as <-. Qed.

(** The nets the operators emit write plain wires. *)
Lemma safe_add_net n :
  safe (fun st => Forall (fun x => valid x st) (args n ++ dests n)
                  /\ Forall (fun d => plain d st) (dests n))
       (add_net n) (fun _ _ => True).
Proof.
  intros st HI [Hn Hp]. simpl.
  split; [| split; [apply appends_emit | trivial]].
  apply Inv_emit; [exact HI | exact Hn |].
  intros _ d o Hd Ho. rewrite Forall_forall in Hp.
  exact (plain_not_register d o st (Hp d Hd) Ho).
Qed.

Lemma safe_init c bw :
  safe (fun _ => True) (WireVector__init__ c bw)
       (fun a st => wirevectors st !! a = Some (mkWire c bw None None false)).
Proof.
  intros st HI _.
  assert (Hok : (forall w, bw = Some w -> 0 < w) ->
                Inv (alloc (mkWire c bw None None false) st)).
  { intros Hw. apply Inv_alloc; simpl; [exact HI | exact Hw | discriminate | reflexivity]. }
  unfold WireVector__init__. destruct bw as [w |].
  - destruct (Z.leb_spec w 0) as [Hle | Hgt]; simpl.
    + split; [exact HI | split; [apply appends_refl | discriminate]].
    + split; [apply Hok; now intros ? [= <-] | split; [apply appends_alloc |]].
      intros a [= <-]. apply lookup_alloc_new.
  - simpl. split; [apply Hok; discriminate | split; [apply appends_alloc |]].
    intros a [= <-]. apply lookup_alloc_new.
Qed.

Lemma safe_Const c v bw :
  safe (fun _ => True) (Const__init__ c v bw)
       (fun a st => exists w n,
          wirevectors st !! a = Some (mkWire c (Some w) (Some n) None false)).
Proof.
  intros st HI _.
  destruct (Const_parse v bw st) as [[[num b] | e] st1] eqn:Hp;
    pose proof (Const_parse_pure _ _ _ _ _ Hp) as ->.
  - destruct b as [| w | | | |];
      try (unfold Const__init__; rewrite (bind_ok _ _ _ _ _ Hp); simpl;
           split; [exact HI | split; [apply appends_refl | discriminate]]).
    rewrite (Const_checks c _ _ _ _ _ Hp).
    destruct (Z.ltb_spec num 0);
      [simpl; split; [exact HI | split; [apply appends_refl | discriminate]] |].
    destruct (Z.ltb_spec w 0);
      [simpl; split; [exact HI | split; [apply appends_refl | discriminate]] |].
    destruct (Z.eqb_spec (Z.shiftr num w) 0) as [Hs | Hs]; simpl;
      [| split; [exact HI | split; [apply appends_refl | discriminate]]].
    destruct (Z.leb_spec w 0); simpl;
      [split; [exact HI | split; [apply appends_refl | discriminate]] |].
    apply shiftr_zero_iff in Hs; [| lia | lia].
    split; [| split; [apply appends_alloc |]].
    + apply Inv_alloc; simpl; [exact HI | | | reflexivity].
      * intros ? [= <-]. lia.
      * intros ? [= <-]. exists w. split; [reflexivity | lia].
    + intros a [= <-]. exists w, num. apply lookup_alloc_new.
  - unfold Const__init__. rewrite (bind_raise _ _ _ _ _ Hp). simpl.
    split; [exact HI | split; [apply appends_refl | discriminate]].
Qed.

Lemma safe_len r :
  safe (fun _ => True) (__len__ r)
       (fun w st => 0 < w /\ exists o, wirevectors st !! r = Some o
                                       /\ bitwidth o = Some w).
Proof.
  intros st HI _. unfold __len__, bind, get_obj.
  destruct (wirevectors st !! r) as [o |] eqn:Hr; simpl;
    [| split; [exact HI | split; [apply appends_refl | discriminate]]].
  destruct (bitwidth o) as [w |] eqn:Hw; simpl;
    (split; [exact HI | split; [apply appends_refl |]]); [| discriminate].
  intros a [= <-]. split; [| now exists o].
  destruct HI as (Hpos & _). exact (Hpos r o w Hr Hw).
Qed.

Lemma safe_lift {A} (r : Result A) :
  safe (fun _ => True) (lift r) (fun _ _ => True).
Proof. destruct r; [now apply safe_ret | apply safe_raise]. Qed.

Lemma safe_option_to_M {A} e (o : option A) :
  safe (fun _ => True) (option_to_M e o) (fun a _ => o = Some a).
Proof. destruct o; [now apply safe_ret | apply safe_raise]. Qed.

(** *** The methods that only append *)

Ltac stab := solve [auto 20 with stable].

Lemma stable_Forall_valid ws : stable (fun st => Forall (fun x => valid x st) ws).
Proof.
  intros st st' Ha H. eapply Forall_impl; [exact H |].
  intros x. now apply appends_valid.
Qed.
#[local] Hint Resolve stable_Forall_valid : stable.

(** The common case of sequencing: the first computation needs no
    precondition of its own. *)
Lemma safe_bind' {A B} (P : State -> Prop) (m : M A) (R : A -> State -> Prop)
    (k : A -> M B) (S : B -> State -> Prop) :
  stable P -> safe (fun _ => True) m R ->
  (forall a, safe (fun st => P st /\ R a st) (k a) S) ->
  safe P (bind m k) S.
Proof.
  intros HP Hm Hk. apply safe_bind with (R := R); [exact HP | | exact Hk].
  apply (safe_conseq (fun _ => True) P m R R); [auto | auto | exact Hm].
Qed.

Lemma safe_concat ws :
  safe (fun _ => True) (concat ws) plain.
Proof.
  unfold concat.
  apply safe_bind' with
    (R := fun (_ : Z) st => Forall (fun x => valid x st) ws).
  - stab.
  - induction ws as [| w ws IH]; [apply safe_ret; constructor |].
    simpl. eapply safe_bind'; [stab | apply safe_len |]. intros n.
    eapply safe_bind'; [stab | exact IH |]. intros m.
    apply safe_ret. intros st [[_ (_ & o & Ho & _)] Hws].
    constructor; [eapply lookup_valid; exact Ho | exact Hws].
  - intros total. eapply safe_bind'; [stab | apply safe_init |].
    intros outwire. apply safe_bind with (R := fun _ _ => True).
    + stab.
    + eapply safe_conseq; [| | apply safe_add_net]; [| auto].
      simpl. intros st [[_ Hws] Ho]. split.
      * apply Forall_app. split; [exact Hws |].
        constructor; [eapply lookup_valid; exact Ho | constructor].
      * constructor; [now exists total | constructor].
    + intros _. apply safe_ret. intros st [[[_ Hws] Ho] _]. now exists total.
Qed.

Lemma safe_emit_then {B} (P : State -> Prop) n (k : M B) (S : B -> State -> Prop) :
  stable P ->
  (forall st, P st -> Forall (fun x => valid x st) (args n ++ dests n)) ->
  (forall st, P st -> Forall (fun d => plain d st) (dests n)) ->
  safe P k S ->
  safe P (add_net n ;;; k) S.
Proof.
  intros HP Hn Hd Hk. apply safe_bind with (R := fun _ _ => True).
  - exact HP.
  - apply (safe_conseq (fun st => Forall (fun x => valid x st) (args n ++ dests n)
                                  /\ Forall (fun d => plain d st) (dests n))
                        P _ (fun _ _ => True) (fun _ _ => True));
      [intros st HPst; split; [now apply Hn | now apply Hd]
      | auto | apply safe_add_net].
  - intros _. eapply safe_conseq; [| | exact Hk]; [now intros st [H _] | auto].
Qed.

Lemma plain_valid a st : plain a st -> valid a st.
Proof. intros [w Hw]. eapply lookup_valid. exact Hw. Qed.

Lemma safe_getitem self item :
  safe (fun _ => True) (__getitem__ self item) plain.
Proof.
  unfold __getitem__.
  eapply safe_bind'; [stab | apply safe_get_obj |]. intros o.
  eapply safe_bind'; [stab | apply safe_option_to_M |]. intros w.
  apply safe_bind' with (R := fun _ _ => True); [stab | |].
  - destruct item; [| apply safe_lift].
    eapply safe_bind'; [stab | apply safe_lift |]. intros x. now apply safe_ret.
  - intros sel. eapply safe_bind'; [stab | apply safe_init |]. intros outwire.
    apply safe_emit_then; [stab | | |].
    + simpl. intros st [[[[_ Ho] _] _] Hout].
      repeat constructor; eapply lookup_valid; eassumption.
    + simpl. intros st [_ Hout].
      constructor; [eexists; exact Hout | constructor].
    + apply safe_ret. intros st (_ & Hout). eexists. exact Hout.
Qed.

(** The result of an extension: the wire itself or a fresh plain one. *)
Lemma safe_extend_with_bit self bw extbit :
  safe (valid extbit) (_extend_with_bit self bw extbit)
       (fun a st => (a = self /\ valid self st) \/ plain a st).
Proof.
  unfold _extend_with_bit.
  eapply safe_bind'; [stab | apply safe_get_obj |]. intros o.
  eapply safe_bind'; [stab | apply safe_option_to_M |]. intros w.
  destruct (bw - w =? 0).
  { apply safe_ret. intros st [[_ Ho] _]. left.
    split; [reflexivity | eapply lookup_valid; exact Ho]. }
  destruct (bw - w <? 0); [apply safe_raise |].
  eapply safe_bind'; [stab | apply safe_init |]. intros extvector.
  apply safe_emit_then; [stab | | |].
  - simpl. intros st [[[Hext _] _] Hv].
    repeat constructor; [exact Hext | eapply lookup_valid; exact Hv].
  - simpl. intros st [_ Hv]. constructor; [eexists; exact Hv | constructor].
  - eapply safe_conseq; [| | apply safe_concat]; [intros; exact I |].
    intros a st Ha. now right.
Qed.

Lemma safe_sign_extended self bw :
  safe (fun _ => True) (sign_extended self bw)
       (fun a st => (a = self /\ valid self st) \/ plain a st).
Proof.
  unfold sign_extended.
  eapply safe_bind'; [stab | apply safe_getitem |]. intros extbit.
  eapply safe_conseq; [| | apply safe_extend_with_bit];
    [| intros a st H; exact H].
  intros st [_ H]. now apply plain_valid.
Qed.

Lemma safe_zero_extended self bw :
  safe (fun _ => True) (zero_extended self bw)
       (fun a st => (a = self /\ valid self st) \/ plain a st).
Proof.
  unfold zero_extended.
  eapply safe_bind'; [stab | apply safe_Const |]. intros extbit.
  eapply safe_conseq; [| | apply safe_extend_with_bit];
    [| intros a st H; exact H].
  intros st [_ (w & n & H)]. eapply lookup_valid. exact H.
Qed.

Lemma safe_extended self bw :
  safe (fun _ => True) (extended self bw)
       (fun a st => (a = self /\ valid self st) \/ plain a st).
Proof.
  unfold extended.
  eapply safe_bind'; [stab | apply safe_get_obj |]. intros o.
  destruct (is_signed (cls o)).
  - eapply safe_conseq; [| | apply safe_sign_extended];
      [intros; exact I | intros a st H; exact H].
  - eapply safe_conseq; [| | apply safe_zero_extended];
      [intros; exact I | intros a st H; exact H].
Qed.

Lemma extension_valid self a st :
  (a = self /\ valid self st) \/ plain a st -> valid a st.
Proof. intros [[-> H] | H]; [exact H | now apply plain_valid]. Qed.

Lemma safe_as_wires v target :
  safe (fun _ => True) (as_wires v target)
       (fun a st => (v = PyWire a /\ target = None) \/ valid a st).
Proof.
  unfold as_wires. destruct v; try apply safe_raise.
  - eapply safe_conseq; [| | apply safe_Const]; [intros; exact I |].
    intros a st (w & k & H). right. eapply lookup_valid. exact H.
  - destruct target as [t |]; [| apply safe_ret; auto].
    eapply safe_bind'; [stab | apply safe_len |]. intros n.
    destruct (t <? n); [apply safe_raise |].
    destruct (n <? t).
    + eapply safe_conseq; [| | apply safe_extended]; [intros; exact I |].
      intros a st H. right. now apply extension_valid in H.
    + apply safe_ret. intros st [_ (_ & o & Ho & _)]. right.
      eapply lookup_valid. exact Ho.
Qed.

Lemma safe_logicop self other op :
  safe (fun _ => True) (logicop self other op) plain.
Proof.
  unfold logicop.
  eapply safe_bind'; [stab | apply safe_as_wires |]. intros b.
  eapply safe_bind'; [stab | apply safe_len |]. intros la.
  eapply safe_bind'; [stab | apply safe_len |]. intros lb.
  apply safe_bind with
    (R := fun ab st => valid (fst ab) st /\ valid (snd ab) st).
  - stab.
  - destruct (la <? lb); [| destruct (lb <? la)].
    + eapply safe_bind'; [stab | apply safe_extended |]. intros a'.
      apply safe_ret. simpl.
      intros st [[_ (_ & ob & Hb & _)] Ha'].
      split; [now apply extension_valid in Ha' | eapply lookup_valid; exact Hb].
    + eapply safe_bind'; [stab | apply safe_extended |]. intros b'.
      apply safe_ret. simpl.
      intros st [[[_ (_ & oa & Ha & _)] _] Hb'].
      split; [eapply lookup_valid; exact Ha | now apply extension_valid in Hb'].
    + apply safe_ret. simpl.
      intros st [[_ (_ & oa & Ha & _)] (_ & ob & Hb & _)].
      split; eapply lookup_valid; eassumption.
  - intros ab. eapply safe_bind'; [stab | apply safe_len |]. intros len.
    eapply safe_bind'; [stab | apply safe_init |]. intros s.
    apply safe_emit_then; [stab | | |].
    + simpl. intros st [[[_ [Ha Hb]] _] Hs].
      repeat constructor; try assumption. eapply lookup_valid. exact Hs.
    + simpl. intros st [_ Hs]. constructor; [eexists; exact Hs | constructor].
    + apply safe_ret. intros st [_ Hs]. eexists. exact Hs.
Qed.

Lemma safe_invert self :
  safe (fun _ => True) (__invert__ self) plain.
Proof.
  unfold __invert__.
  eapply safe_bind'; [stab | apply safe_len |]. intros n.
  eapply safe_bind'; [stab | apply safe_init |]. intros outwire.
  apply safe_emit_then; [stab | | |].
  - simpl. intros st [[_ (_ & o & Ho & _)] Hout].
    repeat constructor; eapply lookup_valid; eassumption.
  - simpl. intros st [_ Hout]. constructor; [eexists; exact Hout | constructor].
  - apply safe_ret. intros st [_ Hout]. eexists. exact Hout.
Qed.

Lemma safe_le self other : safe (fun _ => True) (__le__ self other) plain.
Proof.
  unfold __le__, __or__.
  eapply safe_bind'; [stab | apply safe_logicop |]. intros lt.
  eapply safe_bind'; [stab | apply safe_logicop |]. intros eq.
  eapply safe_conseq; [| | apply safe_logicop];
    [intros; exact I | intros a st H; exact H].
Qed.

Lemma safe_ge self other : safe (fun _ => True) (__ge__ self other) plain.
Proof.
  unfold __ge__, __or__.
  eapply safe_bind'; [stab | apply safe_logicop |]. intros lt.
  eapply safe_bind'; [stab | apply safe_logicop |]. intros eq.
  eapply safe_conseq; [| | apply safe_logicop];
    [intros; exact I | intros a st H; exact H].
Qed.

Lemma safe_ne self other : safe (fun _ => True) (__ne__ self other) plain.
Proof.
  unfold __ne__.
  eapply safe_bind'; [stab | apply safe_logicop |]. intros eq.
  eapply safe_conseq; [| | apply safe_invert];
    [intros; exact I | intros a st H; exact H].
Qed.

(** *** The assignments *)

Lemma safe_sound {A} (m : M A) R : safe (fun _ => True) m R -> sound m.
Proof.
  intros Hm st HI. destruct (Hm st HI I) as (H1 & H2 & _).
  split; [exact H1 | now apply appends_extends].
Qed.

Lemma sound_same {A} (m : M A) :
  (forall st, snd (m st) = st) -> sound m.
Proof. intros H st HI. rewrite H. split; [exact HI | apply extends_refl]. Qed.

(** Overwriting the object of a wire without touching its class, its
    value or what is staged, and resolving its width only if it was
    unresolved. *)
Lemma Inv_set_obj st (r : nat) old o :
  Inv st -> wirevectors st !! r = Some old ->
  cls o = cls old -> val o = val old -> reg_in o = reg_in old ->
  (forall w, bitwidth o = Some w -> 0 < w) ->
  (bitwidth o = bitwidth old \/ (bitwidth old = None)) ->
  Inv (snd (set_obj r o st)) /\ extends st (snd (set_obj r o st)).
Proof.
  intros (Hw & Hc & Hf & Hs & Hu) Hr Hcls Hval Hin Hpos Hbw.
  pose proof (lookup_lt_Some _ _ _ Hr) as Hlt.
  assert (Hlook : forall (x : nat) ox,
            <[r := o]> (wirevectors st) !! x = Some ox ->
            (x = r /\ ox = o) \/ (x <> r /\ wirevectors st !! x = Some ox)).
  { intros x ox Hx. destruct (decide (r = x)) as [<- | Hne].
    - rewrite list_lookup_insert_eq in Hx by exact Hlt. injection Hx as <-. now left.
    - rewrite list_lookup_insert_ne in Hx by exact Hne. right. split; [congruence | exact Hx]. }
  split; [split; [| split; [| split; [| split]]] |].
  - intros x ox w Hx Hb. simpl in Hx.
    apply Hlook in Hx as [[-> ->] | [_ Hx]]; [exact (Hpos w Hb) | exact (Hw x ox w Hx Hb)].
  - intros x ox v Hx Hv. simpl in Hx.
    apply Hlook in Hx as [[-> ->] | [_ Hx]]; [| exact (Hc x ox v Hx Hv)].
    rewrite Hval in Hv. destruct (Hc r old v Hr Hv) as (w & Hb & Hfit).
    exists w. split; [| exact Hfit].
    destruct Hbw as [-> | Hnone]; [exact Hb | congruence].
  - unfold wf_state in *. simpl. now rewrite length_insert.
  - intros x ox y Hx Hy. simpl in Hx. unfold valid. simpl.
    rewrite length_insert.
    apply Hlook in Hx as [[-> ->] | [_ Hx]].
    + rewrite Hin in Hy. exact (Hs r old y Hr Hy).
    + exact (Hs x ox y Hx Hy).
  - intros x ox Hx Hreg. simpl in Hx.
    change (clocked_updates x (snd (set_obj r o st)))
      with (clocked_updates x st).
    apply Hlook in Hx as [[-> ->] | [_ Hx]].
    + rewrite Hin. apply (Hu r old Hr). now rewrite <- Hcls.
    + exact (Hu x ox Hx Hreg).
  - split; [exists []; simpl; now rewrite app_nil_r |].
    intros x ox Hx. simpl. destruct (decide (r = x)) as [<- | Hne].
    + exists o. rewrite list_lookup_insert_eq by exact Hlt.
      assert (ox = old) as -> by congruence.
      split; [reflexivity | split; [exact Hcls | split; [exact Hval | split]]].
      * intros w Hb. destruct Hbw as [-> | Hnone]; [exact Hb | congruence].
      * intros y Hy. congruence.
    + exists ox. rewrite list_lookup_insert_ne by exact Hne.
      repeat split; trivial.
Qed.

(** The step shared by [__ilshift__] and [_next_ilshift]: an unresolved
    width takes the width of the other wire. *)
Lemma resolve_width_sound self (o : WireVectorObj) other' st :
  Inv st -> wirevectors st !! self = Some o ->
  let m : M unit :=
    match bitwidth o with
    | None => let* o' := get_obj other' in set_bitwidth self (bitwidth o')
    | Some _ => ret tt
    end in
  Inv (snd (m st)) /\ extends st (snd (m st))
  /\ length (wirevectors (snd (m st))) = length (wirevectors st)
  /\ (bitwidth o = None -> fst (m st) = Ok tt -> valid other' st).
Proof.
  intros HI Hs m. subst m. destruct (bitwidth o) as [w |] eqn:Hb.
  - simpl. split; [exact HI | split; [apply extends_refl | split; [reflexivity | discriminate]]].
  - unfold bind, get_obj.
    destruct (wirevectors st !! other') as [o' |] eqn:Ho'; simpl;
      [| split; [exact HI | split; [apply extends_refl | split; [reflexivity | discriminate]]]].
    unfold set_bitwidth. rewrite (bind_ok _ _ _ _ _ (get_obj_ok _ _ _ Hs)).
    destruct (Inv_set_obj st self o
                (mkWire (cls o) (bitwidth o') (val o) (reg_in o) (_is_conditional o)))
      as [H1 H2]; simpl; trivial.
    + destruct HI as (Hw & _). intros w Hw'. exact (Hw other' o' w Ho' Hw').
    + now right.
    + split; [exact H1 | split; [exact H2 | split]].
      * simpl. now rewrite length_insert.
      * intros _ _. eapply lookup_valid. exact Ho'.
Qed.

(** The coercion, the resolution of the width and what follows them,
    for [__ilshift__] (with [emit_copy]) and [_next_ilshift] (without). *)
Lemma assign_sound {B} self (o : WireVectorObj) other (emit_copy : bool)
    (result : ref -> B) st r st' :
  Inv st -> wirevectors st !! self = Some o ->
  (let* other' := as_wires other (bitwidth o) in
   (match bitwidth o with
    | None => let* o' := get_obj other' in set_bitwidth self (bitwidth o')
    | Some _ => ret tt
    end) ;;;
   (if emit_copy then add_net (mkNet "w" None [other'] [self]) else ret tt) ;;;
   ret (result other')) st = (r, st') ->
  Inv st' /\ extends st st'
  /\ forall b, r = Ok b -> exists other', b = result other' /\ valid other' st'.
Proof.
  intros HI Hs Hrun.
  destruct (safe_as_wires other (bitwidth o) st HI I) as (HI1 & Happ & Hpost).
  unfold bind at 1 in Hrun.
  destruct (as_wires other (bitwidth o) st) as [[other' | e] st1]; simpl in *.
  2: { injection Hrun as <- <-.
       split; [exact HI1 | split; [now apply appends_extends | discriminate]]. }
  pose proof (appends_lookup _ _ _ _ Happ Hs) as Hs1.
  destruct (resolve_width_sound self o other' st1 HI1 Hs1)
    as (HI2 & Hext & Hlen & Hval).
  unfold bind at 1 in Hrun.
  destruct ((match bitwidth o with
             | Some _ => ret ()
             | None => let* o' := get_obj other' in set_bitwidth self (bitwidth o')
             end) st1) as [[[] | e] st2]; simpl in *.
  2: { injection Hrun as <- <-. split; [exact HI2 | split; [| discriminate]].
       eapply extends_trans; [apply appends_extends; exact Happ | exact Hext]. }
  assert (Hvo : valid other' st2).
  { unfold valid. rewrite Hlen.
    destruct (Hpost other' eq_refl) as [[_ Hnone] | Hv]; [| exact Hv].
    now apply Hval. }
  assert (Hvs : valid self st2).
  { unfold valid. rewrite Hlen. eapply lookup_valid. exact Hs1. }
  assert (Hext2 : extends st st2)
    by (eapply extends_trans; [apply appends_extends; exact Happ | exact Hext]).
  destruct emit_copy; simpl in Hrun; injection Hrun as <- <-.
  - split; [apply Inv_emit;
             [exact HI2 | simpl; repeat constructor; assumption | discriminate] |].
    split; [eapply extends_trans; [exact Hext2 | apply appends_extends, appends_emit] |].
    intros b [= <-]. exists other'. split; [reflexivity | exact Hvo].
  - split; [exact HI2 | split; [exact Hext2 |]].
    intros b [= <-]. now exists other'.
Qed.

Lemma sound_ilshift self other : sound (__ilshift__ self other).
Proof.
  intros st HI.
  destruct (__ilshift__ self other st) as [r st'] eqn:Hrun. simpl.
  unfold __ilshift__ in Hrun. unfold bind at 1, get_obj in Hrun.
  destruct (wirevectors st !! self) as [o |] eqn:Hs.
  2: { injection Hrun as <- <-. split; [exact HI | apply extends_refl]. }
  destruct (unsigned_base (cls o));
    first [ injection Hrun as <- <-; split; [exact HI | apply extends_refl]
          | destruct (assign_sound self o other true (fun _ => self) st r st'
                        HI Hs Hrun) as (H1 & H2 & _);
            split; [exact H1 | exact H2] ].
Qed.

Lemma next_ilshift_sound self other st v st' :
  Inv st -> _next_ilshift self other st = (v, st') ->
  Inv st' /\ extends st st'
  /\ forall b, v = Ok b -> exists rhs, b = PyNextSetter rhs /\ valid rhs st'.
Proof.
  intros HI Hrun. unfold _next_ilshift in Hrun.
  unfold bind at 1, get_obj in Hrun.
  destruct (wirevectors st !! self) as [o |] eqn:Hs.
  2: { injection Hrun as <- <-.
       split; [exact HI | split; [apply extends_refl | discriminate]]. }
  exact (assign_sound self o other false PyNextSetter st v st' HI Hs Hrun).
Qed.

Lemma Inv_same_block st st' :
  wirevectors st' = wirevectors st -> logic st' = logic st ->
  Inv st -> Inv st' /\ extends st st'.
Proof.
  intros Hw Hl (H1 & H2 & H3 & H4 & H5).
  split; [split; [| split; [| split; [| split]]] |].
  - intros x o w. rewrite Hw. apply H1.
  - intros x o v. rewrite Hw. apply H2.
  - unfold wf_state. now rewrite Hw, Hl.
  - intros r o x Hr Hin. unfold valid. rewrite Hw, Hl. rewrite Hw in Hr.
    exact (H4 r o x Hr Hin).
  - intros r o Hr Hreg. unfold clocked_updates. rewrite Hl. rewrite Hw in Hr.
    exact (H5 r o Hr Hreg).
  - split; [exists []; now rewrite Hl, app_nil_r |].
    intros x o Hx. exists o. rewrite Hw. repeat split; trivial.
Qed.

(** Recording the staged wire in the register and emitting its clocked
    update, as the setter does outside a conditional scope. *)
Lemma Inv_stage st (r : nat) o (rhs : nat) :
  Inv st -> wirevectors st !! r = Some o -> reg_in o = None -> valid rhs st ->
  let st' :=
    mkState (<[r := mkWire (cls o) (bitwidth o) (val o) (Some rhs)
                          (_is_conditional o)]> (wirevectors st))
            (logic st ++ [mkNet "r" None [rhs] [r]])
            (under_condition st) (register_set_calls st) in
  Inv st' /\ extends st st'.
Proof.
  intros (Hw & Hc & Hf & Hs & Hu) Hr Hin Hrhs st'.
  pose proof (lookup_lt_Some _ _ _ Hr) as Hlt.
  assert (Hlook : forall (x : nat) ox,
            wirevectors st' !! x = Some ox ->
            exists old, wirevectors st !! x = Some old
                        /\ bitwidth ox = bitwidth old /\ val ox = val old
                        /\ (reg_in ox = reg_in old \/ (x = r /\ reg_in ox = Some rhs))).
  { intros x ox Hx. subst st'. simpl in Hx.
    destruct (decide (r = x)) as [<- | Hne].
    - rewrite list_lookup_insert_eq in Hx by exact Hlt. injection Hx as <-.
      exists o. simpl. repeat split; trivial. now right.
    - rewrite list_lookup_insert_ne in Hx by exact Hne.
      exists ox. repeat split; trivial. now left. }
  assert (Hlen : length (wirevectors st') = length (wirevectors st))
    by (subst st'; simpl; apply length_insert).
  split; [split; [| split; [| split; [| split]]] |].
  - intros x ox w Hx Hb. destruct (Hlook x ox Hx) as (old & Hold & Hbw & _).
    rewrite Hbw in Hb. exact (Hw x old w Hold Hb).
  - intros x ox v Hx Hv. destruct (Hlook x ox Hx) as (old & Hold & Hbw & Hval & _).
    rewrite Hval in Hv. rewrite Hbw. exact (Hc x old v Hold Hv).
  - unfold wf_state. rewrite Hlen. subst st'. simpl.
    apply Forall_app. split; [exact Hf |].
    repeat constructor; simpl; [exact Hrhs | exact Hlt].
  - intros x ox y Hx Hy. unfold valid. rewrite Hlen.
    destruct (Hlook x ox Hx) as (old & Hold & _ & _ & [Hsame | [-> Hnew]]).
    + rewrite Hsame in Hy. destruct (Hs x old y Hold Hy) as [Hv Hnet].
      split; [exact Hv |]. subst st'. simpl. apply elem_of_app. now left.
    + assert (y = rhs) as -> by congruence.
      split; [exact Hrhs |]. subst st'. simpl. apply elem_of_app. right.
      apply list_elem_of_singleton. reflexivity.
  - intros x ox Hx Hreg. unfold clocked_updates. subst st'. simpl in *.
    rewrite filter_app. fold (clocked_updates x st).
    destruct (decide (r = x)) as [<- | Hne].
    + rewrite list_lookup_insert_eq in Hx by exact Hlt. injection Hx as <-.
      simpl in *. rewrite (Hu r o Hr Hreg), Hin.
      rewrite filter_cons_True
        by (split; [reflexivity | apply list_elem_of_singleton; reflexivity]).
      reflexivity.
    + rewrite list_lookup_insert_ne in Hx by exact Hne.
      rewrite (Hu x ox Hx Hreg).
      rewrite filter_cons_False; [apply app_nil_r |].
      intros [_ Hd]. simpl in Hd. apply list_elem_of_singleton in Hd. congruence.
  - split; [now eexists |].
    intros x ox Hx. subst st'. simpl. destruct (decide (r = x)) as [<- | Hne].
    + eexists. rewrite list_lookup_insert_eq by exact Hlt.
      assert (ox = o) as -> by congruence. simpl.
      split; [reflexivity | split; [reflexivity | split; [reflexivity |]]].
      split; [trivial | intros y Hy; congruence].
    + exists ox. rewrite list_lookup_insert_ne by exact Hne.
      repeat split; trivial.
Qed.

Lemma next_setter_sound r v st :
  Inv st -> (forall rhs, v = PyNextSetter rhs -> valid rhs st) ->
  Inv (snd (next_setter r v st)) /\ extends st (snd (next_setter r v st)).
Proof.
  intros HI Hv.
  destruct v as [| | | | |rhs];
    try (simpl; split; [exact HI | apply extends_refl]).
  destruct (wirevectors st !! r) as [o |] eqn:Hr.
  2: { unfold next_setter, bind, get_obj. rewrite Hr. simpl.
       split; [exact HI | apply extends_refl]. }
  destruct (reg_in o) as [x |] eqn:Hin.
  - rewrite (next_setter_staged st r o x rhs Hr Hin). simpl.
    split; [exact HI | apply extends_refl].
  - rewrite (next_setter_fresh st r o rhs Hr Hin).
    destruct (under_condition st); simpl.
    + now apply Inv_same_block.
    + apply Inv_stage; trivial. now apply Hv.
Qed.

Lemma sound_stage_next r other : sound (stage_next r other).
Proof.
  intros st HI. rewrite stage_next_run. unfold bind.
  destruct (_next_ilshift r other st) as [v st1] eqn:Hco.
  destruct (next_ilshift_sound r other st v st1 HI Hco) as (HI1 & Hext & Hres).
  destruct v as [b | e]; simpl; [| split; [exact HI1 | exact Hext]].
  destruct (Hres b eq_refl) as (rhs & -> & Hrhs).
  destruct (next_setter_sound r (PyNextSetter rhs) st1 HI1) as [H1 H2].
  { now intros ? [= <-]. }
  split; [exact H1 | eapply extends_trans; eassumption].
Qed.

(** A register is constructed as the plain wire is: the two
    assignments that follow the base constructor store what is there. *)
Lemma Register_init_run c bw st :
  Register__init__ c bw st = WireVector__init__ c bw st.
Proof.
  unfold Register__init__, bind.
  assert (Hfresh : forall st,
    (let '(r, st') := set_reg_in (length (wirevectors st)) None
                        (alloc (mkWire c bw None None false) st) in
     match r with
     | Ok _ =>
         let '(r0, st'0) := set_is_conditional (length (wirevectors st)) false st' in
         match r0 with
         | Ok _ => ret (length (wirevectors st)) st'0
         | Raise e => (Raise e, st'0)
         end
     | Raise e => (Raise e, st')
     end)
    = (Ok (length (wirevectors st)), alloc (mkWire c bw None None false) st)).
  { intros s. unfold set_reg_in, set_is_conditional, bind.
    rewrite (get_obj_ok _ _ _ (lookup_alloc_new s _)). simpl.
    unfold get_obj. simpl.
    rewrite insert_app_r_alt, Nat.sub_diag by lia. simpl.
    rewrite list_lookup_middle by reflexivity. simpl.
    unfold alloc. simpl. do 2 f_equal.
    rewrite insert_app_r_alt, Nat.sub_diag by lia. reflexivity. }
  unfold WireVector__init__. destruct bw as [w |].
  - destruct (w <=? 0); [reflexivity |]. unfold add_wirevector. apply Hfresh.
  - unfold add_wirevector. apply Hfresh.
Qed.

(** *** Every call keeps the invariants *)

Lemma Inv_empty : Inv empty_state.
Proof.
  split; [| split; [| split; [| split]]].
  - intros x o w H. simpl in H. now rewrite lookup_nil in H.
  - intros x o v H. simpl in H. now rewrite lookup_nil in H.
  - constructor.
  - intros r o x H. simpl in H. now rewrite lookup_nil in H.
  - intros r o H. simpl in H. now rewrite lookup_nil in H.
Qed.

Lemma perform_sound c st :
  Inv st -> Inv (perform c st) /\ extends st (perform c st).
Proof.
  intros HI.
  destruct c as [c bw | c v bw | c bw | self other o | self other | self other
                | self other | self | self item | self bw | self bw | self bw
                | self other | r other | self | b]; simpl.
  - exact (safe_sound _ _ (safe_init c bw) st HI).
  - exact (safe_sound _ _ (safe_Const c v bw) st HI).
  - rewrite Register_init_run. exact (safe_sound _ _ (safe_init c bw) st HI).
  - exact (safe_sound _ _ (safe_logicop self other o) st HI).
  - exact (safe_sound _ _ (safe_le self other) st HI).
  - exact (safe_sound _ _ (safe_ge self other) st HI).
  - exact (safe_sound _ _ (safe_ne self other) st HI).
  - exact (safe_sound _ _ (safe_invert self) st HI).
  - exact (safe_sound _ _ (safe_getitem self item) st HI).
  - exact (safe_sound _ _ (safe_sign_extended self bw) st HI).
  - exact (safe_sound _ _ (safe_zero_extended self bw) st HI).
  - exact (safe_sound _ _ (safe_extended self bw) st HI).
  - exact (sound_ilshift self other st HI).
  - exact (sound_stage_next r other st HI).
  - split; [exact HI | apply extends_refl].
  - now apply Inv_same_block.
Qed.

Lemma run_snoc cs c : run (cs ++ [c]) = perform c (run cs).
Proof. unfold run. now rewrite foldl_app. Qed.

Lemma run_Inv cs : Inv (run cs).
Proof.
  induction cs as [| c cs IH] using rev_ind; [apply Inv_empty |].
  rewrite run_snoc. now apply perform_sound.
Qed.

Lemma run_extends cs cs' : extends (run cs) (run (cs ++ cs')).
Proof.
  induction cs' as [| c cs' IH] using rev_ind.
  - rewrite app_nil_r. apply extends_refl.
  - rewrite app_assoc, run_snoc.
    eapply extends_trans; [exact IH |]. apply perform_sound, run_Inv.
Qed.

(** ** What holds in every block that the module builds *)

(** X1.  Whatever calls are made, every wire of the block has an
    unresolved width or a width of at least 1. *)
Theorem reachable_widths_positive (cs : list Call) (x : ref)
    (o : WireVectorObj) (w : Z) :
  wirevectors (run cs) !! x = Some o -> bitwidth o = Some w -> 0 < w.
Proof. destruct (run_Inv cs) as (H & _). apply H. Qed.

Lemma reachable_widths_positive_witness :
  wirevectors (run [NewRegister RegisterC (Some 4);
                    NewWireVector WireVectorC None;
                    Ilshift 1%nat (PyWire 0%nat)]) !! 1%nat
    = Some (mkWire WireVectorC (Some 4) None None false)
  /\ 0 < 4.
Proof.
  split; [reflexivity |].
  exact (reachable_widths_positive
           [NewRegister RegisterC (Some 4); NewWireVector WireVectorC None;
            Ilshift 1%nat (PyWire 0%nat)] 1%nat _ 4 eq_refl eq_refl).
Defined.

(** X2.  Whatever calls are made, every wire that carries a constant
    value has a resolved width and the value is non-negative and fits
    in that width. *)
Theorem reachable_consts_fit (cs : list Call) (x : ref)
    (o : WireVectorObj) (v : Z) :
  wirevectors (run cs) !! x = Some o -> val o = Some v ->
  exists w, bitwidth o = Some w /\ 0 <= v < 2 ^ w.
Proof. destruct (run_Inv cs) as (_ & H & _). apply H. Qed.

Lemma reachable_consts_fit_witness :
  wirevectors (run [NewConst ConstC (PyInt 5) PyNone]) !! 0%nat
    = Some (mkWire ConstC (Some 3) (Some 5) None false)
  /\ exists w, Some 3 = Some w /\ 0 <= 5 < 2 ^ w.
Proof.
  split; [reflexivity |].
  exact (reachable_consts_fit [NewConst ConstC (PyInt 5) PyNone] 0%nat _ 5
           eq_refl eq_refl).
Defined.

(** X3.  Whatever calls are made, every net of the block has only wires
    of the block as inputs and outputs. *)
Theorem reachable_nets_closed (cs : list Call) (n : LogicNet) (x : ref) :
  n ∈ logic (run cs) -> x ∈ args n ++ dests n ->
  is_Some (wirevectors (run cs) !! x).
Proof.
  intros Hn Hx. destruct (run_Inv cs) as (_ & _ & H & _).
  unfold wf_state in H. rewrite Forall_forall in H. specialize (H n Hn).
  rewrite Forall_forall in H. apply lookup_lt_is_Some. exact (H x Hx).
Qed.

Lemma reachable_nets_closed_witness :
  mkNet "~" None [0%nat] [1%nat]
    ∈ logic (run [NewWireVector InputC (Some 2); Invert 0%nat])
  /\ is_Some (wirevectors (run [NewWireVector InputC (Some 2); Invert 0%nat])
                !! 1%nat).
Proof.
  assert (Hn : mkNet "~" None [0%nat] [1%nat]
                 ∈ logic (run [NewWireVector InputC (Some 2); Invert 0%nat]))
    by (apply list_elem_of_singleton; reflexivity).
  split; [exact Hn |].
  refine (reachable_nets_closed _ _ 1%nat Hn _).
  simpl. apply elem_of_cons. right. apply list_elem_of_singleton. reflexivity.
Defined.

(** X4.  Whatever calls are made, a register is updated once and only
    once: a register with a recorded next value has exactly one net of
    operation r that writes it, the clocked update with that value (a
    wire of the block) as its only input and the register as its only
    output; a register with no recorded next value, which includes one
    staged only inside conditional scopes, has none. *)
Theorem reachable_registers_updated_once (cs : list Call) (r : ref)
    (o : WireVectorObj) :
  wirevectors (run cs) !! r = Some o -> is_register (cls o) = true ->
  match reg_in o with
  | Some x =>
      clocked_updates r (run cs) = [mkNet "r" None [x] [r]]
      /\ is_Some (wirevectors (run cs) !! x)
  | None => clocked_updates r (run cs) = []
  end.
Proof.
  intros Hr Hreg. destruct (run_Inv cs) as (_ & _ & _ & Hs & Hu).
  specialize (Hu r o Hr Hreg).
  destruct (reg_in o) as [x |] eqn:Hin; [| exact Hu].
  split; [exact Hu |].
  destruct (Hs r o x Hr Hin) as [Hv _]. now apply lookup_lt_is_Some.
Qed.

Lemma reachable_registers_updated_once_witness :
  wirevectors (run [NewRegister RegisterC (Some 4);
                    StageNext 0%nat (PyInt 5);
                    StageNext 0%nat (PyInt 6)]) !! 0%nat
    = Some (mkWire RegisterC (Some 4) None (Some 1%nat) false)
  /\ clocked_updates 0%nat
       (run [NewRegister RegisterC (Some 4); StageNext 0%nat (PyInt 5);
             StageNext 0%nat (PyInt 6)])
     = [mkNet "r" None [1%nat] [0%nat]].
Proof.
  split; [reflexivity |].
  exact (proj1 (reachable_registers_updated_once
                  [NewRegister RegisterC (Some 4); StageNext 0%nat (PyInt 5);
                   StageNext 0%nat (PyInt 6)]
                  0%nat _ eq_refl eq_refl)).
Defined.

(** X5.  Further calls only extend the block: the nets that were there
    stay, in front and in order, and every wire that was there keeps
    its class, its constant value, its width once it is resolved and
    its recorded next value once it is set. *)
Theorem calls_only_extend (cs cs' : list Call) :
  (exists new, logic (run (cs ++ cs')) = logic (run cs) ++ new)
  /\ forall (x : ref) o,
       wirevectors (run cs) !! x = Some o ->
       exists o',
         wirevectors (run (cs ++ cs')) !! x = Some o'
         /\ cls o' = cls o /\ val o' = val o
         /\ (forall w, bitwidth o = Some w -> bitwidth o' = Some w)
         /\ (forall y, reg_in o = Some y -> reg_in o' = Some y).
Proof. exact (run_extends cs cs'). Qed.

(** X6.  The result of an operator, of an index expression or of a
    comparison is always a plain unsigned wire of resolved positive
    width, whatever the classes of the operands: signedness is not
    inherited, and the default extension of such a result is the zero
    extension. *)
Theorem operator_results_are_plain (cs : list Call) (self : ref)
    (other : pyval) (op : string) (item : pyindex) (s : ref) (st' : State) :
  logicop self other op (run cs) = (Ok s, st')
  \/ __invert__ self (run cs) = (Ok s, st')
  \/ __getitem__ self item (run cs) = (Ok s, st')
  \/ __le__ self other (run cs) = (Ok s, st')
  \/ __ge__ self other (run cs) = (Ok s, st')
  \/ __ne__ self other (run cs) = (Ok s, st') ->
  (exists w, 0 < w
             /\ wirevectors st' !! s
                = Some (mkWire WireVectorC (Some w) None None false))
  /\ forall t, extended s t st' = zero_extended s t st'.
Proof.
  intros Hrun.
  assert (Hplain : Inv st' /\ plain s st').
  { pose proof (run_Inv cs) as HI.
    assert (Hgen : forall m : M ref,
              safe (fun _ => True) m plain -> m (run cs) = (Ok s, st') ->
              Inv st' /\ plain s st').
    { intros m Hm Hr. destruct (Hm (run cs) HI I) as (H1 & _ & H3).
      rewrite Hr in *. simpl in *. split; [exact H1 | now apply H3]. }
    destruct Hrun as [H | [H | [H | [H | [H | H]]]]].
    - exact (Hgen _ (safe_logicop self other op) H).
    - exact (Hgen _ (safe_invert self) H).
    - exact (Hgen _ (safe_getitem self item) H).
    - exact (Hgen _ (safe_le self other) H).
    - exact (Hgen _ (safe_ge self other) H).
    - exact (Hgen _ (safe_ne self other) H). }
  destruct Hplain as [(Hpos & _) [w Hw]]. split.
  - exists w. split; [exact (Hpos s _ w Hw eq_refl) | exact Hw].
  - intros t. now rewrite (extended_dispatch st' s _ t Hw).
Qed.

Lemma operator_results_are_plain_witness :
  logicop 0%nat (PyWire 0%nat) "+" (run [NewWireVector SignedInputC (Some 3)])
    = (Ok 1%nat,
       snd (logicop 0%nat (PyWire 0%nat) "+"
              (run [NewWireVector SignedInputC (Some 3)])))
  /\ exists w, 0 < w
       /\ wirevectors (snd (logicop 0%nat (PyWire 0%nat) "+"
                              (run [NewWireVector SignedInputC (Some 3)])))
            !! 1%nat
          = Some (mkWire WireVectorC (Some w) None None false).
Proof.
  split; [reflexivity |].
  exact (proj1 (operator_results_are_plain
                  [NewWireVector SignedInputC (Some 3)] 0%nat (PyWire 0%nat)
                  "+" (IndexInt 0) 1%nat _ (or_introl eq_refl))).
Defined.

(** ** Comparisons built from several nets *)

(** One binary operation on two wires of resolved widths: the state
    [st1] after the equalization, the result and the net. *)
Lemma logicop_run st a b oa ob wa wb op :
  wirevectors st !! a = Some oa -> wirevectors st !! b = Some ob ->
  bitwidth oa = Some wa -> bitwidth ob = Some wb -> 0 < wa -> 0 < wb ->
  exists a' b' st1,
    logicop a (PyWire b) op st =
      (Ok (length (wirevectors st1)),
       emit (mkNet op None [a'; b'] [length (wirevectors st1)])
         (alloc (mkWire WireVectorC (Some (resultlen_of op (Z.max wa wb)))
                        None None false) st1))
    /\ (forall (x : ref) ox,
          wirevectors st !! x = Some ox -> wirevectors st1 !! x = Some ox)
    /\ (wa = wb -> st1 = st) /\ (wb <= wa -> a' = a) /\ (wa <= wb -> b' = b).
Proof.
  intros Ha Hb Hwa Hwb Hpa Hpb.
  assert (Hfinish : forall a' b' st1 oa',
    wirevectors st1 !! a' = Some oa' -> bitwidth oa' = Some (Z.max wa wb) ->
    (let* len := __len__ (fst (a', b')) in
     let* s := WireVector__init__ WireVectorC (Some (resultlen_of op len)) in
     add_net (mkNet op None [fst (a', b'); snd (a', b')] [s]) ;;; ret s) st1
    = (Ok (length (wirevectors st1)),
       emit (mkNet op None [a'; b'] [length (wirevectors st1)])
         (alloc (mkWire WireVectorC (Some (resultlen_of op (Z.max wa wb)))
                        None None false) st1))).
  { intros a' b' st1 oa' Hl Hw'. cbn [fst snd].
    rewrite (bind_ok _ _ _ _ _ (len_ok _ _ _ _ Hl Hw')).
    assert (Hr : 0 < resultlen_of op (Z.max wa wb))
      by (apply resultlen_of_pos; lia).
    rewrite (bind_ok _ _ _ _ _ (init_ok _ _ st1 Hr)).
    rewrite (bind_ok _ _ _ _ _ (add_net_run _ _)). reflexivity. }
  unfold logicop.
  rewrite (bind_ok _ _ st b st eq_refl).
  rewrite (bind_ok _ _ _ _ _ (len_ok _ _ _ _ Ha Hwa)).
  rewrite (bind_ok _ _ _ _ _ (len_ok _ _ _ _ Hb Hwb)).
  destruct (Z.ltb_spec wa wb) as [Hlt | Hge].
  - destruct (extended_grow_frame st a oa wa wb Ha Hwa Hpa Hlt)
      as (r & st1 & Hrun & Hr & Hframe).
    exists r, b, st1.
    split; [| split; [exact Hframe | split; [lia | split; [lia | reflexivity]]]].
    rewrite (bind_ok _ _ st (r, b) st1)
      by (rewrite (bind_ok _ _ _ _ _ Hrun); reflexivity).
    eapply Hfinish; [exact Hr | simpl; f_equal; lia].
  - destruct (Z.ltb_spec wb wa) as [Hlt | Hge'].
    + destruct (extended_grow_frame st b ob wb wa Hb Hwb Hpb Hlt)
        as (r & st1 & Hrun & Hr & Hframe).
      exists a, r, st1.
      split; [| split; [exact Hframe | split; [lia | split; [reflexivity | lia]]]].
      rewrite (bind_ok _ _ st (a, r) st1)
        by (rewrite (bind_ok _ _ _ _ _ Hrun); reflexivity).
      eapply Hfinish; [exact (Hframe a oa Ha) | rewrite Hwa; f_equal; lia].
    + exists a, b, st. split; [| split; [trivial | auto]].
      rewrite (bind_ok _ _ st (a, b) st eq_refl).
      eapply Hfinish; [exact Ha | rewrite Hwa; f_equal; lia].
Qed.

Lemma invert_run st a oa wa :
  wirevectors st !! a = Some oa -> bitwidth oa = Some wa -> 0 < wa ->
  __invert__ a st =
    (Ok (length (wirevectors st)),
     emit (mkNet "~" None [a] [length (wirevectors st)])
       (alloc (mkWire WireVectorC (Some wa) None None false) st)).
Proof.
  intros Ha Hwa Hpa. unfold __invert__.
  rewrite (bind_ok _ _ _ _ _ (len_ok _ _ _ _ Ha Hwa)).
  rewrite (bind_ok _ _ _ _ _ (init_ok _ _ st Hpa)).
  rewrite (bind_ok _ _ _ _ _ (add_net_run _ _)). reflexivity.
Qed.

(** A comparison [cmp], then the equality, then their disjunction. *)
Lemma compare_or_run st a b oa ob wa wb cmp :
  wirevectors st !! a = Some oa -> wirevectors st !! b = Some ob ->
  bitwidth oa = Some wa -> bitwidth ob = Some wb -> 0 < wa -> 0 < wb ->
  cmp = "<" \/ cmp = ">" ->
  exists lt eq st1 st2,
    logicop a (PyWire b) cmp st = (Ok lt, st1)
    /\ logicop a (PyWire b) "=" st1 = (Ok eq, st2)
    /\ width_of st2 lt = Some 1 /\ width_of st2 eq = Some 1
    /\ (let* lt := logicop a (PyWire b) cmp in
        let* eq := logicop a (PyWire b) "=" in
        __or__ lt (PyWire eq)) st
       = (Ok (length (wirevectors st2)),
          emit (mkNet "|" None [lt; eq] [length (wirevectors st2)])
            (alloc (mkWire WireVectorC (Some 1) None None false) st2))
    /\ (wa = wb ->
        logic st2 =
          logic st ++ [mkNet cmp None [a; b] [lt]; mkNet "=" None [a; b] [eq]]).
Proof.
  intros Ha Hb Hwa Hwb Hpa Hpb Hcmp.
  destruct (logicop_run st a b oa ob wa wb cmp Ha Hb Hwa Hwb Hpa Hpb)
    as (a1 & b1 & s1 & Hrun1 & Hf1 & Hs1 & Ha1 & Hb1).
  set (lt := length (wirevectors s1)) in *.
  set (st1 := emit (mkNet cmp None [a1; b1] [lt])
                (alloc (mkWire WireVectorC
                          (Some (resultlen_of cmp (Z.max wa wb))) None None false)
                       s1)) in *.
  assert (Hlen1 : resultlen_of cmp (Z.max wa wb) = 1)
    by (destruct Hcmp as [-> | ->]; reflexivity).
  assert (Hfr1 : forall (x : ref) ox,
            wirevectors st !! x = Some ox -> wirevectors st1 !! x = Some ox).
  { intros x ox Hx. subst st1. simpl. apply lookup_app_l_Some. now apply Hf1. }
  destruct (logicop_run st1 a b oa ob wa wb "=" (Hfr1 a oa Ha) (Hfr1 b ob Hb)
              Hwa Hwb Hpa Hpb) as (a2 & b2 & s2 & Hrun2 & Hf2 & Hs2 & Ha2 & Hb2).
  set (eq := length (wirevectors s2)) in *.
  set (st2 := emit (mkNet "=" None [a2; b2] [eq])
                (alloc (mkWire WireVectorC
                          (Some (resultlen_of "=" (Z.max wa wb))) None None false)
                       s2)) in *.
  assert (Hlt1 : wirevectors st1 !! lt
                 = Some (mkWire WireVectorC (Some 1) None None false)).
  { subst st1 lt. rewrite Hlen1. apply lookup_alloc_new. }
  assert (Hlt2 : wirevectors st2 !! lt
                 = Some (mkWire WireVectorC (Some 1) None None false)).
  { subst st2. simpl. apply lookup_app_l_Some. now apply Hf2. }
  assert (Heq2' : wirevectors st2 !! eq
                  = Some (mkWire WireVectorC (Some 1) None None false)).
  { subst st2 eq. apply lookup_alloc_new. }
  exists lt, eq, st1, st2.
  split; [exact Hrun1 | split; [exact Hrun2 |]].
  split; [unfold width_of; now rewrite Hlt2 |].
  split; [unfold width_of; now rewrite Heq2' |].
  split.
  - rewrite (bind_ok _ _ _ _ _ Hrun1), (bind_ok _ _ _ _ _ Hrun2). unfold __or__.
    destruct (logicop_run st2 lt eq _ _ 1 1 "|" Hlt2 Heq2' eq_refl eq_refl)
      as (a3 & b3 & s3 & Hrun3 & _ & Hs3 & Ha3 & Hb3); [lia | lia |].
    rewrite (Hs3 eq_refl), (Ha3 (Z.le_refl 1)), (Hb3 (Z.le_refl 1)) in Hrun3.
    exact Hrun3.
  - intros Hw. subst st2 st1. simpl.
    rewrite (Hs2 Hw). simpl. rewrite (Hs1 Hw).
    rewrite (Ha1 ltac:(lia)), (Hb1 ltac:(lia)), (Ha2 ltac:(lia)), (Hb2 ltac:(lia)).
    now rewrite <- app_assoc.
Qed.



(** X8.  [~a] emits one net with [a] as its only input and a fresh
    result of the width of [a]; [a != b] is the equality followed by
    its inversion, a result of 1 bit. *)
Theorem invert_and_ne (st : State) (a b : ref) (oa ob : WireVectorObj)
    (wa wb : Z) :
  wirevectors st !! a = Some oa -> wirevectors st !! b = Some ob ->
  bitwidth oa = Some wa -> bitwidth ob = Some wb -> 0 < wa -> 0 < wb ->
  __invert__ a st =
    (Ok (length (wirevectors st)),
     emit (mkNet "~" None [a] [length (wirevectors st)])
       (alloc (mkWire WireVectorC (Some wa) None None false) st))
  /\ exists eq st1,
       logicop a (PyWire b) "=" st = (Ok eq, st1)
       /\ width_of st1 eq = Some 1
       /\ __ne__ a (PyWire b) st
          = (Ok (length (wirevectors st1)),
             emit (mkNet "~" None [eq] [length (wirevectors st1)])
               (alloc (mkWire WireVectorC (Some 1) None None false) st1)).
Proof.
  intros Ha Hb Hwa Hwb Hpa Hpb.
  split; [now apply (invert_run st a oa wa) |].
  destruct (logicop_run st a b oa ob wa wb "=" Ha Hb Hwa Hwb Hpa Hpb)
    as (a1 & b1 & s1 & Hrun1 & _).
  eexists _, _. split; [exact Hrun1 |].
  assert (Heq : wirevectors
                  (emit (mkNet "=" None [a1; b1] [length (wirevectors s1)])
                     (alloc (mkWire WireVectorC
                               (Some (resultlen_of "=" (Z.max wa wb)))
                               None None false) s1))
                !! length (wirevectors s1)
                = Some (mkWire WireVectorC (Some 1) None None false))
    by apply lookup_alloc_new.
  split; [unfold width_of; now rewrite Heq |].
  unfold __ne__. rewrite (bind_ok _ _ _ _ _ Hrun1).
  now apply (invert_run _ _ _ 1 Heq).
Qed.

Lemma invert_and_ne_witness :
  wirevectors wide_and_narrow !! 0%nat
    = Some (mkWire WireVectorC (Some 4) None None false)
  /\ __invert__ 0%nat wide_and_narrow =
       (Ok 2%nat,
        emit (mkNet "~" None [0%nat] [2%nat])
          (alloc (mkWire WireVectorC (Some 4) None None false) wide_and_narrow)).
Proof.
  split; [reflexivity |].
  exact (proj1 (invert_and_ne wide_and_narrow 0%nat 1%nat _ _ 4 2
                  eq_refl eq_refl eq_refl eq_refl ltac:(lia) ltac:(lia))).
Defined.

(** ** Assignment with [<<=] *)

(** The classes whose [__ilshift__] is the one of [WireVector]. *)
Lemma assignable_cases c :
  unsigned_base c = WireVectorC \/ unsigned_base c = OutputC ->
  forall (A : Type) (x y z k : A),
    match unsigned_base c with
    | InputC => x | ConstC => y | RegisterC => z | _ => k
    end = k.
Proof. intros [-> | ->]; reflexivity. Qed.

(** The copy of a wire of the same width, or into an unresolved wire. *)
Lemma ilshift_copy_run st a o b ob wb :
  wirevectors st !! a = Some o ->
  unsigned_base (cls o) = WireVectorC \/ unsigned_base (cls o) = OutputC ->
  wirevectors st !! b = Some ob -> bitwidth ob = Some wb ->
  (bitwidth o = Some wb ->
   __ilshift__ a (PyWire b) st = (Ok a, emit (mkNet "w" None [b] [a]) st))
  /\ (bitwidth o = None ->
      __ilshift__ a (PyWire b) st =
        (Ok a,
         emit (mkNet "w" None [b] [a])
           (mkState (<[a := mkWire (cls o) (Some wb) (val o) (reg_in o)
                                   (_is_conditional o)]> (wirevectors st))
                    (logic st) (under_condition st) (register_set_calls st)))).
Proof.
  intros Ha Hc Hb Hwb. split; intros Hw.
  - unfold __ilshift__. rewrite (bind_ok _ _ _ _ _ (get_obj_ok _ _ _ Ha)).
    rewrite (assignable_cases _ Hc). rewrite Hw. unfold as_wires.
    rewrite (bind_ok _ _ st b st).
    + rewrite (bind_ok _ _ st tt st eq_refl).
      rewrite (bind_ok _ _ _ _ _ (add_net_run _ _)). reflexivity.
    + rewrite (bind_ok _ _ _ _ _ (len_ok _ _ _ _ Hb Hwb)).
      now rewrite Z.ltb_irrefl.
  - unfold __ilshift__. rewrite (bind_ok _ _ _ _ _ (get_obj_ok _ _ _ Ha)).
    rewrite (assignable_cases _ Hc). rewrite Hw. unfold as_wires.
    rewrite (bind_ok _ _ st b st eq_refl).
    erewrite (bind_ok _ _ st tt).
    + rewrite (bind_ok _ _ _ _ _ (add_net_run _ _)). reflexivity.
    + rewrite (bind_ok _ _ _ _ _ (get_obj_ok _ _ _ Hb)).
      unfold set_bitwidth. rewrite (bind_ok _ _ _ _ _ (get_obj_ok _ _ _ Ha)).
      rewrite Hwb. reflexivity.
Qed.

(** X9.  [<<=] by the class of its left side.  Input, Const and
    Register, and their Signed subclasses by inheritance, refuse
    whatever is on the right, which is not even coerced: the block is
    unchanged.  A WireVector or an Output (signed or not) is written by
    one copy net.  From a wire of the same width the net reads that
    wire; a wire of unresolved width first takes the width of what is
    assigned; a narrower right side is extended to the width of the
    left side by its own extension rule and the net reads the extended
    wire; a wider one raises the shrink error and emits nothing. *)
Theorem ilshift_by_class (st : State) (a : ref) (o : WireVectorObj) :
  wirevectors st !! a = Some o ->
  (unsigned_base (cls o) = InputC ->
   forall other,
     __ilshift__ a other st = (Raise (PyrtlErr InputAssigned), st))
  /\ (unsigned_base (cls o) = ConstC ->
      forall other,
        __ilshift__ a other st = (Raise (PyrtlErr ConstAssigned), st))
  /\ (unsigned_base (cls o) = RegisterC ->
      forall other,
        __ilshift__ a other st = (Raise (PyrtlErr RegisterAssignedDirectly), st))
  /\ (unsigned_base (cls o) = WireVectorC \/ unsigned_base (cls o) = OutputC ->
      forall (b : ref) ob wb,
        wirevectors st !! b = Some ob -> bitwidth ob = Some wb -> 0 < wb ->
        match bitwidth o with
        | None =>
            __ilshift__ a (PyWire b) st =
              (Ok a,
               emit (mkNet "w" None [b] [a])
                 (mkState (<[a := mkWire (cls o) (Some wb) (val o) (reg_in o)
                                         (_is_conditional o)]> (wirevectors st))
                          (logic st) (under_condition st)
                          (register_set_calls st)))
        | Some wa =>
            (wb = wa ->
             __ilshift__ a (PyWire b) st
             = (Ok a, emit (mkNet "w" None [b] [a]) st))
            /\ (wa < wb ->
                __ilshift__ a (PyWire b) st
                = (Raise (PyrtlErr CannotReduceBits), st))
            /\ (wb < wa ->
                exists b' st1,
                  extended b wa st = (Ok b', st1)
                  /\ width_of st1 b' = Some wa
                  /\ __ilshift__ a (PyWire b) st
                     = (Ok a, emit (mkNet "w" None [b'] [a]) st1))
        end).
Proof.
  intros Ha.
  assert (Hrefuse : forall other e,
            match unsigned_base (cls o) with
            | InputC => e = InputAssigned
            | ConstC => e = ConstAssigned
            | RegisterC => e = RegisterAssignedDirectly
            | _ => False
            end ->
            __ilshift__ a other st = (Raise (PyrtlErr e), st)).
  { intros other e He. unfold __ilshift__.
    rewrite (bind_ok _ _ _ _ _ (get_obj_ok _ _ _ Ha)).
    destruct (unsigned_base (cls o)); try contradiction; now subst e. }
  split; [| split; [| split]].
  - intros Hc other. apply Hrefuse. now rewrite Hc.
  - intros Hc other. apply Hrefuse. now rewrite Hc.
  - intros Hc other. apply Hrefuse. now rewrite Hc.
  - intros Hc b ob wb Hb Hwb Hpb.
    destruct (ilshift_copy_run st a o b ob wb Ha Hc Hb Hwb) as [Hsame Hnone].
    destruct (bitwidth o) as [wa |] eqn:Hwa; [| now apply Hnone].
    split; [| split].
    + intros ->. now apply Hsame.
    + intros Hlt. unfold __ilshift__.
      rewrite (bind_ok _ _ _ _ _ (get_obj_ok _ _ _ Ha)).
      rewrite (assignable_cases _ Hc). rewrite Hwa. apply bind_raise.
      unfold as_wires. rewrite (bind_ok _ _ _ _ _ (len_ok _ _ _ _ Hb Hwb)).
      destruct (Z.ltb_spec wa wb); [reflexivity | lia].
    + intros Hlt.
      destruct (extended_grow_frame st b ob wb wa Hb Hwb Hpb Hlt)
        as (b' & st1 & Hrun & Hb' & _).
      exists b', st1. split; [exact Hrun |].
      split; [unfold width_of; now rewrite Hb' |].
      unfold __ilshift__.
      rewrite (bind_ok _ _ _ _ _ (get_obj_ok _ _ _ Ha)).
      rewrite (assignable_cases _ Hc). rewrite Hwa.
      rewrite (bind_ok _ _ st b' st1).
      * rewrite (bind_ok _ _ st1 tt st1 eq_refl).
        rewrite (bind_ok _ _ _ _ _ (add_net_run _ _)). reflexivity.
      * unfold as_wires. rewrite (bind_ok _ _ _ _ _ (len_ok _ _ _ _ Hb Hwb)).
        destruct (Z.ltb_spec wa wb); [lia |].
        destruct (Z.ltb_spec wb wa); [exact Hrun | lia].
Qed.

Lemma ilshift_by_class_witness :
  wirevectors reg_and_wire !! 0%nat
    = Some (mkWire RegisterC (Some 4) None None false)
  /\ forall other,
       __ilshift__ 0%nat other reg_and_wire
       = (Raise (PyrtlErr RegisterAssignedDirectly), reg_and_wire).
Proof.
  split; [reflexivity |].
  exact (proj1 (proj2 (proj2
           (ilshift_by_class reg_and_wire 0%nat _ eq_refl))) eq_refl).
Defined.

(** ** The width of a register *)

(** The coercion of [r.next <<= x] for a wire [x]. *)
Lemma next_ilshift_wire_run st r o x ox wx :
  wirevectors st !! r = Some o ->
  wirevectors st !! x = Some ox -> bitwidth ox = Some wx ->
  (bitwidth o = None ->
   _next_ilshift r (PyWire x) st =
     (Ok (PyNextSetter x),
      mkState (<[r := mkWire (cls o) (Some wx) (val o) (reg_in o)
                              (_is_conditional o)]> (wirevectors st))
              (logic st) (under_condition st) (register_set_calls st)))
  /\ (forall w, bitwidth o = Some w -> w < wx ->
      _next_ilshift r (PyWire x) st = (Raise (PyrtlErr CannotReduceBits), st)).
Proof.
  intros Hr Hx Hwx. split.
  - intros Hw. unfold _next_ilshift.
    rewrite (bind_ok _ _ _ _ _ (get_obj_ok _ _ _ Hr)), Hw. unfold as_wires.
    rewrite (bind_ok _ _ st x st eq_refl).
    erewrite (bind_ok _ _ st tt); [reflexivity |].
    rewrite (bind_ok _ _ _ _ _ (get_obj_ok _ _ _ Hx)).
    unfold set_bitwidth. rewrite (bind_ok _ _ _ _ _ (get_obj_ok _ _ _ Hr)).
    now rewrite Hwx.
  - intros w Hw Hlt. unfold _next_ilshift.
    rewrite (bind_ok _ _ _ _ _ (get_obj_ok _ _ _ Hr)), Hw.
    apply bind_raise. unfold as_wires.
    rewrite (bind_ok _ _ _ _ _ (len_ok _ _ _ _ Hx Hwx)).
    destruct (Z.ltb_spec w wx); [reflexivity | lia].
Qed.

(** X10.  A register built without a width takes the width of the
    first value staged for it.  The width is resolved by the coercion
    of [r.next <<= x], before the setter runs, so it is resolved inside
    a conditional scope as well, where the setter records nothing in
    the register and emits nothing.  Once the width is resolved a wider
    value is refused with the shrink error and the block is
    unchanged. *)
Theorem register_width_resolved (st : State) (r x : ref)
    (o ox : WireVectorObj) (wx : Z) :
  wirevectors st !! r = Some o -> is_register (cls o) = true ->
  wirevectors st !! x = Some ox -> bitwidth ox = Some wx ->
  (bitwidth o = None -> reg_in o = None ->
   stage_next r (PyWire x) st =
     (Ok tt,
      if under_condition st
      then mkState (<[r := mkWire (cls o) (Some wx) (val o) None
                                  (_is_conditional o)]> (wirevectors st))
                   (logic st) true (register_set_calls st ++ [(r, x)])
      else mkState (<[r := mkWire (cls o) (Some wx) (val o) (Some x)
                                  (_is_conditional o)]> (wirevectors st))
                   (logic st ++ [mkNet "r" None [x] [r]])
                   false (register_set_calls st)))
  /\ (forall w, bitwidth o = Some w -> w < wx ->
      stage_next r (PyWire x) st = (Raise (PyrtlErr CannotReduceBits), st)).
Proof.
  intros Hr _ Hx Hwx.
  destruct (next_ilshift_wire_run st r o x ox wx Hr Hx Hwx) as [Hnone Hwide].
  split.
  - intros Hw Hin. rewrite stage_next_run, (bind_ok _ _ _ _ _ (Hnone Hw)).
    erewrite next_setter_fresh;
      [| simpl; apply list_lookup_insert_eq; eapply lookup_lt_Some; exact Hr
       | exact Hin].
    simpl. rewrite Hin. destruct (under_condition st); [reflexivity |].
    f_equal. f_equal. apply list_insert_insert_eq.
  - intros w Hw Hlt. rewrite stage_next_run.
    apply bind_raise. now apply (Hwide w).
Qed.

Lemma register_width_resolved_witness :
  (wirevectors (alloc (mkWire InputC (Some 3) None None false)
                  (alloc (mkWire RegisterC None None None false) empty_state))
     !! 0%nat = Some (mkWire RegisterC None None None false))
  /\ stage_next 0%nat (PyWire 1%nat)
       (alloc (mkWire InputC (Some 3) None None false)
          (alloc (mkWire RegisterC None None None false) empty_state))
     = (Ok tt,
        mkState [mkWire RegisterC (Some 3) None (Some 1%nat) false;
                 mkWire InputC (Some 3) None None false]
                [mkNet "r" None [1%nat] [0%nat]] false []).
Proof.
  split; [reflexivity |].
  exact (proj1 (register_width_resolved
                  (alloc (mkWire InputC (Some 3) None None false)
                     (alloc (mkWire RegisterC None None None false) empty_state))
                  0%nat 1%nat _ _ 3 eq_refl eq_refl eq_refl eq_refl)
           eq_refl eq_refl).
Defined.

(** ** Index expressions that fail, and the slices of the docstring *)

Lemma slice_indices_cases n start stop step :
  (step = Some 0 -> Py.slice_indices n start stop step = Raise ValueError)
  /\ (step <> Some 0 ->
      exists a b s, Py.slice_indices n start stop step = Ok (a, b, s)).
Proof.
  unfold Py.slice_indices. split.
  - intros ->. reflexivity.
  - intros Hs. destruct (Z.eqb_spec (default 1 step) 0) as [H0 | _].
    + destruct step as [s |]; simpl in H0; [congruence | discriminate].
    + eauto.
Qed.

(** X11.  How an index expression fails on a handle of resolved width
    [w].  An integer outside [-w, w) raises [IndexError]; a slice whose
    step is 0 raises [ValueError]; nothing else makes the list indexing
    fail, so the only other failure is a slice that selects no
    position, refused by the constructor of the result.  An integer
    index never selects nothing and a slice never raises [IndexError].
    Whenever indexing fails the block is unchanged. *)
Theorem getitem_failures (st : State) (h : ref) (o : WireVectorObj) (w : Z)
    (item : pyindex) :
  wirevectors st !! h = Some o -> bitwidth o = Some w -> 0 < w ->
  (forall i, item = IndexInt i -> i < - w \/ w <= i ->
     __getitem__ h item st = (Raise IndexError, st))
  /\ (forall a b, item = IndexSlice a b (Some 0) ->
        __getitem__ h item st = (Raise ValueError, st))
  /\ (forall e, fst (__getitem__ h item st) = Raise e ->
        snd (__getitem__ h item st) = st
        /\ match item with
           | IndexInt i => e = IndexError /\ (i < - w \/ w <= i)
           | IndexSlice a b s =>
               (e = ValueError /\ s = Some 0)
               \/ (e = PyrtlErr BitwidthMustBePositive /\ s <> Some 0
                   /\ positions_selected w item = Ok [])
           end).
Proof.
  intros Hh Hw Hpos. split; [| split].
  - intros i -> Hi. apply (getitem_raise st h o w _ _ Hh Hw).
    unfold positions_selected. rewrite getitem_int_range by lia.
    destruct (Z.ltb_spec i (- w)), (Z.leb_spec w i); simpl;
      try reflexivity; lia.
  - intros a b ->. apply (getitem_raise st h o w _ _ Hh Hw).
    unfold positions_selected, Py.list_getitem_slice.
    now rewrite (proj1 (slice_indices_cases _ a b (Some 0)) eq_refl).
  - intros e He.
    destruct (positions_selected w item) as [sel | e'] eqn:Hsel.
    + rewrite (getitem_run st h o w item sel Hh Hw Hsel) in He |- *.
      destruct (Z.leb_spec (Z.of_nat (length sel)) 0) as [Hle | Hgt];
        [| discriminate He].
      injection He as <-. split; [reflexivity |].
      assert (sel = []) as -> by (destruct sel; [reflexivity | simpl in Hle; lia]).
      destruct item as [i | a b s].
      * simpl in Hsel.
        destruct (Py.list_getitem_int (Py.range w) i); discriminate Hsel.
      * right. split; [reflexivity | split; [| reflexivity]].
        intros ->. simpl in Hsel. unfold Py.list_getitem_slice in Hsel.
        rewrite (proj1 (slice_indices_cases _ a b (Some 0)) eq_refl) in Hsel.
        discriminate Hsel.
    + rewrite (getitem_raise st h o w item e' Hh Hw Hsel) in He |- *.
      injection He as <-. split; [reflexivity |].
      destruct item as [i | a b s]; simpl in Hsel.
      * rewrite getitem_int_range in Hsel by lia.
        destruct (Z.ltb_spec i (- w)), (Z.leb_spec w i); simpl in Hsel;
          try discriminate Hsel; injection Hsel as <-; (split; [reflexivity | lia]).
      * left. unfold Py.list_getitem_slice in Hsel.
        destruct (decide (s = Some 0)) as [-> | Hs].
        -- rewrite (proj1 (slice_indices_cases _ a b (Some 0)) eq_refl) in Hsel.
           injection Hsel as <-. split; reflexivity.
        -- destruct (proj2 (slice_indices_cases (Z.of_nat (length (Py.range w)))
                              a b s) Hs) as (a' & b' & s' & Hi).
           rewrite Hi in Hsel. discriminate Hsel.
Qed.

Lemma getitem_failures_witness :
  wirevectors (one_wire WireVectorC 8) !! 0%nat
    = Some (mkWire WireVectorC (Some 8) None None false)
  /\ __getitem__ 0%nat (IndexInt 8) (one_wire WireVectorC 8)
     = (Raise IndexError, one_wire WireVectorC 8).
Proof.
  split; [reflexivity |].
  apply (proj1 (getitem_failures (one_wire WireVectorC 8) 0%nat _ 8 (IndexInt 8)
                  eq_refl eq_refl ltac:(lia)) 8 eq_refl).
  right. lia.
Defined.

Lemma slice_positions_unit a b :
  a <= b -> Py.slice_positions a b 1 = seqZ a (b - a).
Proof.
  intros Hab. unfold Py.slice_positions, Py.slice_length. simpl.
  destruct (Z.ltb_spec a b) as [Hlt | Hge].
  - rewrite Z.div_1_r.
    replace (b - a - 1 + 1) with (b - a) by lia.
    transitivity (Z.add a <$> seqZ 0 (b - a));
      [| rewrite fmap_add_seqZ; f_equal; lia].
    apply list_fmap_ext. intros _ x _. lia.
  - replace (b - a) with 0 by lia. reflexivity.
Qed.

Lemma slice_positions_down w :
  0 <= w ->
  Py.slice_positions (w - 1) (-1) (-1) = reverse (seqZ 0 w).
Proof.
  intros Hw. unfold Py.slice_positions, Py.slice_length. simpl.
  destruct (Z.ltb_spec (-1) (w - 1)) as [Hlt | Hge].
  - match goal with |- context [seqZ 0 ?n] =>
      replace n with w by (change (- -1) with 1; rewrite Z.div_1_r; lia) end.
    apply list_eq. intros i.
    destruct (decide (i < Z.to_nat w)%nat) as [Hi | Hi].
    + rewrite list_lookup_fmap, lookup_seqZ_lt by lia. simpl.
      rewrite reverse_lookup by (rewrite length_seqZ; lia).
      rewrite length_seqZ, lookup_seqZ_lt by lia. f_equal. lia.
    + rewrite !lookup_ge_None_2; [reflexivity | |].
      * rewrite length_reverse, length_seqZ. lia.
      * rewrite length_fmap, length_seqZ. lia.
  - replace w with 0 by lia. reflexivity.
Qed.

(** X12.  The slices the class docstring names, on a handle of width
    [w] and for every [k] between 1 and [w]: [h[0:k]] is made of the
    bottom [k] bits, [h[-1]] of the most significant bit, [h[-k:]] of
    the [k] most significant bits; moreover [h[:]] selects every
    position in order and [h[::-1]] every position in reverse order.
    Each is a fresh wire of the width selected, written by one select
    net that reads [h]. *)
Theorem docstring_slices (st : State) (h : ref) (o : WireVectorObj)
    (w k : Z) :
  wirevectors st !! h = Some o -> bitwidth o = Some w -> 0 < k <= w ->
  let selects item sel :=
    __getitem__ h item st =
      (Ok (length (wirevectors st)),
       emit (mkNet "s" (Some sel) [h] [length (wirevectors st)])
         (alloc (mkWire WireVectorC (Some (Z.of_nat (length sel)))
                        None None false) st)) in
  selects (IndexSlice (Some 0) (Some k) None) (seqZ 0 k)
  /\ selects (IndexInt (-1)) [w - 1]
  /\ selects (IndexSlice (Some (- k)) None None) (seqZ (w - k) k)
  /\ selects (IndexSlice None None None) (seqZ 0 w)
  /\ selects (IndexSlice None None (Some (-1))) (reverse (seqZ 0 w))
  /\ Z.of_nat (length (seqZ 0 k)) = k
  /\ Z.of_nat (length (seqZ (w - k) k)) = k.
Proof.
  intros Hh Hw Hk selects.
  assert (Hsel : forall item sel,
            positions_selected w item = Ok sel -> sel <> [] ->
            selects item sel).
  { intros item sel Hs Hne. unfold selects.
    rewrite (getitem_run st h o w item sel Hh Hw Hs).
    destruct sel as [| z sel]; [congruence |].
    destruct (Z.leb_spec (Z.of_nat (length (z :: sel))) 0) as [Hle | _];
      [simpl in Hle; lia | reflexivity]. }
  assert (Hne : forall a n, 0 < n -> seqZ a n <> []).
  { intros a n Hn He. apply (f_equal length) in He.
    rewrite length_seqZ in He. simpl in He. lia. }
  assert (Hslice : forall start stop step a b s,
            Py.slice_indices w start stop step = Ok (a, b, s) ->
            positions_selected w (IndexSlice start stop step)
            = Ok (Py.slice_positions a b s)).
  { intros. simpl. apply getitem_slice_range; [lia | assumption]. }
  split; [| split; [| split; [| split; [| split; [| split]]]]].
  - apply Hsel; [| apply Hne; lia].
    rewrite (Hslice _ _ _ 0 k 1).
    + rewrite slice_positions_unit by lia. do 2 f_equal. lia.
    + unfold Py.slice_indices. simpl.
      destruct (Z.ltb_spec k 0); [lia |].
      do 3 f_equal; lia.
  - apply Hsel; [| discriminate]. simpl.
    rewrite getitem_int_range by lia.
    destruct (Z.ltb_spec (-1) (- w)), (Z.leb_spec w (-1)); simpl; try lia.
    do 2 f_equal. symmetry. apply Z.mod_unique_pos with (q := -1); lia.
  - apply Hsel; [| apply Hne; lia].
    rewrite (Hslice _ _ _ (w - k) w 1).
    + rewrite slice_positions_unit by lia. do 2 f_equal. lia.
    + unfold Py.slice_indices. simpl.
      destruct (Z.ltb_spec (- k) 0); [| lia].
      do 3 f_equal; lia.
  - apply Hsel; [| apply Hne; lia].
    rewrite (Hslice _ _ _ 0 w 1) by reflexivity.
    rewrite slice_positions_unit by lia. do 2 f_equal. lia.
  - apply Hsel.
    + rewrite (Hslice _ _ _ (w - 1) (-1) (-1)) by reflexivity.
      rewrite slice_positions_down by lia. reflexivity.
    + intros He. apply (f_equal length) in He.
      rewrite length_reverse, length_seqZ in He. simpl in He. lia.
  - rewrite length_seqZ. lia.
  - rewrite length_seqZ. lia.
Qed.

Lemma docstring_slices_witness :
  wirevectors (one_wire WireVectorC 8) !! 0%nat
    = Some (mkWire WireVectorC (Some 8) None None false)
  /\ __getitem__ 0%nat (IndexSlice (Some 0) (Some 5) None)
       (one_wire WireVectorC 8)
     = (Ok 1%nat,
        emit (mkNet "s" (Some [0; 1; 2; 3; 4]) [0%nat] [1%nat])
          (alloc (mkWire WireVectorC (Some 5) None None false)
                 (one_wire WireVectorC 8))).
Proof.
  split; [reflexivity |].
  exact (proj1 (docstring_slices (one_wire WireVectorC 8) 0%nat _ 8 5
                  eq_refl eq_refl ltac:(lia))).
Defined.

(** ** Const from a string *)

Lemma split_nonempty s sep : Py.split s sep <> [].
Proof.
  induction s as [| c s IH]; simpl; [discriminate |].
  destruct (Ascii.eqb c sep); [discriminate |].
  destruct (Py.split s sep); discriminate.
Qed.

(** [string.split] cuts at every separator. *)
Lemma split_length s sep :
  length (Py.split s sep) = S (count_char sep s).
Proof.
  induction s as [| c s IH]; simpl; [reflexivity |].
  destruct (Ascii.eqb c sep); simpl; [now rewrite IH |].
  destruct (Py.split s sep) eqn:Hs; [now destruct (split_nonempty s sep) |].
  simpl in *. exact IH.
Qed.

Lemma split_no_sep s sep : count_char sep s = 0%nat -> Py.split s sep = [s].
Proof.
  induction s as [| c s IH]; simpl; [reflexivity |].
  destruct (Ascii.eqb c sep); [discriminate |]. intros H.
  now rewrite (IH H).
Qed.

Lemma split_once a b sep :
  count_char sep a = 0%nat -> count_char sep b = 0%nat ->
  Py.split (a +:+ String sep b) sep = [a; b].
Proof.
  intros Ha Hb. induction a as [| c a IH]; simpl in *.
  - rewrite Ascii.eqb_refl. now rewrite split_no_sep.
  - destruct (Ascii.eqb c sep); [discriminate |]. now rewrite (IH Ha).
Qed.

(** X13.  A string given to [Const] must hold exactly one quote
    character: with none, or with two or more, the construction raises
    the format error; and any bitwidth given along with a string raises
    its own error before the string is even looked at.  Nothing is
    added to the block. *)
Theorem Const_string_format (c : Class) (s : string) (st : State) :
  (count_char "'" s <> 1%nat ->
   Const__init__ c (PyStr s) PyNone st
   = (Raise (PyrtlErr ConstNotVerilogFormat), st))
  /\ (forall bw, bw <> PyNone ->
        Const__init__ c (PyStr s) bw st
        = (Raise (PyrtlErr ConstBitwidthWithString), st)).
Proof.
  split.
  - intros Hq. unfold Const__init__. apply bind_raise. simpl.
    pose proof (split_length s "'") as Hlen.
    destruct (Py.split s "'") as [| w [| d [| x l]]]; try reflexivity.
    simpl in Hlen. congruence.
  - intros bw Hbw. unfold Const__init__. apply bind_raise.
    destruct bw; try reflexivity. congruence.
Qed.

(** ** Binary literals *)

Lemma string_append_cons c a b : String c a +:+ b = String c (a +:+ b).
Proof. reflexivity. Qed.

Lemma string_append_nil_r s : s +:+ EmptyString = s.
Proof.
  induction s as [| c s IH]; [reflexivity | now rewrite string_append_cons, IH].
Qed.

Lemma string_append_assoc a b c : (a +:+ b) +:+ c = a +:+ (b +:+ c).
Proof.
  induction a as [| x a IH]; [reflexivity | now rewrite !string_append_cons, IH].
Qed.

Lemma string_rev_app_acc s acc :
  String.rev_app s acc = String.rev s +:+ acc.
Proof.
  unfold String.rev. revert acc.
  induction s as [| c s IH]; intros acc; [reflexivity |].
  simpl. rewrite (IH (String c acc)), (IH (String c EmptyString)).
  now rewrite string_append_assoc.
Qed.

Lemma string_rev_cons c s : String.rev (String c s) = String.rev s +:+ String c EmptyString.
Proof. unfold String.rev at 1. simpl. apply string_rev_app_acc. Qed.

Lemma string_rev_app a b : String.rev (a +:+ b) = String.rev b +:+ String.rev a.
Proof.
  induction a as [| c a IH].
  - now rewrite string_append_nil_r.
  - now rewrite string_append_cons, !string_rev_cons, IH, string_append_assoc.
Qed.

Lemma string_rev_involutive s : String.rev (String.rev s) = s.
Proof.
  induction s as [| c s IH]; [reflexivity |].
  now rewrite string_rev_cons, string_rev_app, IH.
Qed.

(** A string that neither starts nor ends with a blank is its own
    [strip]. *)
Lemma lstrip_cons c s :
  Py.lstrip (String c s) = if Py.is_space c then Py.lstrip s else String c s.
Proof. reflexivity. Qed.

Lemma strip_id c s d :
  Py.is_space c = false -> Py.is_space d = false ->
  Py.strip (String c s +:+ String d EmptyString)
  = String c s +:+ String d EmptyString.
Proof.
  intros Hc Hd. unfold Py.strip.
  rewrite string_append_cons, lstrip_cons, Hc, <- string_append_cons.
  assert (Hrev : String.rev (String c s +:+ String d EmptyString)
                 = String d (String.rev (String c s))).
  { rewrite string_rev_app. reflexivity. }
  rewrite Hrev, lstrip_cons, Hd, <- Hrev. apply string_rev_involutive.
Qed.

Lemma parse_digits_app base acc a b :
  Py.parse_digits base acc (a +:+ b) =
    match Py.parse_digits base acc a with
    | Some v => Py.parse_digits base v b
    | None => None
    end.
Proof.
  revert acc. induction a as [| c a IH]; intros acc; simpl; [reflexivity |].
  destruct (Py.digit_value c) as [d |]; [| reflexivity].
  destruct (d <? base); [apply IH | reflexivity].
Qed.

Lemma parse_bin_digits p :
  Py.parse_digits 2 0 (Py.bin_digits p) = Some (Zpos p).
Proof.
  induction p as [q IH | q IH |]; simpl; [| | reflexivity].
  - rewrite parse_digits_app, IH. reflexivity.
  - rewrite parse_digits_app, IH. reflexivity.
Qed.

Lemma bin_digits_shape p :
  exists s d, Py.bin_digits p = s +:+ String d EmptyString
              /\ (d = "0"%char \/ d = "1"%char).
Proof.
  destruct p as [q | q |]; simpl.
  - exists (Py.bin_digits q), "1"%char. auto.
  - exists (Py.bin_digits q), "0"%char. auto.
  - exists EmptyString, "1"%char. auto.
Qed.

Lemma count_char_app c a b :
  count_char c (a +:+ b) = (count_char c a + count_char c b)%nat.
Proof.
  induction a as [| x a IH]; simpl; [reflexivity |]. rewrite IH. lia.
Qed.

Lemma bin_digits_no_quote p : count_char "'" (Py.bin_digits p) = 0%nat.
Proof.
  induction p as [q IH | q IH |]; simpl; [| | reflexivity];
    rewrite count_char_app, IH; reflexivity.
Qed.

(** [int(s, 0)] reads back what [bin] prints. *)
Lemma int_base0_bin p :
  Py.int_base0 ("0b" +:+ Py.bin_digits p) = Some (Zpos p).
Proof.
  unfold Py.int_base0, Py.parse_signed.
  destruct (bin_digits_shape p) as (s & d & Hs & Hd).
  assert (Hstrip : Py.strip ("0b" +:+ Py.bin_digits p)
                   = "0b" +:+ Py.bin_digits p).
  { rewrite Hs.
    change ("0b" +:+ (s +:+ String d EmptyString))
      with (String "0" (String "b" s) +:+ String d EmptyString).
    apply strip_id; [reflexivity | destruct Hd as [-> | ->]; reflexivity]. }
  assert (Hne : exists x r, Py.bin_digits p = String x r).
  { rewrite Hs. destruct s as [| x s]; eexists _, _; reflexivity. }
  destruct Hne as (x & r & Hb).
  rewrite Hstrip. simpl.
  change (EmptyString +:+ Py.bin_digits p) with (Py.bin_digits p).
  rewrite Hb. unfold Py.parse_number. rewrite <- Hb.
  apply parse_bin_digits.
Qed.

(** X14.  A binary literal reads back the number whose digits it
    holds: for a width text [wd] that [int] reads as [w], the string
    made of [wd], a quote, the letter b and the binary digits of a
    positive [n] (what [bin] prints after its prefix) constructs the
    constant of width [w] and value [n] when [n] fits, and raises the
    cannot-fit error when it does not. *)
Theorem Const_binary_literal (c : Class) (wd : string) (w : Z) (p : positive)
    (st : State) :
  count_char "'" wd = 0%nat -> Py.int wd = Some w -> 0 < w ->
  Py.bin (Zpos p) = "0b" +:+ Py.bin_digits p
  /\ (Zpos p < 2 ^ w ->
      Const__init__ c (PyStr (wd +:+ "'b" +:+ Py.bin_digits p)) PyNone st
      = (Ok (length (wirevectors st)),
         alloc (mkWire c (Some w) (Some (Zpos p)) None false) st))
  /\ (2 ^ w <= Zpos p ->
      Const__init__ c (PyStr (wd +:+ "'b" +:+ Py.bin_digits p)) PyNone st
      = (Raise (PyrtlErr ConstCannotFit), st)).
Proof.
  intros Hq Hint Hw.
  assert (Hparse : Const_parse (PyStr (wd +:+ "'b" +:+ Py.bin_digits p)) PyNone st
                   = (Ok (Zpos p, PyInt w), st)).
  { unfold Const_parse.
    change (wd +:+ "'b" +:+ Py.bin_digits p)
      with (wd +:+ String "'" (String "b" (Py.bin_digits p))).
    rewrite split_once;
      [| exact Hq | simpl; now rewrite bin_digits_no_quote].
    rewrite Hint.
    change ("0" +:+ String "b" (Py.bin_digits p))
      with ("0b" +:+ Py.bin_digits p).
    now rewrite int_base0_bin. }
  split; [reflexivity |]. split.
  - intros Hfit. apply (Const_ok c _ _ st _ _ Hparse); lia.
  - intros Hbig. rewrite (Const_checks c _ _ st _ _ Hparse).
    destruct (Z.ltb_spec (Zpos p) 0) as [Hn | _]; [lia |].
    destruct (Z.ltb_spec w 0) as [Hn | _]; [lia |].
    destruct (Z.eqb_spec (Z.shiftr (Zpos p) w) 0) as [Hz | _]; [| reflexivity].
    apply shiftr_zero_iff in Hz; lia.
Qed.

Lemma Const_binary_literal_witness :
  Const__init__ ConstC (PyStr "4'b1010") PyNone empty_state
  = (Ok 0%nat, alloc (mkWire ConstC (Some 4) (Some 10) None false) empty_state).
Proof.
  exact (proj1 (proj2 (Const_binary_literal ConstC "4" 4 10 empty_state
                         eq_refl eq_refl ltac:(lia))) ltac:(lia)).
Defined.

(** ** The operators write fresh wires only *)

Lemma writes_same {A} base (m : M A) (R : A -> Prop) :
  (forall st, snd (m st) = st) ->
  (forall st a, fst (m st) = Ok a -> R a) ->
  writes_from base m R.
Proof.
  intros Hst HR st _. rewrite Hst. split; [| apply HR].
  exists [], []. rewrite !app_nil_r. split; [reflexivity | split; [reflexivity | constructor]].
Qed.

Lemma writes_ret {A} base (a : A) (R : A -> Prop) :
  R a -> writes_from base (ret a) R.
Proof. intros H. apply writes_same; [reflexivity |]. now intros st a' [= <-]. Qed.

Lemma writes_raise {A} base e (R : A -> Prop) : writes_from base (raise e) R.
Proof. apply writes_same; [reflexivity | discriminate]. Qed.

Lemma writes_bind {A B} base (m : M A) (R : A -> Prop) (k : A -> M B)
    (S : B -> Prop) :
  writes_from base m R -> (forall a, R a -> writes_from base (k a) S) ->
  writes_from base (bind m k) S.
Proof.
  intros Hm Hk st Hb.
  destruct (Hm st Hb) as [(ws1 & n1 & Hw1 & Hl1 & Hf1) HR].
  unfold bind. destruct (m st) as [[a | e] st1]; simpl in *.
  - assert (Hb1 : (base <= length (wirevectors st1))%nat)
      by (rewrite Hw1, length_app; lia).
    destruct (Hk a (HR a eq_refl) st1 Hb1) as [(ws2 & n2 & Hw2 & Hl2 & Hf2) HS].
    split; [| exact HS].
    exists (ws1 ++ ws2), (n1 ++ n2).
    rewrite Hw2, Hw1, Hl2, Hl1, !app_assoc.
    split; [reflexivity | split; [reflexivity | now apply Forall_app]].
  - split; [| discriminate]. now exists ws1, n1.
Qed.

Lemma writes_weaken {A} base (m : M A) (R R' : A -> Prop) :
  (forall a, R a -> R' a) -> writes_from base m R -> writes_from base m R'.
Proof.
  intros HR Hm st Hb. destruct (Hm st Hb) as [H1 H2].
  split; [exact H1 |]. intros a Ha. apply HR, H2, Ha.
Qed.

Lemma writes_get_obj base r : writes_from base (get_obj r) (fun _ => True).
Proof.
  apply writes_same; [| trivial].
  intros st. unfold get_obj. now destruct (wirevectors st !! r).
Qed.

Lemma writes_option_to_M {A} base e (o : option A) :
  writes_from base (option_to_M e o) (fun _ => True).
Proof. destruct o; [now apply writes_ret | apply writes_raise]. Qed.

Lemma writes_lift {A} base (r : Result A) :
  writes_from base (lift r) (fun _ => True).
Proof. destruct r; [now apply writes_ret | apply writes_raise]. Qed.

Lemma writes_len base r : writes_from base (__len__ r) (fun _ => True).
Proof.
  unfold __len__. eapply writes_bind; [apply writes_get_obj |].
  intros o _. apply writes_option_to_M.
Qed.

(** A constructed wire is fresh. *)
Lemma writes_init base c bw :
  writes_from base (WireVector__init__ c bw) (fun s => (base <= s)%nat).
Proof.
  assert (Hadd : forall o,
            writes_from base (add_wirevector o) (fun s => (base <= s)%nat)).
  { intros o st Hb. simpl. split; [| now intros a [= <-]].
    exists [o], []. rewrite app_nil_r.
    split; [reflexivity | split; [reflexivity | constructor]]. }
  unfold WireVector__init__. destruct bw as [w |]; [| apply Hadd].
  destruct (w <=? 0); [apply writes_raise | apply Hadd].
Qed.

Lemma writes_add_net base n :
  Forall (fun d => (base <= d)%nat) (dests n) ->
  writes_from base (add_net n) (fun _ => True).
Proof.
  intros Hn st Hb. simpl. split; [| trivial].
  exists [], [n]. rewrite app_nil_r.
  split; [reflexivity | split; [reflexivity |]]. now constructor.
Qed.

Lemma writes_Const base c v bw :
  writes_from base (Const__init__ c v bw) (fun s => (base <= s)%nat).
Proof.
  intros st Hb.
  assert (Hsame : forall r, Const__init__ c v bw st = (Raise r, st) ->
    (exists ws new,
       wirevectors (snd (Const__init__ c v bw st)) = wirevectors st ++ ws
       /\ logic (snd (Const__init__ c v bw st)) = logic st ++ new
       /\ Forall (fun n => Forall (fun d => (base <= d)%nat) (dests n)) new)
    /\ forall a, fst (Const__init__ c v bw st) = Ok a -> (base <= a)%nat).
  { intros r ->. simpl. split; [| discriminate].
    exists [], []. rewrite !app_nil_r.
    split; [reflexivity | split; [reflexivity | constructor]]. }
  destruct (Const_parse v bw st) as [[[num b] | e] st1] eqn:Hp;
    pose proof (Const_parse_pure _ _ _ _ _ Hp) as ->.
  - destruct b as [| w | | | |];
      try (eapply Hsame; unfold Const__init__;
           rewrite (bind_ok _ _ _ _ _ Hp); reflexivity).
    pose proof (Const_checks c _ _ _ _ _ Hp) as Hrun. revert Hrun.
    destruct (num <? 0); [intros Hrun; eapply Hsame; exact Hrun |].
    destruct (w <? 0); [intros Hrun; eapply Hsame; exact Hrun |].
    destruct (negb (Z.shiftr num w =? 0));
      [intros Hrun; eapply Hsame; exact Hrun |].
    destruct (w <=? 0); [intros Hrun; eapply Hsame; exact Hrun |].
    intros Hrun. rewrite Hrun. simpl. split; [| now intros a [= <-]].
    eexists [_], []. rewrite app_nil_r.
    split; [reflexivity | split; [reflexivity | constructor]].
  - eapply Hsame. unfold Const__init__. now rewrite (bind_raise _ _ _ _ _ Hp).
Qed.

Lemma writes_concat base ws :
  writes_from base (concat ws) (fun s => (base <= s)%nat).
Proof.
  unfold concat. apply writes_bind with (R := fun _ => True).
  - induction ws as [| w ws IH]; [now apply writes_ret |]. simpl.
    eapply writes_bind; [apply writes_len |]. intros n _.
    eapply writes_bind; [exact IH |]. intros m _. now apply writes_ret.
  - intros total _. eapply writes_bind; [apply writes_init |].
    intros outwire Hout. simpl in Hout.
    eapply writes_bind;
      [apply writes_add_net; simpl; repeat constructor; exact Hout |].
    intros _ _. now apply writes_ret.
Qed.

Lemma writes_getitem base self item :
  writes_from base (__getitem__ self item) (fun s => (base <= s)%nat).
Proof.
  unfold __getitem__.
  eapply writes_bind; [apply writes_get_obj |]. intros o _.
  eapply writes_bind; [apply writes_option_to_M |]. intros w _.
  apply writes_bind with (R := fun _ => True).
  - destruct item; [| apply writes_lift].
    eapply writes_bind; [apply writes_lift |]. intros x _. now apply writes_ret.
  - intros sel _. eapply writes_bind; [apply writes_init |].
    intros outwire Hout. simpl in Hout.
    eapply writes_bind;
      [apply writes_add_net; simpl; repeat constructor; exact Hout |].
    intros _ _. now apply writes_ret.
Qed.

Lemma writes_extend_with_bit base self bw extbit :
  writes_from base (_extend_with_bit self bw extbit) (fun _ => True).
Proof.
  unfold _extend_with_bit.
  eapply writes_bind; [apply writes_get_obj |]. intros o _.
  eapply writes_bind; [apply writes_option_to_M |]. intros w _.
  destruct (bw - w =? 0); [now apply writes_ret |].
  destruct (bw - w <? 0); [apply writes_raise |].
  eapply writes_bind; [apply writes_init |]. intros extvector Hv. simpl in Hv.
  eapply writes_bind;
    [apply writes_add_net; simpl; repeat constructor; exact Hv |].
  intros _ _. eapply writes_weaken; [| apply writes_concat]. trivial.
Qed.

Lemma writes_sign_extended base self bw :
  writes_from base (sign_extended self bw) (fun _ => True).
Proof.
  unfold sign_extended. eapply writes_bind; [apply writes_getitem |].
  intros extbit _. apply writes_extend_with_bit.
Qed.

Lemma writes_zero_extended base self bw :
  writes_from base (zero_extended self bw) (fun _ => True).
Proof.
  unfold zero_extended. eapply writes_bind; [apply writes_Const |].
  intros extbit _. apply writes_extend_with_bit.
Qed.

Lemma writes_extended base self bw :
  writes_from base (extended self bw) (fun _ => True).
Proof.
  unfold extended. eapply writes_bind; [apply writes_get_obj |]. intros o _.
  destruct (is_signed (cls o));
    [apply writes_sign_extended | apply writes_zero_extended].
Qed.

Lemma writes_as_wires base v target :
  writes_from base (as_wires v target) (fun _ => True).
Proof.
  unfold as_wires. destruct v; try apply writes_raise.
  - eapply writes_weaken; [| apply writes_Const]. trivial.
  - destruct target as [t |]; [| now apply writes_ret].
    eapply writes_bind; [apply writes_len |]. intros n _.
    destruct (t <? n); [apply writes_raise |].
    destruct (n <? t); [apply writes_extended | now apply writes_ret].
Qed.

Lemma writes_logicop base self other op :
  writes_from base (logicop self other op) (fun s => (base <= s)%nat).
Proof.
  unfold logicop.
  eapply writes_bind; [apply writes_as_wires |]. intros b _.
  eapply writes_bind; [apply writes_len |]. intros la _.
  eapply writes_bind; [apply writes_len |]. intros lb _.
  apply writes_bind with (R := fun _ => True).
  - destruct (la <? lb); [| destruct (lb <? la)].
    + eapply writes_bind; [apply writes_extended |]. intros a' _.
      now apply writes_ret.
    + eapply writes_bind; [apply writes_extended |]. intros b' _.
      now apply writes_ret.
    + now apply writes_ret.
  - intros ab _. eapply writes_bind; [apply writes_len |]. intros len _.
    eapply writes_bind; [apply writes_init |]. intros s Hs. simpl in Hs.
    eapply writes_bind;
      [apply writes_add_net; simpl; repeat constructor; exact Hs |].
    intros _ _. now apply writes_ret.
Qed.

Lemma writes_invert base self :
  writes_from base (__invert__ self) (fun s => (base <= s)%nat).
Proof.
  unfold __invert__.
  eapply writes_bind; [apply writes_len |]. intros n _.
  eapply writes_bind; [apply writes_init |]. intros outwire Hout. simpl in Hout.
  eapply writes_bind;
    [apply writes_add_net; simpl; repeat constructor; exact Hout |].
  intros _ _. now apply writes_ret.
Qed.

Lemma writes_compare base self other cmp :
  writes_from base
    (let* lt := logicop self other cmp in
     let* eq := logicop self other "=" in
     __or__ lt (PyWire eq)) (fun s => (base <= s)%nat).
Proof.
  eapply writes_bind; [apply writes_logicop |]. intros lt _.
  eapply writes_bind; [apply writes_logicop |]. intros eq _.
  apply writes_logicop.
Qed.

Lemma writes_ne base self other :
  writes_from base (__ne__ self other) (fun s => (base <= s)%nat).
Proof.
  unfold __ne__. eapply writes_bind; [apply writes_logicop |]. intros eq _.
  apply writes_invert.
Qed.

(** From the block as it is: the wires that were there are not
    written. *)
Lemma writes_grows {A} (m : M A) R st :
  writes_from (length (wirevectors st)) m R -> grows st (snd (m st)).
Proof. intros H. exact (proj1 (H st (le_n _))). Qed.

Lemma writes_result (m : M nat) st a st' :
  writes_from (length (wirevectors st)) m
    (fun s => (length (wirevectors st) <= s)%nat) ->
  m st = (Ok a, st') -> wirevectors st !! a = None.
Proof.
  intros H Hrun. apply lookup_ge_None_2.
  apply (proj2 (H st (le_n _)) a). now rewrite Hrun.
Qed.

(** X15.  The operators, the comparisons, indexing, the extensions and
    the construction of a constant never touch what is already in the
    block, whatever their arguments and whether they return or raise:
    the wires that were there are unchanged, the nets that were there
    stay in front, and every net that is added writes a wire that was
    not there before.  What an operator, a comparison or an index
    expression returns is a wire that was not there before. *)
Theorem operators_write_fresh_wires (st : State) (self : ref)
    (other : pyval) (op : string) (item : pyindex) (bw : Z) (c : Class)
    (v b : pyval) :
  (grows st (snd (logicop self other op st))
   /\ grows st (snd (__invert__ self st))
   /\ grows st (snd (__getitem__ self item st))
   /\ grows st (snd (__le__ self other st))
   /\ grows st (snd (__ge__ self other st))
   /\ grows st (snd (__ne__ self other st))
   /\ grows st (snd (sign_extended self bw st))
   /\ grows st (snd (zero_extended self bw st))
   /\ grows st (snd (extended self bw st))
   /\ grows st (snd (Const__init__ c v b st)))
  /\ forall s st',
       logicop self other op st = (Ok s, st')
       \/ __invert__ self st = (Ok s, st')
       \/ __getitem__ self item st = (Ok s, st')
       \/ __le__ self other st = (Ok s, st')
       \/ __ge__ self other st = (Ok s, st')
       \/ __ne__ self other st = (Ok s, st') ->
       wirevectors st !! s = None.
Proof.
  split.
  - split; [eapply writes_grows, writes_logicop |].
    split; [eapply writes_grows, writes_invert |].
    split; [eapply writes_grows, writes_getitem |].
    split; [eapply writes_grows, writes_compare |].
    split; [eapply writes_grows, writes_compare |].
    split; [eapply writes_grows, writes_ne |].
    split; [eapply writes_grows, writes_sign_extended |].
    split; [eapply writes_grows, writes_zero_extended |].
    split; [eapply writes_grows, writes_extended |].
    eapply writes_grows, writes_Const.
  - intros s st' [H | [H | [H | [H | [H | H]]]]];
      (eapply writes_result; [| exact H]).
    + apply writes_logicop.
    + apply writes_invert.
    + apply writes_getitem.
    + apply (writes_compare _ self other "<").
    + apply (writes_compare _ self other ">").
    + apply writes_ne.
Qed.

(** ** An integer as the other operand *)

(** The integer is coerced to a constant of its own bit length. *)
Lemma as_wires_int st n :
  0 <= n ->
  as_wires (PyInt n) None st =
    (Ok (length (wirevectors st)),
     alloc (mkWire ConstC (Some (Z.log2 n + 1)) (Some n) None false) st).
Proof.
  intros Hn. unfold as_wires.
  apply Const_ok.
  - simpl. now rewrite len_bin.
  - exact Hn.
  - pose proof (Z.log2_nonneg n). lia.
  - destruct (Z.eq_dec n 0) as [-> | Hne]; [reflexivity |].
    apply Z.log2_spec. lia.
Qed.

Lemma logicop_int_run st a oa wa n op :
  wirevectors st !! a = Some oa -> bitwidth oa = Some wa -> 0 < wa -> 0 <= n ->
  let c := length (wirevectors st) in
  let wn := Z.log2 n + 1 in
  exists a' b' st1,
    logicop a (PyInt n) op st =
      (Ok (length (wirevectors st1)),
       emit (mkNet op None [a'; b'] [length (wirevectors st1)])
         (alloc (mkWire WireVectorC (Some (resultlen_of op (Z.max wa wn)))
                        None None false) st1))
    /\ wirevectors st1 !! c = Some (mkWire ConstC (Some wn) (Some n) None false)
    /\ (wn <= wa -> a' = a) /\ (wa <= wn -> b' = c).
Proof.
  intros Ha Hwa Hpa Hn c wn.
  set (st0 := alloc (mkWire ConstC (Some wn) (Some n) None false) st).
  assert (Hc : wirevectors st0 !! c
               = Some (mkWire ConstC (Some wn) (Some n) None false))
    by apply lookup_alloc_new.
  assert (Hpn : 0 < wn) by (pose proof (Z.log2_nonneg n); subst wn; lia).
  destruct (logicop_run st0 a c oa _ wa wn op (lookup_alloc _ _ _ _ Ha) Hc
              Hwa eq_refl Hpa Hpn) as (a' & b' & st1 & Hrun & Hframe & _ & Hl & Hr).
  exists a', b', st1.
  assert (Hsame : logicop a (PyInt n) op st = logicop a (PyWire c) op st0).
  { unfold logicop.
    rewrite (bind_ok _ _ st c st0 (as_wires_int st n Hn)).
    now rewrite (bind_ok _ _ st0 c st0 eq_refl). }
  rewrite Hsame.
  split; [exact Hrun | split; [now apply Hframe | split; [exact Hl | exact Hr]]].
Qed.

(** X16.  The reflected operators build the same net as the direct
    ones.  With a non-negative integer [n] on the left of the operator
    and the wire on the right, the wire is still the first input of the
    net and the constant made from [n] (of the bit length of [n]) the
    second, each extended when it is the narrower: for the operators
    that do not commute this is the order of [wire - n].  The result
    has the width the operation gives. *)
Theorem reflected_operand_order (st : State) (a : ref) (oa : WireVectorObj)
    (wa n : Z) :
  wirevectors st !! a = Some oa -> bitwidth oa = Some wa -> 0 < wa -> 0 <= n ->
  let c := length (wirevectors st) in
  let wn := Z.log2 n + 1 in
  Forall (fun f : (ref -> pyval -> M ref) * string =>
            exists a' b' st1,
              fst f a (PyInt n) st =
                (Ok (length (wirevectors st1)),
                 emit (mkNet (snd f) None [a'; b'] [length (wirevectors st1)])
                   (alloc (mkWire WireVectorC
                             (Some (resultlen_of (snd f) (Z.max wa wn)))
                             None None false) st1))
              /\ wirevectors st1 !! c
                 = Some (mkWire ConstC (Some wn) (Some n) None false)
              /\ (wn <= wa -> a' = a) /\ (wa <= wn -> b' = c))
         [(__rand__, "&"); (__ror__, "|"); (__rxor__, "^");
          (__radd__, "+"); (__rsub__, "-"); (__rmul__, "*")].
Proof.
  intros Ha Hwa Hpa Hn c wn.
  repeat (constructor;
          [exact (logicop_int_run st a oa wa n _ Ha Hwa Hpa Hn) |]).
  constructor.
Qed.

Lemma reflected_operand_order_witness :
  wirevectors (one_wire WireVectorC 3) !! 0%nat
    = Some (mkWire WireVectorC (Some 3) None None false)
  /\ Forall (fun f : (ref -> pyval -> M ref) * string =>
               exists a' b' st1,
                 fst f 0%nat (PyInt 5) (one_wire WireVectorC 3) =
                   (Ok (length (wirevectors st1)),
                    emit (mkNet (snd f) None [a'; b'] [length (wirevectors st1)])
                      (alloc (mkWire WireVectorC
                                (Some (resultlen_of (snd f) (Z.max 3 3)))
                                None None false) st1))
                 /\ wirevectors st1 !! 1%nat
                    = Some (mkWire ConstC (Some 3) (Some 5) None false)
                 /\ (3 <= 3 -> a' = 0%nat) /\ (3 <= 3 -> b' = 1%nat))
            [(__rand__, "&"); (__ror__, "|"); (__rxor__, "^");
             (__radd__, "+"); (__rsub__, "-"); (__rmul__, "*")].
Proof.
  split; [reflexivity |].
  exact (reflected_operand_order (one_wire WireVectorC 3) 0%nat _ 3 5
           eq_refl eq_refl ltac:(lia) ltac:(lia)).
Defined.
